(** * scylla-sstable: the fragment stream, the JSON dumper and parser,
      the reader driver and the file-producing operations

    A shallow embedding of [tools/scylla-sstable.cc].  Stateful classes
    become records threaded through their member functions; member
    functions that return [bool] to signal a parse error become
    functions into [result]; the seastar queue, the reader and the file
    system become explicit values. *)

From Stdlib Require Import ZArith List String Ascii Bool Lia DecimalString Sorted.
From stdpp Require Import base option gmap strings.
Import ListNotations.

Local Open Scope string_scope.
Local Open Scope list_scope.

(** ** Data model *)

(** [bytes] is the raw byte string of a key or of a cell value. *)
Definition bytes := string.

(** [api::timestamp_type]: signed 64-bit microseconds. *)
Definition timestamp_type := Z.

(** [gc_clock::time_point] and [gc_clock::duration], in seconds. *)
Definition time_point := Z.
Definition duration := Z.

(** Modelled from the spec: [::tombstone] is declared in another header
    of the code base.  "A tombstone is {timestamp, deletion_time} or the
    empty tombstone." *)
Inductive tombstone :=
  | no_tombstone
  | mk_tombstone (timestamp : timestamp_type) (deletion_time : time_point).

(** [explicit operator bool] of a tombstone. *)
Definition tombstone_bool (t : tombstone) : bool :=
  match t with no_tombstone => false | mk_tombstone _ _ => true end.

(** Modelled from the spec: [row_tombstone] is declared in another
    header of the code base.  "an optional row tombstone (with optional
    shadowable component)": a regular part and a shadowable part.  How the
    two parts are combined is left to [externals]. *)
Record row_tombstone := mk_row_tombstone {
  regular : tombstone;
  shadowable : tombstone
}.

(** [row_tombstone{}] *)
Definition empty_row_tombstone : row_tombstone :=
  mk_row_tombstone no_tombstone no_tombstone.

(** Modelled from the spec: [row_marker] is declared in another header
    of the code base.  "an optional row marker {timestamp, optional (ttl,
    expiry)}". *)
Inductive row_marker :=
  | marker_missing
  | marker_live (timestamp : timestamp_type)
  | marker_expiring (timestamp : timestamp_type) (ttl : duration) (expiry : time_point).

Definition marker_is_missing (m : row_marker) : bool :=
  match m with marker_missing => true | _ => false end.

Definition marker_timestamp (m : row_marker) : timestamp_type :=
  match m with
  | marker_missing => (- 2 ^ 63)%Z
  | marker_live ts | marker_expiring ts _ _ => ts
  end.

(** [bound_weight], with the integers the dumper prints for it. *)
Inductive bound_weight := before_all_prefixed | equal | after_all_prefixed.

Definition bound_weight_to_int (w : bound_weight) : Z :=
  match w with
  | before_all_prefixed => (-1)%Z
  | equal => 0%Z
  | after_all_prefixed => 1%Z
  end.

Inductive column_kind := partition_key_kind | clustering_key_kind | static_column | regular_column.

Definition column_kind_eqb (a b : column_kind) : bool :=
  match a, b with
  | partition_key_kind, partition_key_kind
  | clustering_key_kind, clustering_key_kind
  | static_column, static_column
  | regular_column, regular_column => true
  | _, _ => false
  end.

(** A [data_type] is known by its name; what it does is in [externals]. *)
Definition data_type := string.

Definition column_id := nat.

Record column_definition := mk_column_definition {
  name_as_text : string;
  id : column_id;
  kind : column_kind;
  is_atomic : bool;
  type : data_type
}.

(** Modelled from the spec: the cell classes are declared in other
    headers of the code base.  "A regular cell is either live {timestamp,
    value, optional (ttl, expiry)} or dead {timestamp, deletion_time}.  A
    counter cell is live with an ordered set of {id, value, logical_clock}
    shards.  A collection cell carries an optional tombstone plus an
    ordered sequence of sub-cell entries keyed by their element key."

    Cells are stored by the variant their column's type dictates, so the
    questions the source asks of the column ([is_atomic], [is_counter],
    [is_collection], [is_user_type]) are answered by the variant. *)
Inductive atomic_cell :=
  | live (timestamp : timestamp_type) (value : bytes) (expiring : option (duration * time_point))
  | dead (timestamp : timestamp_type) (deletion_time : time_point).

Record counter_shard := mk_counter_shard {
  shard_id : string;
  shard_value : Z;
  shard_logical_clock : Z
}.

Inductive atomic_cell_or_collection :=
  | regular_cell (c : atomic_cell)
  | counter_update_cell (timestamp : timestamp_type) (counter_update_value : Z)
  | counter_cell (timestamp : timestamp_type) (shards : list counter_shard)
  | collection_cell (tomb : tombstone) (cells : list (bytes * atomic_cell))
  | unknown_cell.

Definition atomic_cell_timestamp (c : atomic_cell) : timestamp_type :=
  match c with live ts _ _ | dead ts _ => ts end.

Definition atomic_cell_is_live (c : atomic_cell) : bool :=
  match c with live _ _ _ => true | dead _ _ => false end.

(** A [row] holds its cells by ascending column id, the order in which
    [row::for_each_cell] visits them. *)
Definition row := list (column_id * atomic_cell_or_collection).

Record decorated_key := mk_decorated_key {
  token : Z;
  key : bytes
}.

Record partition_start := mk_partition_start {
  ps_key : decorated_key;
  partition_tombstone : tombstone
}.

Record clustering_row := mk_clustering_row {
  cr_key : bytes;
  cr_tomb : row_tombstone;
  cr_marker : row_marker;
  cr_cells : row
}.

(** [position_in_partition] of a range tombstone change: an optional
    clustering key prefix and a bound weight. *)
Record range_tombstone_change := mk_range_tombstone_change {
  rtc_key : option bytes;
  rtc_bound_weight : bound_weight;
  rtc_tombstone : tombstone
}.

(** [mutation_fragment_v2]: the five fragment kinds. *)
Inductive mutation_fragment_v2 :=
  | mf_partition_start (ps : partition_start)
  | mf_static_row (cells : row)
  | mf_clustering_row (cr : clustering_row)
  | mf_range_tombstone_change (rtc : range_tombstone_change)
  | mf_partition_end.

Definition is_partition_start (mf : mutation_fragment_v2) : bool :=
  match mf with mf_partition_start _ => true | _ => false end.

Definition is_end_of_partition (mf : mutation_fragment_v2) : bool :=
  match mf with mf_partition_end => true | _ => false end.

(** ** What the tool takes from the rest of the code base

    The schema, the type system, the hex and date codecs and the merge
    rules of rows, markers and row tombstones live in other parts of the
    code base; the tool is verified for any of them. *)
Record externals := mk_externals {
  (** [to_hex] and [from_hex]; the latter throws on malformed input. *)
  to_hex : bytes -> string;
  from_hex : string -> option bytes;
  (** [fmt::format("{:%F %T}z", fmt::gmtime(...))] *)
  time_point_to_string : time_point -> string;
  (** [timestamp_from_string], in milliseconds; throws on malformed input. *)
  timestamp_from_string : string -> option Z;
  (** [fmt::format("{}", ttl)] of a [gc_clock::duration] *)
  duration_to_string : duration -> string;
  (** [std::stringstream(s) >> ttl] for a [uint64_t]; [None] when it fails. *)
  read_uint64 : string -> option Z;
  (** [abstract_type::to_string] and [from_string] *)
  type_to_string : data_type -> bytes -> string;
  type_from_string : data_type -> string -> option bytes;
  (** The two casts of [write(collection_mutation_view_description)]: whether
      one of them succeeds, the key it prints for element [i] and the type of
      the value of element [i]. *)
  collection_known : data_type -> bool;
  element_key_to_string : data_type -> nat -> bytes -> string;
  element_type : data_type -> nat -> data_type;
  (** [schema::get_column_definition] and [schema::column_at] *)
  get_column_definition : string -> option column_definition;
  column_at : column_kind -> column_id -> column_definition;
  (** [dht::decorate_key]: the token of a partition key *)
  token_of : bytes -> Z;
  (** the printed forms of a token and of a key ([with_schema]) *)
  token_to_string : Z -> string;
  key_to_string : bytes -> string;
  (** [row::apply(const column_definition&, atomic_cell)] *)
  row_apply : row -> column_definition -> atomic_cell -> row;
  (** [row_marker::apply] *)
  marker_apply : row_marker -> row_marker -> row_marker;
  (** [row_tombstone]: its [operator bool], its constructor from a
      tombstone, [apply(shadowable_tombstone, row_marker)] and [tomb()] *)
  row_tombstone_bool : row_tombstone -> bool;
  row_tombstone_of : tombstone -> row_tombstone;
  row_tombstone_apply_shadowable : row_tombstone -> tombstone -> row_tombstone;
  row_tombstone_tomb : row_tombstone -> tombstone
}.

(** ** JSON events

    The calls of the rapidjson [Writer] and the callbacks of the rapidjson
    [Reader] share one vocabulary.  [Int] carries a C [int], [Uint] an
    [unsigned], [Int64] an [int64_t] and [Uint64] a [uint64_t]. *)
Module json.

Inductive event :=
  | Null
  | Bool (b : bool)
  | Int (i : Z)
  | Uint (i : Z)
  | Int64 (i : Z)
  | Uint64 (i : Z)
  | Double (d : string)
  | RawNumber (str : string)
  | String (str : string)
  | StartObject
  | Key (str : string)
  | EndObject
  | StartArray
  | EndArray.

(** The values each integer event can carry. *)
Definition in_range (e : event) : bool :=
  match e with
  | Int i => (- 2 ^ 31 <=? i)%Z && (i <? 2 ^ 31)%Z
  | Uint i => (0 <=? i)%Z && (i <? 2 ^ 32)%Z
  | Int64 i => (- 2 ^ 63 <=? i)%Z && (i <? 2 ^ 63)%Z
  | Uint64 i => (0 <=? i)%Z && (i <? 2 ^ 64)%Z
  | _ => true
  end.

(** How the rapidjson [Reader] reports an integer literal: the narrowest
    of [Uint], [Uint64] for a literal without sign, of [Int], [Int64] for
    a negative one. *)
Definition read_integer (n : Z) : event :=
  if (0 <=? n)%Z then
    if (n <? 2 ^ 32)%Z then Uint n else Uint64 n
  else
    if (- 2 ^ 31 <=? n)%Z then Int n else Int64 n.

(** A written document read back: each integer the [Writer] printed comes
    back as the event [read_integer] gives for its digits. *)
Definition reread (e : event) : event :=
  match e with
  | Int i | Uint i | Int64 i | Uint64 i => read_integer i
  | _ => e
  end.

End json.

(** The conversion of a [uint64_t] to [int64_t]. *)
Definition uint64_to_int64 (u : Z) : Z :=
  ((u + 2 ^ 63) mod 2 ^ 64 - 2 ^ 63)%Z.

(** [parse_ttl] drops one final [s], if there is one, before reading the
    number. *)
Fixpoint drop_final_s (s : string) : string :=
  match s with
  | EmptyString => EmptyString
  | String c EmptyString => if Ascii.eqb c "s"%char then EmptyString else s
  | String c s' => String c (drop_final_s s')
  end.

(** ** The structured-stream parser: [json_mutation_stream_parser::handler] *)
Module handler.

Inductive state :=
  | start
  | before_partition
  | in_partition
  | before_key
  | in_key
  | before_tombstone
  | in_tombstone
  | before_static_columns
  | before_clustering_elements
  | before_clustering_element
  | in_clustering_element
  | in_range_tombstone_change
  | in_clustering_row
  | before_marker
  | in_marker
  | before_clustering_columns
  | before_column_key
  | before_column
  | in_column
  | before_ignored_value
  | before_integer
  | before_string
  | before_bool.

Definition state_eq_dec (a b : state) : {a = b} + {a <> b}.
Proof. decide equality. Defined.

Definition state_eqb (a b : state) : bool :=
  if state_eq_dec a b then true else false.

(** [struct column] *)
Record column := mk_column {
  def : column_definition;
  is_live : option bool;
  timestamp : option timestamp_type;
  value : option bytes;
  deletion_time : option time_point
}.

(** [struct tombstone] of the handler: the parts seen so far. *)
Record tombstone_parts := mk_tombstone_parts {
  tp_timestamp : option timestamp_type;
  tp_deletion_time : option time_point
}.

(** The members of the handler.  [_queue] holds what was pushed, oldest
    first; [None] is the end-of-stream marker.  [_state_stack] has its
    front at the head of the list. *)
Record t := mk {
  _queue : list (option mutation_fragment_v2);
  _state_stack : list state;
  _key : string;
  _partition_start_emited : bool;
  _is_shadowable : bool;
  _bool : option bool;
  _integer : option Z;
  _string : option string;
  _pkey : option bytes;
  _tombstone : option tombstone_parts;
  _ckey : option bytes;
  _bound_weight : option bound_weight;
  _row_marker : option row_marker;
  _row_tombstone : option row_tombstone;
  _row : option row;
  _column : option column;
  _ttl : option duration;
  _expiry : option time_point
}.

Definition set_queue v (h : t) : t :=
  {| _queue := v; _state_stack := _state_stack h; _key := _key h;
     _partition_start_emited := _partition_start_emited h;
     _is_shadowable := _is_shadowable h; _bool := _bool h; _integer := _integer h;
     _string := _string h; _pkey := _pkey h; _tombstone := _tombstone h; _ckey := _ckey h;
     _bound_weight := _bound_weight h; _row_marker := _row_marker h;
     _row_tombstone := _row_tombstone h; _row := _row h; _column := _column h;
     _ttl := _ttl h; _expiry := _expiry h |}.

Definition set_state_stack v (h : t) : t :=
  {| _queue := _queue h; _state_stack := v; _key := _key h;
     _partition_start_emited := _partition_start_emited h;
     _is_shadowable := _is_shadowable h; _bool := _bool h; _integer := _integer h;
     _string := _string h; _pkey := _pkey h; _tombstone := _tombstone h; _ckey := _ckey h;
     _bound_weight := _bound_weight h; _row_marker := _row_marker h;
     _row_tombstone := _row_tombstone h; _row := _row h; _column := _column h;
     _ttl := _ttl h; _expiry := _expiry h |}.

Definition set_key v (h : t) : t :=
  {| _queue := _queue h; _state_stack := _state_stack h; _key := v;
     _partition_start_emited := _partition_start_emited h;
     _is_shadowable := _is_shadowable h; _bool := _bool h; _integer := _integer h;
     _string := _string h; _pkey := _pkey h; _tombstone := _tombstone h; _ckey := _ckey h;
     _bound_weight := _bound_weight h; _row_marker := _row_marker h;
     _row_tombstone := _row_tombstone h; _row := _row h; _column := _column h;
     _ttl := _ttl h; _expiry := _expiry h |}.

Definition set_partition_start_emited v (h : t) : t :=
  {| _queue := _queue h; _state_stack := _state_stack h; _key := _key h;
     _partition_start_emited := v; _is_shadowable := _is_shadowable h; _bool := _bool h;
     _integer := _integer h; _string := _string h; _pkey := _pkey h;
     _tombstone := _tombstone h; _ckey := _ckey h; _bound_weight := _bound_weight h;
     _row_marker := _row_marker h; _row_tombstone := _row_tombstone h; _row := _row h;
     _column := _column h; _ttl := _ttl h; _expiry := _expiry h |}.

Definition set_is_shadowable v (h : t) : t :=
  {| _queue := _queue h; _state_stack := _state_stack h; _key := _key h;
     _partition_start_emited := _partition_start_emited h; _is_shadowable := v;
     _bool := _bool h; _integer := _integer h; _string := _string h; _pkey := _pkey h;
     _tombstone := _tombstone h; _ckey := _ckey h; _bound_weight := _bound_weight h;
     _row_marker := _row_marker h; _row_tombstone := _row_tombstone h; _row := _row h;
     _column := _column h; _ttl := _ttl h; _expiry := _expiry h |}.

Definition set_bool v (h : t) : t :=
  {| _queue := _queue h; _state_stack := _state_stack h; _key := _key h;
     _partition_start_emited := _partition_start_emited h;
     _is_shadowable := _is_shadowable h; _bool := v; _integer := _integer h;
     _string := _string h; _pkey := _pkey h; _tombstone := _tombstone h; _ckey := _ckey h;
     _bound_weight := _bound_weight h; _row_marker := _row_marker h;
     _row_tombstone := _row_tombstone h; _row := _row h; _column := _column h;
     _ttl := _ttl h; _expiry := _expiry h |}.

Definition set_integer v (h : t) : t :=
  {| _queue := _queue h; _state_stack := _state_stack h; _key := _key h;
     _partition_start_emited := _partition_start_emited h;
     _is_shadowable := _is_shadowable h; _bool := _bool h; _integer := v;
     _string := _string h; _pkey := _pkey h; _tombstone := _tombstone h; _ckey := _ckey h;
     _bound_weight := _bound_weight h; _row_marker := _row_marker h;
     _row_tombstone := _row_tombstone h; _row := _row h; _column := _column h;
     _ttl := _ttl h; _expiry := _expiry h |}.

Definition set_string v (h : t) : t :=
  {| _queue := _queue h; _state_stack := _state_stack h; _key := _key h;
     _partition_start_emited := _partition_start_emited h;
     _is_shadowable := _is_shadowable h; _bool := _bool h; _integer := _integer h;
     _string := v; _pkey := _pkey h; _tombstone := _tombstone h; _ckey := _ckey h;
     _bound_weight := _bound_weight h; _row_marker := _row_marker h;
     _row_tombstone := _row_tombstone h; _row := _row h; _column := _column h;
     _ttl := _ttl h; _expiry := _expiry h |}.

Definition set_pkey v (h : t) : t :=
  {| _queue := _queue h; _state_stack := _state_stack h; _key := _key h;
     _partition_start_emited := _partition_start_emited h;
     _is_shadowable := _is_shadowable h; _bool := _bool h; _integer := _integer h;
     _string := _string h; _pkey := v; _tombstone := _tombstone h; _ckey := _ckey h;
     _bound_weight := _bound_weight h; _row_marker := _row_marker h;
     _row_tombstone := _row_tombstone h; _row := _row h; _column := _column h;
     _ttl := _ttl h; _expiry := _expiry h |}.

Definition set_tombstone v (h : t) : t :=
  {| _queue := _queue h; _state_stack := _state_stack h; _key := _key h;
     _partition_start_emited := _partition_start_emited h;
     _is_shadowable := _is_shadowable h; _bool := _bool h; _integer := _integer h;
     _string := _string h; _pkey := _pkey h; _tombstone := v; _ckey := _ckey h;
     _bound_weight := _bound_weight h; _row_marker := _row_marker h;
     _row_tombstone := _row_tombstone h; _row := _row h; _column := _column h;
     _ttl := _ttl h; _expiry := _expiry h |}.

Definition set_ckey v (h : t) : t :=
  {| _queue := _queue h; _state_stack := _state_stack h; _key := _key h;
     _partition_start_emited := _partition_start_emited h;
     _is_shadowable := _is_shadowable h; _bool := _bool h; _integer := _integer h;
     _string := _string h; _pkey := _pkey h; _tombstone := _tombstone h; _ckey := v;
     _bound_weight := _bound_weight h; _row_marker := _row_marker h;
     _row_tombstone := _row_tombstone h; _row := _row h; _column := _column h;
     _ttl := _ttl h; _expiry := _expiry h |}.

Definition set_bound_weight v (h : t) : t :=
  {| _queue := _queue h; _state_stack := _state_stack h; _key := _key h;
     _partition_start_emited := _partition_start_emited h;
     _is_shadowable := _is_shadowable h; _bool := _bool h; _integer := _integer h;
     _string := _string h; _pkey := _pkey h; _tombstone := _tombstone h; _ckey := _ckey h;
     _bound_weight := v; _row_marker := _row_marker h; _row_tombstone := _row_tombstone h;
     _row := _row h; _column := _column h; _ttl := _ttl h; _expiry := _expiry h |}.

Definition set_row_marker v (h : t) : t :=
  {| _queue := _queue h; _state_stack := _state_stack h; _key := _key h;
     _partition_start_emited := _partition_start_emited h;
     _is_shadowable := _is_shadowable h; _bool := _bool h; _integer := _integer h;
     _string := _string h; _pkey := _pkey h; _tombstone := _tombstone h; _ckey := _ckey h;
     _bound_weight := _bound_weight h; _row_marker := v;
     _row_tombstone := _row_tombstone h; _row := _row h; _column := _column h;
     _ttl := _ttl h; _expiry := _expiry h |}.

Definition set_row_tombstone v (h : t) : t :=
  {| _queue := _queue h; _state_stack := _state_stack h; _key := _key h;
     _partition_start_emited := _partition_start_emited h;
     _is_shadowable := _is_shadowable h; _bool := _bool h; _integer := _integer h;
     _string := _string h; _pkey := _pkey h; _tombstone := _tombstone h; _ckey := _ckey h;
     _bound_weight := _bound_weight h; _row_marker := _row_marker h; _row_tombstone := v;
     _row := _row h; _column := _column h; _ttl := _ttl h; _expiry := _expiry h |}.

Definition set_row v (h : t) : t :=
  {| _queue := _queue h; _state_stack := _state_stack h; _key := _key h;
     _partition_start_emited := _partition_start_emited h;
     _is_shadowable := _is_shadowable h; _bool := _bool h; _integer := _integer h;
     _string := _string h; _pkey := _pkey h; _tombstone := _tombstone h; _ckey := _ckey h;
     _bound_weight := _bound_weight h; _row_marker := _row_marker h;
     _row_tombstone := _row_tombstone h; _row := v; _column := _column h; _ttl := _ttl h;
     _expiry := _expiry h |}.

Definition set_column v (h : t) : t :=
  {| _queue := _queue h; _state_stack := _state_stack h; _key := _key h;
     _partition_start_emited := _partition_start_emited h;
     _is_shadowable := _is_shadowable h; _bool := _bool h; _integer := _integer h;
     _string := _string h; _pkey := _pkey h; _tombstone := _tombstone h; _ckey := _ckey h;
     _bound_weight := _bound_weight h; _row_marker := _row_marker h;
     _row_tombstone := _row_tombstone h; _row := _row h; _column := v; _ttl := _ttl h;
     _expiry := _expiry h |}.

Definition set_ttl v (h : t) : t :=
  {| _queue := _queue h; _state_stack := _state_stack h; _key := _key h;
     _partition_start_emited := _partition_start_emited h;
     _is_shadowable := _is_shadowable h; _bool := _bool h; _integer := _integer h;
     _string := _string h; _pkey := _pkey h; _tombstone := _tombstone h; _ckey := _ckey h;
     _bound_weight := _bound_weight h; _row_marker := _row_marker h;
     _row_tombstone := _row_tombstone h; _row := _row h; _column := _column h; _ttl := v;
     _expiry := _expiry h |}.

Definition set_expiry v (h : t) : t :=
  {| _queue := _queue h; _state_stack := _state_stack h; _key := _key h;
     _partition_start_emited := _partition_start_emited h;
     _is_shadowable := _is_shadowable h; _bool := _bool h; _integer := _integer h;
     _string := _string h; _pkey := _pkey h; _tombstone := _tombstone h; _ckey := _ckey h;
     _bound_weight := _bound_weight h; _row_marker := _row_marker h;
     _row_tombstone := _row_tombstone h; _row := _row h; _column := _column h;
     _ttl := _ttl h; _expiry := v |}.

(** A member function that returns [bool] either goes on with a new
    handler or has called [error]: the queue is aborted with the message
    and the reader stops.  [Failed] keeps the handler as it was then. *)
Inductive result (A : Type) :=
  | Ok (a : A)
  | Failed (msg : string) (h : t).

Arguments Ok {A} a.
Arguments Failed {A} msg h.

Definition bind {A B : Type} (r : result A) (k : A -> result B) : result B :=
  match r with
  | Ok a => k a
  | Failed msg h => Failed msg h
  end.

Notation "'let*' x ':=' c1 'in' c2" := (bind c1 (fun x => c2))
  (at level 10, x pattern, c1 at level 100, c2 at level 200).

Definition has {A : Type} (o : option A) : bool :=
  match o with Some _ => true | None => false end.

(** The message is the format string of the source; its arguments are
    not rendered. *)
Definition error {A : Type} (msg : string) (h : t) : result A := Failed msg h.

(** Reading through an empty [std::optional] has no defined behaviour;
    the model stops there. *)
Definition empty_optional {A : Type} (h : t) : result A :=
  Failed "<empty optional>" h.

Definition emit (mf : mutation_fragment_v2) (h : t) : result t :=
  Ok (set_queue (_queue h ++ [Some mf]) h).

(** [top(i)]: the [i]-th state from the front; nothing when the stack is
    shorter, where the source reads out of bounds. *)
Definition top (i : nat) (h : t) : option state := nth_error (_state_stack h) i.

Definition top_is (i : nat) (s : state) (h : t) : bool :=
  match top i h with
  | Some s' => state_eqb s' s
  | None => false
  end.

Definition push (s : state) (h : t) : result t :=
  Ok (set_state_stack (s :: _state_stack h) h).

Definition unexpected {A : Type} (h : t) : result A :=
  error "unexpected json event {} in state {}" h.

Definition unexpected_key {A : Type} (k : string) (h : t) : result A :=
  error "unexpected json event {}({}) in state {}" h.

Section WithExternals.

Context (X : externals).

Definition parse_partition_key (h : t) : result t :=
  match _string h with
  | None => empty_optional h
  | Some s =>
      match from_hex X s with
      | Some raw => Ok (set_pkey (Some raw) h)
      | None => error "failed to parse partition key from raw string: {}" h
      end
  end.

Definition parse_clustering_key (h : t) : result t :=
  match _string h with
  | None => empty_optional h
  | Some s =>
      match from_hex X s with
      | Some raw => Ok (set_ckey (Some raw) h)
      | None => error "failed to parse clustering key from raw string: {}" h
      end
  end.

Definition parse_bound_weight (h : t) : result t :=
  match _integer h with
  | None => empty_optional h
  | Some i =>
      if (i =? -1)%Z then Ok (set_bound_weight (Some before_all_prefixed) h)
      else if (i =? 0)%Z then Ok (set_bound_weight (Some equal) h)
      else if (i =? 1)%Z then Ok (set_bound_weight (Some after_all_prefixed) h)
      else error "failed to parse bound weight: {} is not a valid bound weight value" h
  end.

Definition parse_deletion_time (h : t) : result t :=
  match _string h with
  | None => empty_optional h
  | Some s =>
      match timestamp_from_string X s with
      | None => error "failed to parse deletion_time: {}" h
      | Some ms =>
          let dt := (ms ÷ 1000)%Z in
          if top_is 1 in_column h then
            match _column h with
            | None => empty_optional h
            | Some c =>
                Ok (set_column (Some (mk_column (def c) (is_live c) (timestamp c) (value c) (Some dt))) h)
            end
          else
            match _tombstone h with
            | None => empty_optional h
            | Some tp => Ok (set_tombstone (Some (mk_tombstone_parts (tp_timestamp tp) (Some dt))) h)
            end
      end
  end.

Definition parse_ttl (h : t) : result t :=
  match _string h with
  | None => empty_optional h
  | Some s =>
      match read_uint64 X (drop_final_s s) with
      | None => error "failed to parse ttl value of {}" h
      | Some ttl => Ok (set_ttl (Some (uint64_to_int64 ttl)) h)
      end
  end.

Definition parse_expiry (h : t) : result t :=
  match _string h with
  | None => empty_optional h
  | Some s =>
      match timestamp_from_string X s with
      | None => error "failed to parse expiry: {}" h
      | Some ms => Ok (set_expiry (Some (ms ÷ 1000)%Z) h)
      end
  end.

Definition get_tombstone (h : t) : result (tombstone * t) :=
  match _tombstone h with
  | None => empty_optional h
  | Some tp =>
      if negb (Bool.eqb (has (tp_timestamp tp)) (has (tp_deletion_time tp))) then
        error "incomplete tombstone: timestamp or deletion-time have to be either both present or missing" h
      else
        match tp_timestamp tp with
        | None => Ok (no_tombstone, set_tombstone None h)
        | Some ts =>
            match tp_deletion_time tp with
            | None => empty_optional h
            | Some dt => Ok (mk_tombstone ts dt, set_tombstone None h)
            end
        end
  end.

Definition finalize_partition_start (tomb : tombstone) (h : t) : result t :=
  let pkey := _pkey h in
  let h := set_pkey None h in
  match pkey with
  | None => error "failed to finalize partition start: no partition key" h
  | Some pk =>
      let ps := mk_partition_start (mk_decorated_key (token_of X pk) pk) tomb in
      emit (mf_partition_start ps) (set_partition_start_emited true h)
  end.

Definition finalize_static_row (h : t) : result t :=
  match _row h with
  | None => error "failed to finalize clustering row: row is not initialized yet" h
  | Some r => emit (mf_static_row r) (set_row None h)
  end.

Definition finalize_range_tombstone_change (h : t) : result t :=
  match _bound_weight h with
  | None => error "failed to finalize range tombstone change: missing bound weight" h
  | Some bw =>
      match bw with
      | equal =>
          error "failed to finalize range tombstone change: bound_weight::equal is not valid for range tombstones changes" h
      | _ =>
          match _row_tombstone h with
          | None => error "failed to finalize range tombstone change: missing tombstone" h
          | Some rt =>
              let ckey := match _ckey h with Some ck => ck | None => EmptyString end in
              let h := set_ckey None h in
              let h := set_bound_weight None h in
              let h := set_row_tombstone None h in
              emit (mf_range_tombstone_change
                      (mk_range_tombstone_change (Some ckey) bw (row_tombstone_tomb X rt))) h
          end
      end
  end.

Definition finalize_row_marker (h : t) : result t :=
  match _row_marker h with
  | None => error "failed to finalize row marker: it has no timestamp" h
  | Some m =>
      if negb (Bool.eqb (has (_expiry h)) (has (_ttl h))) then
        error "failed to finalize row marker: ttl and expiry must either be both present or both missing" h
      else if negb (has (_expiry h)) && negb (has (_ttl h)) then
        Ok h
      else
        match _ttl h, _expiry h with
        | Some ttl, Some expiry =>
            let m' := marker_apply X m (marker_expiring (marker_timestamp m) ttl expiry) in
            Ok (set_row_marker (Some m') (set_expiry None (set_ttl None h)))
        | _, _ => empty_optional h
        end
  end.

Definition parse_column_value (h : t) : result t :=
  match _column h, _string h with
  | Some c, Some s =>
      match type_from_string X (type (def c)) s with
      | None => error "failed to parse cell value: {}" h
      | Some v =>
          Ok (set_column (Some (mk_column (def c) (is_live c) (timestamp c) (Some v) (deletion_time c))) h)
      end
  | _, _ => empty_optional h
  end.

Definition finalize_column (h : t) : result t :=
  match _row h with
  | None => error "failed to finalize cell: row not initialized yet" h
  | Some r =>
      match _column h with
      | None => empty_optional h
      | Some c =>
          if negb (has (is_live c)) || negb (has (timestamp c)) then
            error "failed to finalize cell: required fields is_live and/or timestamp missing" h
          else if bool_decide (is_live c = Some true) && negb (has (value c)) then
            error "failed to finalize cell: live cell doesn't have data" h
          else if negb (bool_decide (is_live c = Some true)) && negb (has (deletion_time c)) then
            error "failed to finalize cell: dead cell doesn't have deletion time" h
          else if negb (Bool.eqb (has (_expiry h)) (has (_ttl h))) then
            error "failed to finalize cell: ttl and expiry must either be both present or both missing" h
          else
            match is_live c, timestamp c with
            | Some true, Some ts =>
                match _ttl h with
                | Some ttl =>
                    match value c, _expiry h with
                    | Some v, Some expiry =>
                        let r' := row_apply X r (def c) (live ts v (Some (ttl, expiry))) in
                        Ok (set_column None (set_row (Some r') (set_ttl None (set_expiry None h))))
                    | _, _ => empty_optional h
                    end
                | None =>
                    match value c with
                    | Some v =>
                        let r' := row_apply X r (def c) (live ts v None) in
                        Ok (set_column None (set_row (Some r') h))
                    | None => empty_optional h
                    end
                end
            | Some false, Some ts =>
                match deletion_time c with
                | Some dt =>
                    let r' := row_apply X r (def c) (dead ts dt) in
                    Ok (set_column None (set_row (Some r') h))
                | None => empty_optional h
                end
            | _, _ => empty_optional h
            end
      end
  end.

(** Moving the key out of [_ckey] leaves [_ckey] engaged, holding the
    moved-from key, which is the empty one. *)
Definition finalize_clustering_row (h : t) : result t :=
  match _ckey h with
  | None => error "failed to finalize clustering row: missing clustering key" h
  | Some ck =>
      match _row h with
      | None => error "failed to finalize clustering row: row is not initialized yet" h
      | Some r =>
          let tomb := _row_tombstone h in
          let marker := _row_marker h in
          let h := set_row None h in
          let h := set_row_tombstone None h in
          let h := set_row_marker None h in
          let h := set_ckey (Some EmptyString) h in
          let cr := mk_clustering_row ck
                      (default empty_row_tombstone tomb)
                      (default marker_missing marker)
                      r in
          emit (mf_clustering_row cr) h
      end
  end.

Definition finalize_partition (h : t) : result t :=
  emit mf_partition_end (set_partition_start_emited false h).

(** [retire_state_result] without its [ok] flag, which [result] carries. *)
Record retire_state_result := mk_retire_state_result {
  after : t;
  pop_states : nat;
  next_state : option state
}.

Definition retired (n : nat) (h : t) : result retire_state_result :=
  Ok (mk_retire_state_result h n None).

Definition handle_retire_state (h : t) : result retire_state_result :=
  match top 0 h with
  | Some before_partition =>
      (* EOS *)
      retired 1 (set_queue (_queue h ++ [None]) h)
  | Some in_partition =>
      let* h := finalize_partition h in retired 1 h
  | Some in_key =>
      retired 2 h
  | Some in_tombstone =>
      let is_shadowable := _is_shadowable h in
      let h := set_is_shadowable false h in
      let* got := get_tombstone h in
      let tomb := fst got in
      let h := snd got in
      if top_is 2 in_partition h then
        let* h := finalize_partition_start tomb h in retired 2 h
      else if top_is 2 in_range_tombstone_change h then
        retired 2 (set_row_tombstone (Some (row_tombstone_of X tomb)) h)
      else if top_is 2 in_clustering_row h then
        if is_shadowable then
          match _row_tombstone h with
          | None => error "cannot apply shadowable tombstone, row tombstone not initialized yet" h
          | Some rt =>
              retired 2 (set_row_tombstone (Some (row_tombstone_apply_shadowable X rt tomb)) h)
          end
        else
          retired 2 (set_row_tombstone (Some (row_tombstone_of X tomb)) h)
      else
        error "retiring in_tombstone state in invalid context: {}" h
  | Some in_marker =>
      let* h := finalize_row_marker h in retired 2 h
  | Some in_column =>
      let* h := finalize_column h in retired 2 h
  | Some before_column_key =>
      let* h := (if top_is 1 before_static_columns h then finalize_static_row h else Ok h) in
      retired 2 h
  | Some before_clustering_element =>
      retired 2 h
  | Some in_range_tombstone_change =>
      let* h := finalize_range_tombstone_change h in retired 2 h
  | Some in_clustering_row =>
      let* h := finalize_clustering_row h in retired 2 h
  | Some before_ignored_value =>
      retired 1 h
  | Some before_bool =>
      let* h :=
        (if top_is 1 in_column h then
           match _column h with
           | None => empty_optional h
           | Some c =>
               Ok (set_column (Some (mk_column (def c) (_bool h) (timestamp c) (value c) (deletion_time c))) h)
           end
         else Ok h) in
      retired 1 (set_bool None h)
  | Some before_integer =>
      let* h :=
        (if top_is 1 in_tombstone h then
           match _tombstone h, _integer h with
           | Some tp, Some i =>
               Ok (set_tombstone (Some (mk_tombstone_parts (Some i) (tp_deletion_time tp))) h)
           | _, _ => empty_optional h
           end
         else Ok h) in
      let* h := (if top_is 1 in_range_tombstone_change h then parse_bound_weight h else Ok h) in
      let* h :=
        (if top_is 1 in_column h then
           match _column h with
           | None => empty_optional h
           | Some c =>
               Ok (set_column (Some (mk_column (def c) (is_live c) (_integer h) (value c) (deletion_time c))) h)
           end
         else Ok h) in
      let* h :=
        (if top_is 1 in_marker h then
           match _integer h with
           | None => empty_optional h
           | Some i => Ok (set_row_marker (Some (marker_live i)) h)
           end
         else Ok h) in
      retired 1 (set_integer None h)
  | Some before_string =>
      if top_is 1 in_key h then
        let* h :=
          (if top_is 3 in_partition h then parse_partition_key h
           else if top_is 3 in_clustering_row h || top_is 3 in_range_tombstone_change h then
             parse_clustering_key h
           else Ok h) in
        retired 1 (set_string None h)
      else if top_is 1 in_tombstone h then
        let* h := parse_deletion_time h in retired 1 (set_string None h)
      else if top_is 1 in_marker h then
        let* h := (if (_key h =? "ttl")%string then parse_ttl h else parse_expiry h) in
        retired 1 (set_string None h)
      else if top_is 1 in_clustering_element h then
        match _string h with
        | None => empty_optional h
        | Some s =>
            if (s =? "clustering-row")%string then
              Ok (mk_retire_state_result (set_string None h) 1 (Some in_clustering_row))
            else if (s =? "range-tombstone-change")%string then
              Ok (mk_retire_state_result (set_string None h) 1 (Some in_range_tombstone_change))
            else
              error "invalid clustering element type: {}, expected clustering-row or range-tombstone-change" h
        end
      else if top_is 1 in_column h then
        let* h :=
          (if (_key h =? "ttl")%string then parse_ttl h
           else if (_key h =? "expiry")%string then parse_expiry h
           else if (_key h =? "deletion_time")%string then parse_deletion_time h
           else parse_column_value h) in
        retired 1 (set_string None h)
      else
        retired 1 (set_string None h)
  | _ =>
      error "attempted to retire unexpected state {} ({})" h
  end.

(** [pop_front], [n] times. *)
Definition pop_front (n : nat) (h : t) : t :=
  set_state_stack (skipn n (_state_stack h)) h.

Definition pop (h : t) : result t :=
  let* res := handle_retire_state h in
  let h := pop_front (pop_states res) (after res) in
  match next_state res with
  | Some s => push s h
  | None => Ok h
  end.

(** *** The callbacks of the reader *)

Definition Null (h : t) : result t :=
  match top 0 h with
  | Some before_ignored_value => pop h
  | _ => unexpected h
  end.

Definition Bool (b : bool) (h : t) : result t :=
  match top 0 h with
  | Some before_bool => pop (set_bool (Some b) h)
  | _ => unexpected h
  end.

Definition Int (i : Z) (h : t) : result t :=
  match top 0 h with
  | Some before_ignored_value => pop h
  | Some before_integer => pop (set_integer (Some i) h)
  | _ => unexpected h
  end.

Definition Uint (i : Z) (h : t) : result t :=
  match top 0 h with
  | Some before_ignored_value => pop h
  | Some before_integer => pop (set_integer (Some i) h)
  | _ => unexpected h
  end.

Definition Int64 (i : Z) (h : t) : result t :=
  match top 0 h with
  | Some before_ignored_value => pop h
  | Some before_integer => pop (set_integer (Some i) h)
  | _ => unexpected h
  end.

(** [_integer] is a [std::optional<int64_t>]: emplacing a [uint64_t]
    converts it. *)
Definition Uint64 (i : Z) (h : t) : result t :=
  match top 0 h with
  | Some before_ignored_value => pop h
  | Some before_integer => pop (set_integer (Some (uint64_to_int64 i)) h)
  | _ => unexpected h
  end.

Definition Double (d : string) (h : t) : result t :=
  match top 0 h with
  | Some before_ignored_value => pop h
  | _ => unexpected h
  end.

Definition RawNumber (str : string) (h : t) : result t :=
  unexpected h.

Definition String (str : string) (h : t) : result t :=
  match top 0 h with
  | Some before_ignored_value => pop h
  | Some before_string => pop (set_string (Some str) h)
  | _ => unexpected h
  end.

Definition StartObject (h : t) : result t :=
  match top 0 h with
  | Some before_partition => push in_partition h
  | Some before_key => push in_key h
  | Some before_tombstone =>
      push in_tombstone (set_tombstone (Some (mk_tombstone_parts None None)) h)
  | Some before_static_columns => push before_column_key (set_row (Some []) h)
  | Some before_clustering_element => push in_clustering_element (set_row (Some []) h)
  | Some before_marker => push in_marker h
  | Some before_clustering_columns => push before_column_key h
  | Some before_column => push in_column h
  | _ => unexpected h
  end.

Definition Key (str : string) (h : t) : result t :=
  let h := set_key str h in
  let _key := str in
  match top 0 h with
  | Some in_partition =>
      if (_key =? "key")%string then push before_key h
      else if (_key =? "tombstone")%string then push before_tombstone h
      else if (_key =? "static_row")%string || (_key =? "clustering_elements")%string then
        let* h :=
          (if negb (_partition_start_emited h) then finalize_partition_start no_tombstone h
           else Ok h) in
        if (_key =? "static_row")%string then push before_static_columns h
        else push before_clustering_elements h
      else unexpected_key _key h
  | Some in_key =>
      if (_key =? "value")%string || (top_is 2 in_partition h && (_key =? "token")%string) then
        push before_ignored_value h
      else if (_key =? "raw")%string then push before_string h
      else unexpected_key _key h
  | Some in_tombstone =>
      if (_key =? "timestamp")%string then push before_integer h
      else if (_key =? "deletion_time")%string then push before_string h
      else unexpected_key _key h
  | Some in_marker =>
      if (_key =? "timestamp")%string then push before_integer h
      else if (_key =? "ttl")%string || (_key =? "expiry")%string then push before_string h
      else unexpected_key _key h
  | Some in_clustering_element =>
      if (_key =? "type")%string then push before_string h
      else unexpected_key _key h
  | Some in_range_tombstone_change =>
      if (_key =? "key")%string then push before_key h
      else if (_key =? "weight")%string then push before_integer h
      else if (_key =? "tombstone")%string then push before_tombstone h
      else unexpected_key _key h
  | Some in_clustering_row =>
      if (_key =? "key")%string then push before_key h
      else if (_key =? "marker")%string then push before_marker h
      else if (_key =? "tombstone")%string then push before_tombstone h
      else if (_key =? "shadowable_tombstone")%string then
        push before_tombstone (set_is_shadowable true h)
      else if (_key =? "columns")%string then push before_clustering_columns h
      else unexpected_key _key h
  | Some before_column_key =>
      match get_column_definition X _key with
      | None => error "failed to look-up column name {}" h
      | Some cdef =>
          let h := set_column (Some (mk_column cdef None None None None)) h in
          if top_is 1 before_static_columns h && negb (column_kind_eqb (kind cdef) static_column) then
            error "cannot add column {} of kind {} to static row" h
          else if top_is 1 before_clustering_columns h
                  && negb (column_kind_eqb (kind cdef) regular_column) then
            error "cannot add column {} of kind {} to regular row" h
          else if negb (is_atomic cdef) then
            error "failed to initialize column {}: non-atomic columns are not supported yet" h
          else push before_column h
      end
  | Some in_column =>
      if (_key =? "is_live")%string then push before_bool h
      else if (_key =? "timestamp")%string then push before_integer h
      else if (_key =? "ttl")%string || (_key =? "expiry")%string
              || (_key =? "value")%string || (_key =? "deletion_time")%string then
        push before_string h
      else unexpected_key _key h
  | _ => unexpected_key _key h
  end.

Definition EndObject (h : t) : result t :=
  match top 0 h with
  | Some in_partition
  | Some in_key
  | Some in_tombstone
  | Some in_range_tombstone_change
  | Some in_clustering_row
  | Some before_column_key
  | Some in_marker
  | Some in_column => pop h
  | _ => unexpected h
  end.

Definition StartArray (h : t) : result t :=
  match top 0 h with
  | Some start => push before_partition h
  | Some before_clustering_elements => push before_clustering_element h
  | _ => unexpected h
  end.

Definition EndArray (h : t) : result t :=
  match top 0 h with
  | Some before_clustering_element
  | Some before_partition => pop h
  | _ => unexpected h
  end.

(** One callback, chosen by the event. *)
Definition dispatch (e : json.event) (h : t) : result t :=
  match e with
  | json.Null => Null h
  | json.Bool b => Bool b h
  | json.Int i => Int i h
  | json.Uint i => Uint i h
  | json.Int64 i => Int64 i h
  | json.Uint64 i => Uint64 i h
  | json.Double d => Double d h
  | json.RawNumber s => RawNumber s h
  | json.String s => String s h
  | json.StartObject => StartObject h
  | json.Key s => Key s h
  | json.EndObject => EndObject h
  | json.StartArray => StartArray h
  | json.EndArray => EndArray h
  end.

(** [reader::Parse]: the callbacks in document order, until one of them
    fails.  The result is the handler at the end, and the message the
    queue was aborted with if a callback failed. *)
Fixpoint Parse (events : list json.event) (h : t) : t * option string :=
  match events with
  | [] => (h, None)
  | e :: events' =>
      match dispatch e h with
      | Ok h' => Parse events' h'
      | Failed msg h' => (h', Some msg)
      end
  end.

End WithExternals.

(** The handler as its constructor leaves it: [push(state::start)]. *)
Definition init : t :=
  {| _queue := []; _state_stack := [start]; _key := EmptyString;
     _partition_start_emited := false; _is_shadowable := false;
     _bool := None; _integer := None; _string := None; _pkey := None;
     _tombstone := None; _ckey := None; _bound_weight := None;
     _row_marker := None; _row_tombstone := None; _row := None;
     _column := None; _ttl := None; _expiry := None |}.

End handler.

(** ** Consumers and the reader driver *)

Module stop_iteration.
Inductive t := no | yes.

Definition eqb (a b : t) : bool :=
  match a, b with
  | no, no | yes, yes => true
  | _, _ => false
  end.
End stop_iteration.

(** A call either returns or throws; [out_of_fuel] is for the loop of the
    model only, when it is given fewer rounds than it needs. *)
Inductive outcome (A : Type) :=
  | returned (a : A)
  | thrown (msg : string)
  | out_of_fuel.

Arguments returned {A} a.
Arguments thrown {A} msg.
Arguments out_of_fuel {A}.

Definition andthen {A B : Type} (o : outcome A) (k : A -> outcome B) : outcome B :=
  match o with
  | returned a => k a
  | thrown msg => thrown msg
  | out_of_fuel => out_of_fuel
  end.

Notation "'run*' x ':=' c1 'in' c2" := (andthen c1 (fun x => c2))
  (at level 10, x pattern, c1 at level 100, c2 at level 200).

(** [class sstable_consumer], with the state of the consumer threaded
    through.  The five overloads of [consume] are one function of the
    fragment.  [on_new_sstable] gets the file name of the sstable, or
    nothing when merging. *)
Class sstable_consumer (S : Type) := {
  on_start_of_stream : S -> outcome S;
  on_new_sstable : option string -> S -> outcome (stop_iteration.t * S);
  consume : mutation_fragment_v2 -> S -> outcome (stop_iteration.t * S);
  on_end_of_sstable : S -> outcome (stop_iteration.t * S);
  on_end_of_stream : S -> outcome S
}.

(** [flat_mutation_reader_v2]: the fragments still to come.  A sstable is
    read from its file name and its fragments. *)
Definition flat_mutation_reader_v2 := list mutation_fragment_v2.

Section Driver.

Context {S : Type} `{sstable_consumer S}.

(** [partition_set]: the keys to keep; empty when there is no filter. *)
Definition partition_set := list decorated_key.

Definition decorated_key_equal (a b : decorated_key) : bool :=
  bool_decide (token a = token b) && bool_decide (key a = key b).

Definition partitions_find (partitions : partition_set) (k : decorated_key) : bool :=
  existsb (decorated_key_equal k) partitions.

(** [rd.consume_pausable(consumer_wrapper(consumer, filter))]: fragments
    are popped and handed over until the wrapper answers stop or the
    reader is at its end.  The filter is the lambda of [consume_reader];
    it sets [skip_partition] each time it is asked.  The result is the
    rest of the reader, the consumer and [skip_partition]. *)
Fixpoint consume_pausable (partitions : partition_set) (rd : flat_mutation_reader_v2)
    (consumer : S) (skip_partition : bool)
    : outcome (flat_mutation_reader_v2 * S * bool) :=
  match rd with
  | [] => returned ([], consumer, skip_partition)
  | mf :: rd' =>
      match mf, partitions with
      | mf_partition_start ps, _ :: _ =>
          let pass := partitions_find partitions (ps_key ps) in
          if negb pass then returned (rd', consumer, negb pass)
          else
            run* r := consume mf consumer in
            match fst r with
            | stop_iteration.yes => returned (rd', snd r, negb pass)
            | stop_iteration.no => consume_pausable partitions rd' (snd r) (negb pass)
            end
      | _, _ =>
          run* r := consume mf consumer in
          match fst r with
          | stop_iteration.yes => returned (rd', snd r, skip_partition)
          | stop_iteration.no => consume_pausable partitions rd' (snd r) skip_partition
          end
      end
  end.

(** [while ((mfopt = rd().get()) && !mfopt->is_end_of_partition());] *)
Fixpoint drain_partition (rd : flat_mutation_reader_v2) : flat_mutation_reader_v2 :=
  match rd with
  | [] => []
  | mf :: rd' => if is_end_of_partition mf then rd' else drain_partition rd'
  end.

(** [rd.next_partition()], the skip of the reader itself, is given. *)
Context (next_partition : flat_mutation_reader_v2 -> flat_mutation_reader_v2).

(** The [while (!rd.is_end_of_stream())] loop of [consume_reader]; each
    round of it takes one unit of [fuel]. *)
Fixpoint consume_reader_loop (fuel : nat) (rd : flat_mutation_reader_v2) (consumer : S)
    (partitions : partition_set) (no_skips : bool) : outcome S :=
  match rd with
  | [] => returned consumer
  | _ :: _ =>
      match fuel with
      | O => out_of_fuel
      | Datatypes.S fuel' =>
          let skip_partition := false in
          run* paused := consume_pausable partitions rd consumer skip_partition in
          let '(rd, consumer, skip_partition) := paused in
          let skip (rd : flat_mutation_reader_v2) : flat_mutation_reader_v2 :=
            if no_skips then drain_partition rd else next_partition rd in
          if negb (bool_decide (rd = [])) && negb skip_partition then
            match rd with
            | mf :: _ =>
                if negb (is_partition_start mf) then
                  (* "consumer returned stop_iteration::yes for partition end, stopping" *)
                  returned consumer
                else
                  run* r := consume mf_partition_end consumer in
                  match fst r with
                  | stop_iteration.yes =>
                      (* "... for synthetic partition end, stopping" *)
                      returned (snd r)
                  | stop_iteration.no =>
                      consume_reader_loop fuel' (skip rd) (snd r) partitions no_skips
                  end
            | [] => returned consumer
            end
          else if skip_partition then
            consume_reader_loop fuel' (skip rd) consumer partitions no_skips
          else
            consume_reader_loop fuel' rd consumer partitions no_skips
      end
  end.

Definition consume_reader (rd : flat_mutation_reader_v2) (consumer : S) (sst : option string)
    (partitions : partition_set) (no_skips : bool) : outcome (stop_iteration.t * S) :=
  run* r := on_new_sstable sst consumer in
  match fst r with
  | stop_iteration.yes => on_end_of_sstable (snd r)
  | stop_iteration.no =>
      run* consumer :=
        consume_reader_loop (Datatypes.S (length rd)) rd (snd r) partitions no_skips in
      on_end_of_sstable consumer
  end.

End Driver.

(** A loaded sstable, as far as the tool looks at it: its file name, the
    fragments its readers yield, whether it is compressed, and what its
    decompressing data stream yields: the buffers in order, then the
    error it ends with, if it ends with one. *)
Record sstable := mk_sstable {
  get_filename : string;
  fragments : list mutation_fragment_v2;
  get_compression : bool;
  data_stream : list string * option string
}.

Section Operation.

Context {S : Type} `{sstable_consumer S}.

(** [make_combined_reader] and [next_partition] are given. *)
Context (make_combined_reader : list flat_mutation_reader_v2 -> flat_mutation_reader_v2).
Context (next_partition : flat_mutation_reader_v2 -> flat_mutation_reader_v2).

(** The [for] loop of [consume_sstables], which stops at the first stop. *)
Fixpoint consume_each
    (reader_consumer : flat_mutation_reader_v2 -> option string -> S -> outcome (stop_iteration.t * S))
    (sstables : list sstable) (consumer : S) : outcome S :=
  match sstables with
  | [] => returned consumer
  | sst :: rest =>
      run* r := reader_consumer (fragments sst) (Some (get_filename sst)) consumer in
      match fst r with
      | stop_iteration.yes => returned (snd r)
      | stop_iteration.no => consume_each reader_consumer rest (snd r)
      end
  end.

Definition consume_sstables (sstables : list sstable) (merge : bool)
    (reader_consumer : flat_mutation_reader_v2 -> option string -> S -> outcome (stop_iteration.t * S))
    (consumer : S) : outcome S :=
  if merge then
    let rd := make_combined_reader (map fragments sstables) in
    run* r := reader_consumer rd None consumer in
    returned (snd r)
  else consume_each reader_consumer sstables consumer.

Definition sstable_consumer_operation (sstables : list sstable) (merge no_skips : bool)
    (partitions : partition_set) (consumer : S) : outcome S :=
  match sstables with
  | [] => thrown "error: no sstables specified on the command line"
  | _ :: _ =>
      run* consumer := on_start_of_stream consumer in
      run* consumer :=
        consume_sstables sstables merge
          (fun rd sst consumer => consume_reader next_partition rd consumer sst partitions no_skips)
          consumer in
      on_end_of_stream consumer
  end.

End Operation.

(** ** The dumper of [dump-data], JSON output: [dumping_consumer::json_dumper] *)
Module json_dumper.

(** What went to [std::cout] through [_writer], as the calls made on the
    writer, and [_clustering_array_created]. *)
Record t := mk {
  _writer : list json.event;
  _clustering_array_created : bool
}.

Definition put (events : list json.event) (d : t) : t :=
  mk (_writer d ++ events) (_clustering_array_created d).

Section WithExternals.

Context (X : externals).

Definition to_string (tp : time_point) : string := time_point_to_string X tp.

Definition write_ttl_expiry (ttl : duration) (expiry : time_point) : list json.event :=
  [json.Key "ttl"; json.String (duration_to_string X ttl);
   json.Key "expiry"; json.String (to_string expiry)].

Definition write_key (k : bytes) : list json.event :=
  [json.StartObject;
   json.Key "raw"; json.String (to_hex X k);
   json.Key "value"; json.String (key_to_string X k);
   json.EndObject].

(** [json_writer::PartitionKey], with the token given. *)
Definition PartitionKey (dk : decorated_key) : list json.event :=
  [json.StartObject;
   json.Key "token"; json.String (token_to_string X (token dk));
   json.Key "raw"; json.String (to_hex X (key dk));
   json.Key "value"; json.String (key_to_string X (key dk));
   json.EndObject].

Definition write_tombstone (t : tombstone) : list json.event :=
  [json.StartObject]
  ++ match t with
     | mk_tombstone ts dt =>
         [json.Key "timestamp"; json.Int64 ts;
          json.Key "deletion_time"; json.String (to_string dt)]
     | no_tombstone => []
     end
  ++ [json.EndObject].

Definition write_row_marker (m : row_marker) : list json.event :=
  [json.StartObject; json.Key "timestamp"; json.Int64 (marker_timestamp m)]
  ++ match m with
     | marker_expiring _ ttl expiry => write_ttl_expiry ttl expiry
     | _ => []
     end
  ++ [json.EndObject].

Definition write_counter_shards (shards : list counter_shard) : list json.event :=
  [json.StartArray]
  ++ flat_map (fun shard =>
       [json.StartObject;
        json.Key "id"; json.String (shard_id shard);
        json.Key "value"; json.Int64 (shard_value shard);
        json.Key "clock"; json.Int64 (shard_logical_clock shard);
        json.EndObject]) shards
  ++ [json.EndArray].

(** [write(const atomic_cell_view&, data_type)] for a type that is not a
    counter. *)
Definition write_atomic_cell (cell : atomic_cell) (ty : data_type) : list json.event :=
  [json.StartObject;
   json.Key "is_live"; json.Bool (atomic_cell_is_live cell);
   json.Key "timestamp"; json.Int64 (atomic_cell_timestamp cell)]
  ++ match cell with
     | live _ _ (Some (ttl, expiry)) => write_ttl_expiry ttl expiry
     | _ => []
     end
  ++ match cell with
     | live _ v _ => [json.Key "value"; json.String (type_to_string X ty v)]
     | dead _ dt => [json.Key "deletion_time"; json.String (to_string dt)]
     end
  ++ [json.EndObject].

(** The same function for a counter type. *)
Definition write_counter_update (ts : timestamp_type) (v : Z) : list json.event :=
  [json.StartObject;
   json.Key "is_live"; json.Bool true;
   json.Key "timestamp"; json.Int64 ts;
   json.Key "value"; json.Int64 v;
   json.EndObject].

Definition write_counter_cell (ts : timestamp_type) (shards : list counter_shard)
    : list json.event :=
  [json.StartObject;
   json.Key "is_live"; json.Bool true;
   json.Key "timestamp"; json.Int64 ts;
   json.Key "shards"]
  ++ write_counter_shards shards
  ++ [json.EndObject].

(** The loop over [mv.cells], from index [i] on. *)
Fixpoint write_collection_cells (ty : data_type) (i : nat) (cells : list (bytes * atomic_cell))
    : list json.event :=
  match cells with
  | [] => []
  | (k, v) :: cells' =>
      json.Key (element_key_to_string X ty i k)
      :: write_atomic_cell v (element_type X ty i)
      ++ write_collection_cells ty (Datatypes.S i) cells'
  end.

Definition write_collection (tomb : tombstone) (cells : list (bytes * atomic_cell))
    (ty : data_type) : list json.event :=
  [json.StartObject]
  ++ (if tombstone_bool tomb then json.Key "tombstone" :: write_tombstone tomb else [])
  ++ [json.Key "cells"]
  ++ (if collection_known X ty then
        [json.StartObject] ++ write_collection_cells ty 0 cells ++ [json.EndObject]
      else [json.String "<unknown>"])
  ++ [json.EndObject].

Definition write_cell (cell : atomic_cell_or_collection) (cdef : column_definition)
    : list json.event :=
  match cell with
  | regular_cell c => write_atomic_cell c (type cdef)
  | counter_update_cell ts v => write_counter_update ts v
  | counter_cell ts shards => write_counter_cell ts shards
  | collection_cell tomb cells => write_collection tomb cells (type cdef)
  | unknown_cell => [json.String "<unknown>"]
  end.

Definition write_row (r : row) (kind : column_kind) : list json.event :=
  [json.StartObject]
  ++ flat_map (fun ic =>
       let cdef := column_at X kind (fst ic) in
       json.Key (name_as_text cdef) :: write_cell (snd ic) cdef) r
  ++ [json.EndObject].

Definition write_clustering_row (cr : clustering_row) : list json.event :=
  [json.StartObject;
   json.Key "type"; json.String "clustering-row";
   json.Key "key"]
  ++ write_key (cr_key cr)
  ++ (if row_tombstone_bool X (cr_tomb cr) then
        json.Key "tombstone" :: write_tombstone (regular (cr_tomb cr))
        ++ json.Key "shadowable_tombstone" :: write_tombstone (shadowable (cr_tomb cr))
      else [])
  ++ (if negb (marker_is_missing (cr_marker cr)) then
        json.Key "marker" :: write_row_marker (cr_marker cr)
      else [])
  ++ [json.Key "columns"]
  ++ write_row (cr_cells cr) regular_column
  ++ [json.EndObject].

Definition write_range_tombstone_change (rtc : range_tombstone_change) : list json.event :=
  [json.StartObject;
   json.Key "type"; json.String "range-tombstone-change"]
  ++ match rtc_key rtc with
     | Some k => json.Key "key" :: write_key k
     | None => []
     end
  ++ [json.Key "weight"; json.Int (bound_weight_to_int (rtc_bound_weight rtc));
      json.Key "tombstone"]
  ++ write_tombstone (rtc_tombstone rtc)
  ++ [json.EndObject].

(** [json_writer::SstableKey] *)
Definition SstableKey (sst : option string) : list json.event :=
  match sst with
  | Some filename => [json.Key filename]
  | None => [json.Key "anonymous"]
  end.

Definition on_start_of_stream (d : t) : t :=
  put [json.StartObject; json.Key "sstables"; json.StartObject] d.

Definition on_new_sstable (sst : option string) (d : t) : stop_iteration.t * t :=
  (stop_iteration.no, put (SstableKey sst ++ [json.StartArray]) d).

Definition open_clustering_array (d : t) : t :=
  if negb (_clustering_array_created d) then
    mk (_writer d ++ [json.Key "clustering_elements"; json.StartArray]) true
  else d.

Definition consume (mf : mutation_fragment_v2) (d : t) : stop_iteration.t * t :=
  match mf with
  | mf_partition_start ps =>
      let d := mk (_writer d) false in
      let d := put ([json.StartObject; json.Key "key"] ++ PartitionKey (ps_key ps)) d in
      let d :=
        if tombstone_bool (partition_tombstone ps) then
          put (json.Key "tombstone" :: write_tombstone (partition_tombstone ps)) d
        else d in
      (stop_iteration.no, d)
  | mf_static_row cells =>
      (stop_iteration.no, put (json.Key "static_row" :: write_row cells static_column) d)
  | mf_clustering_row cr =>
      (stop_iteration.no, put (write_clustering_row cr) (open_clustering_array d))
  | mf_range_tombstone_change rtc =>
      (stop_iteration.no, put (write_range_tombstone_change rtc) (open_clustering_array d))
  | mf_partition_end =>
      let d := if _clustering_array_created d then put [json.EndArray] d else d in
      (stop_iteration.no, put [json.EndObject] d)
  end.

Definition on_end_of_sstable (d : t) : stop_iteration.t * t :=
  (stop_iteration.no, put [json.EndArray] d).

Definition on_end_of_stream (d : t) : t :=
  put [json.EndObject; json.EndObject] d.

End WithExternals.

(** The dumper before its first call.  The constructor leaves
    [_clustering_array_created] without a value: it is whatever [b] is. *)
Definition init (b : bool) : t := mk [] b.

End json_dumper.

(** The dumper is a consumer; none of its member functions throws. *)
Definition json_dumper_consumer (X : externals) : sstable_consumer json_dumper.t := {|
  on_start_of_stream d := returned (json_dumper.on_start_of_stream d);
  on_new_sstable sst d := returned (json_dumper.on_new_sstable sst d);
  consume mf d := returned (json_dumper.consume X mf d);
  on_end_of_sstable d := returned (json_dumper.on_end_of_sstable d);
  on_end_of_stream d := returned (json_dumper.on_end_of_stream d)
|}.

(** ** Files

    The file layer belongs to seastar.  A file system maps a path to the
    content of the file there.  [open_file_dma] follows open(2): without
    [create] the file must exist, with [create] and [exclusive] it must
    not, with [create] alone either will do.  A file output stream holds
    what was written to it; closing it leaves exactly that in the file. *)
Definition file_system := gmap string string.

Record open_flags := mk_open_flags {
  wo : bool;
  create : bool;
  exclusive : bool
}.

(** [open_flags::wo | open_flags::create] *)
Definition wo_create : open_flags := mk_open_flags true true false.

(** [open_flags::ro] *)
Definition ro : open_flags := mk_open_flags false false false.

Definition open_file_dma (name : string) (flags : open_flags) (fs : file_system)
    : outcome file_system :=
  match fs !! name with
  | Some _ =>
      if create flags && exclusive flags then thrown "File exists" else returned fs
  | None =>
      if create flags then returned (<[name := EmptyString]> fs) else thrown "No such file or directory"
  end.

(** An output stream on the file [name]: the pieces written, in order. *)
Definition close_output_stream (name : string) (written : list string) (fs : file_system)
    : file_system :=
  <[name := String.concat EmptyString written]> fs.

Definition file_exists (name : string) (fs : file_system) : bool :=
  bool_decide (is_Some (fs !! name)).

(** The characters that are awkward inside a literal. *)
Definition quote : string := String (ascii_of_nat 34) EmptyString.
Definition newline : string := String (ascii_of_nat 10) EmptyString.

(** [format] of an integer. *)
Definition format_integer (n : Z) : string := NilZero.string_of_int (Z.to_int n).

(** ** [writetime_histogram_collecting_consumer] *)
Module writetime_histogram_collecting_consumer.

Inductive bucket := years | months | weeks | days | hours.

(** The length of a bucket in microseconds: the periods of
    [std::chrono::years], [months], [weeks], [days] and [hours]. *)
Definition bucket_width (b : bucket) : Z :=
  match b with
  | years => 31556952000000
  | months => 2629746000000
  | weeks => 604800000000
  | days => 86400000000
  | hours => 3600000000
  end%Z.

(** [std::map<api::timestamp_type, uint64_t>]: the entries by ascending
    key, which is the order in which the map is iterated. *)
Definition histogram := list (timestamp_type * Z).

Fixpoint find (ts : timestamp_type) (m : histogram) : option Z :=
  match m with
  | [] => None
  | (k, v) :: m' => if (k =? ts)%Z then Some v else find ts m'
  end.

(** [emplace]: a new entry at its place; an entry that is there stays. *)
Fixpoint emplace (ts : timestamp_type) (v : Z) (m : histogram) : histogram :=
  match m with
  | [] => [(ts, v)]
  | (k, v') :: m' =>
      if (ts <? k)%Z then (ts, v) :: m
      else if (ts =? k)%Z then m
      else (k, v') :: emplace ts v m'
  end.

(** [++it->second] on a [uint64_t]. *)
Fixpoint increment (ts : timestamp_type) (m : histogram) : histogram :=
  match m with
  | [] => []
  | (k, v) :: m' =>
      if (k =? ts)%Z then (k, ((v + 1) mod 2 ^ 64)%Z) :: m'
      else (k, v) :: increment ts m'
  end.

(** The members of the consumer, and the files of the current working
    directory, where [on_end_of_stream] writes. *)
Record t := mk {
  _bucket : bucket;
  _histogram : histogram;
  _partitions : Z;
  _rows : Z;
  _cells : Z;
  _timestamps : Z;
  files : file_system
}.

Definition incr (n : Z) : Z := ((n + 1) mod 2 ^ 64)%Z.

(** A [duration_cast] to the bucket and back: the division truncates. *)
Definition timestamp_bucket (b : bucket) (ts : timestamp_type) : timestamp_type :=
  ((ts ÷ bucket_width b) * bucket_width b)%Z.

Definition collect_timestamp (ts : timestamp_type) (c : t) : t :=
  let ts := timestamp_bucket (_bucket c) ts in
  let m := _histogram c in
  let m := match find ts m with None => emplace ts 0%Z m | Some _ => m end in
  mk (_bucket c) (increment ts m) (_partitions c) (_rows c) (_cells c)
     (incr (_timestamps c)) (files c).

Definition count_cell (c : t) : t :=
  mk (_bucket c) (_histogram c) (_partitions c) (_rows c) (incr (_cells c))
     (_timestamps c) (files c).

Definition count_row (c : t) : t :=
  mk (_bucket c) (_histogram c) (_partitions c) (incr (_rows c)) (_cells c)
     (_timestamps c) (files c).

Definition count_partition (c : t) : t :=
  mk (_bucket c) (_histogram c) (incr (_partitions c)) (_rows c) (_cells c)
     (_timestamps c) (files c).

Definition tombstone_timestamp (t : tombstone) : timestamp_type :=
  match t with
  | no_tombstone => (- 2 ^ 63)%Z
  | mk_tombstone ts _ => ts
  end.

Definition collect_column (cell : atomic_cell_or_collection) (c : t) : outcome t :=
  match cell with
  | regular_cell a => returned (collect_timestamp (atomic_cell_timestamp a) (count_cell c))
  | counter_update_cell ts _ | counter_cell ts _ =>
      returned (collect_timestamp ts (count_cell c))
  | collection_cell tomb cells =>
      let c := if tombstone_bool tomb then collect_timestamp (tombstone_timestamp tomb) c else c in
      returned (fold_left (fun c kv => collect_timestamp (atomic_cell_timestamp (snd kv)) (count_cell c))
                  cells c)
  | unknown_cell => thrown "Cannot collect timestamp of cell (column {} of uknown type {})"
  end.

Fixpoint collect_cells (r : row) (c : t) : outcome t :=
  match r with
  | [] => returned c
  | (_, cell) :: r' =>
      run* c := collect_column cell c in
      collect_cells r' c
  end.

Definition collect_row (r : row) (c : t) : outcome t :=
  collect_cells r (count_row c).

Definition collect_static_row (cells : row) (c : t) : outcome t :=
  collect_row cells c.

Section WithExternals.

Context (X : externals).

Definition row_tombstone_is_empty (rt : row_tombstone) : bool :=
  negb (tombstone_bool (regular rt)) && negb (tombstone_bool (shadowable rt)).

Definition collect_clustering_row (cr : clustering_row) (c : t) : outcome t :=
  let c :=
    if negb (marker_is_missing (cr_marker cr)) then
      collect_timestamp (marker_timestamp (cr_marker cr)) c
    else c in
  let c :=
    if negb (row_tombstone_is_empty (cr_tomb cr)) then
      collect_timestamp (tombstone_timestamp (row_tombstone_tomb X (cr_tomb cr))) c
    else c in
  collect_row (cr_cells cr) c.

Definition consume (mf : mutation_fragment_v2) (c : t) : outcome (stop_iteration.t * t) :=
  match mf with
  | mf_partition_start ps =>
      let c := count_partition c in
      let c :=
        if tombstone_bool (partition_tombstone ps) then
          collect_timestamp (tombstone_timestamp (partition_tombstone ps)) c
        else c in
      returned (stop_iteration.no, c)
  | mf_static_row cells =>
      run* c := collect_static_row cells c in
      returned (stop_iteration.no, c)
  | mf_clustering_row cr =>
      run* c := collect_clustering_row cr c in
      returned (stop_iteration.no, c)
  | mf_range_tombstone_change rtc =>
      returned (stop_iteration.no, collect_timestamp (tombstone_timestamp (rtc_tombstone rtc)) c)
  | mf_partition_end => returned (stop_iteration.no, c)
  end.

End WithExternals.

(** The pieces [on_end_of_stream] writes for one of the two arrays: the
    first element, then each further one after a comma. *)
Definition write_array (elements : list Z) : list string :=
  match elements with
  | [] => []
  | first :: rest =>
      (newline +:+ "  " +:+ format_integer first)
      :: map (fun e => "," +:+ newline +:+ "  " +:+ format_integer e) rest
  end.

(** Everything [on_end_of_stream] writes to the stream, in order. *)
Definition document (m : histogram) : list string :=
  ["{"; newline +:+ quote +:+ "buckets" +:+ quote +:+ ": ["]
  ++ write_array (map fst m)
  ++ [newline +:+ "]"; "," +:+ newline +:+ quote +:+ "counts" +:+ quote +:+ ": ["]
  ++ write_array (map snd m)
  ++ [newline +:+ "]"; newline +:+ "}"].

Definition on_end_of_stream (c : t) : outcome t :=
  match _histogram c with
  | [] => returned c
  | _ :: _ =>
      let filename := "histogram.json" in
      run* fs := open_file_dma filename wo_create (files c) in
      let fs := close_output_stream filename (document (_histogram c)) fs in
      returned (mk (_bucket c) (_histogram c) (_partitions c) (_rows c) (_cells c)
                   (_timestamps c) fs)
  end.

(** The consumer as its constructor leaves it, with the bucket of the
    [bucket] option and the files that are there. *)
Definition init (b : bucket) (fs : file_system) : t :=
  mk b [] 0%Z 0%Z 0%Z 0%Z fs.

(** The [bucket] option; [months] when it is not given. *)
Definition bucket_of_option (o : option string) : outcome bucket :=
  match o with
  | None => returned months
  | Some value =>
      if (value =? "years")%string then returned years
      else if (value =? "months")%string then returned months
      else if (value =? "weeks")%string then returned weeks
      else if (value =? "days")%string then returned days
      else if (value =? "hours")%string then returned hours
      else thrown "error: invalid value for writetime-histogram option bucket: {}"
  end.

End writetime_histogram_collecting_consumer.

Definition writetime_histogram_consumer (X : externals)
    : sstable_consumer writetime_histogram_collecting_consumer.t := {|
  on_start_of_stream c := returned c;
  on_new_sstable sst c := returned (stop_iteration.no, c);
  consume mf c := writetime_histogram_collecting_consumer.consume X mf c;
  on_end_of_sstable c := returned (stop_iteration.no, c);
  on_end_of_stream c := writetime_histogram_collecting_consumer.on_end_of_stream c
|}.

(** ** [decompress_operation] *)

(** An operation works on the files: it ends by returning or by throwing,
    and leaves the files as they are then. *)
Definition operation_result := (outcome unit * file_system)%type.

(** The [for] loop over the sstables.  When the data stream throws, the
    deferred actions close both streams, which flushes what was written,
    and the exception leaves the loop. *)
Fixpoint decompress_each (sstables : list sstable) (fs : file_system) : operation_result :=
  match sstables with
  | [] => (returned tt, fs)
  | sst :: rest =>
      if negb (get_compression sst) then decompress_each rest fs
      else
        let output_filename := get_filename sst +:+ ".decompressed" in
        match open_file_dma output_filename wo_create fs with
        | returned fs =>
            let fs := close_output_stream output_filename (fst (data_stream sst)) fs in
            match snd (data_stream sst) with
            | Some msg => (thrown msg, fs)
            | None => decompress_each rest fs
            end
        | thrown msg => (thrown msg, fs)
        | out_of_fuel => (out_of_fuel, fs)
        end
  end.

Definition decompress_operation (sstables : list sstable) (fs : file_system) : operation_result :=
  match sstables with
  | [] => (thrown "error: no sstables specified on the command line", fs)
  | _ :: _ => decompress_each sstables fs
  end.

(** ** [write_operation] *)

Module mutation_fragment_stream_validation_level.
Inductive t := partition_region | token | partition_key | clustering_key.
End mutation_fragment_stream_validation_level.

(** The options [write_operation] reads from the variables map.
    [output-dir] and [validation-level] are declared with a default, so
    they are always there; [input-file] and [generation] are not. *)
Record write_options := mk_write_options {
  input_file : option string;
  output_dir : string;
  generation : option Z;
  validation_level : string
}.

Definition valid_validation_levels : list (string * mutation_fragment_stream_validation_level.t) :=
  [("partition_region", mutation_fragment_stream_validation_level.partition_region);
   ("token", mutation_fragment_stream_validation_level.token);
   ("partition_key", mutation_fragment_stream_validation_level.partition_key);
   ("clustering_key", mutation_fragment_stream_validation_level.clustering_key)].

(** [boost::find_if] over the table above. *)
Fixpoint find_validation_level (vl_name : string)
    (levels : list (string * mutation_fragment_stream_validation_level.t))
    : option mutation_fragment_stream_validation_level.t :=
  match levels with
  | [] => None
  | (name, level) :: levels' =>
      if (name =? vl_name)%string then Some level else find_validation_level vl_name levels'
  end.

Section WriteOperation.

Context (X : externals).

(** The name of the Data component of the sstable to write, from the
    output directory and the generation ([sstables::sstable::filename]). *)
Context (sstable_filename : string -> Z -> string).

(** The rapidjson reader: the events of a document. *)
Context (read_events : string -> list json.event).

(** [sstable::write_components]: it is handed what the parser pushed and
    the message the parser aborted the queue with, if it did. *)
Context (write_components :
  list (option mutation_fragment_v2) -> option string ->
  mutation_fragment_stream_validation_level.t -> string -> Z -> file_system -> operation_result).

Definition write_operation (sstables : list sstable) (vm : write_options) (fs : file_system)
    : operation_result :=
  match sstables with
  | _ :: _ => (thrown "error: write operation does not operate on input sstables", fs)
  | [] =>
      match input_file vm with
      | None => (thrown "error: missing required option '--input-file'", fs)
      | Some input_file =>
          match find_validation_level (validation_level vm) valid_validation_levels with
          | None => (thrown "error: invalid validation-level {}", fs)
          | Some validation_level =>
              match generation vm with
              | None => (thrown "error: missing required option '--generation'", fs)
              | Some generation =>
                  let sst_name := sstable_filename (output_dir vm) generation in
                  if file_exists sst_name fs then
                    (thrown "error: cannot create output sstable {}, file already exists", fs)
                  else
                    match open_file_dma input_file ro fs with
                    | returned fs =>
                        let parsed :=
                          handler.Parse X (read_events (default EmptyString (fs !! input_file)))
                            handler.init in
                        write_components (handler._queue (fst parsed)) (snd parsed)
                          validation_level (output_dir vm) generation fs
                    | thrown msg => (thrown msg, fs)
                    | out_of_fuel => (out_of_fuel, fs)
                    end
              end
          end
      end
  end.

End WriteOperation.

(** ** An instance of [externals]

    A small schema and plain codecs, to run the tool on examples: keys
    and values in lowercase hex and as text, dates in the form the dumper
    prints, and the merge rules of rows, markers and row tombstones in
    their simplest form. *)
Module sample.

Local Open Scope Z_scope.

Definition hex_digit (n : N) : ascii :=
  if (n <? 10)%N then ascii_of_N (48 + n) else ascii_of_N (87 + n).

Definition digit_of_hex (c : ascii) : option N :=
  let n := N_of_ascii c in
  if (48 <=? n)%N && (n <=? 57)%N then Some (n - 48)%N
  else if (97 <=? n)%N && (n <=? 102)%N then Some (n - 87)%N
  else if (65 <=? n)%N && (n <=? 70)%N then Some (n - 55)%N
  else None.

Fixpoint to_hex (b : bytes) : string :=
  match b with
  | EmptyString => EmptyString
  | String c b' =>
      let n := N_of_ascii c in
      String (hex_digit (n / 16)) (String (hex_digit (n mod 16)) (to_hex b'))
  end.

Fixpoint from_hex (s : string) : option bytes :=
  match s with
  | EmptyString => Some EmptyString
  | String hi (String lo s') =>
      match digit_of_hex hi, digit_of_hex lo, from_hex s' with
      | Some h, Some l, Some b => Some (String (ascii_of_N (16 * h + l)) b)
      | _, _, _ => None
      end
  | String _ EmptyString => None
  end.

(** The date of a day number and back, in the proleptic Gregorian
    calendar. *)
Definition civil_from_days (days : Z) : Z * Z * Z :=
  let z := days + 719468 in
  let era := z / 146097 in
  let doe := z - era * 146097 in
  let yoe := (doe - doe / 1460 + doe / 36524 - doe / 146096) / 365 in
  let doy := doe - (365 * yoe + yoe / 4 - yoe / 100) in
  let mp := (5 * doy + 2) / 153 in
  let d := doy - (153 * mp + 2) / 5 + 1 in
  let m := if mp <? 10 then mp + 3 else mp - 9 in
  let y := yoe + era * 400 + (if m <=? 2 then 1 else 0) in
  (y, m, d).

Definition days_from_civil (y m d : Z) : Z :=
  let y := if m <=? 2 then y - 1 else y in
  let era := y / 400 in
  let yoe := y - era * 400 in
  let doy := (153 * (if 2 <? m then m - 3 else m + 9) + 2) / 5 + d - 1 in
  let doe := yoe * 365 + yoe / 4 - yoe / 100 + doy in
  era * 146097 + doe - 719468.

Definition two_digits (n : Z) : string :=
  (if n <? 10 then "0" else EmptyString) +:+ format_integer n.

Definition four_digits (n : Z) : string :=
  (if n <? 10 then "000" else if n <? 100 then "00" else if n <? 1000 then "0" else EmptyString)
  +:+ format_integer n.

(** Year-month-day, a space, hours:minutes:seconds and a final z. *)
Definition time_point_to_string (tp : time_point) : string :=
  let '(y, m, d) := civil_from_days (tp / 86400) in
  let s := tp mod 86400 in
  four_digits y +:+ "-" +:+ two_digits m +:+ "-" +:+ two_digits d +:+ " "
  +:+ two_digits (s / 3600) +:+ ":" +:+ two_digits (s mod 3600 / 60) +:+ ":"
  +:+ two_digits (s mod 60) +:+ "z".

Definition number (s : string) : option Z :=
  match NilEmpty.uint_of_string s with
  | Some u => if bool_decide (s = EmptyString) then None else Some (Z.of_N (N.of_uint u))
  | None => None
  end.

(** The inverse of [time_point_to_string], in milliseconds; a bare number
    is taken as it is. *)
Definition timestamp_from_string (s : string) : option Z :=
  match number s with
  | Some ms => Some ms
  | None =>
      if bool_decide (String.length s = 20%nat)
         && bool_decide (substring 4 1 s = "-") && bool_decide (substring 7 1 s = "-")
         && bool_decide (substring 10 1 s = " ") && bool_decide (substring 13 1 s = ":")
         && bool_decide (substring 16 1 s = ":") && bool_decide (substring 19 1 s = "z")
      then
        match number (substring 0 4 s), number (substring 5 2 s), number (substring 8 2 s),
              number (substring 11 2 s), number (substring 14 2 s), number (substring 17 2 s) with
        | Some y, Some m, Some d, Some hh, Some mm, Some ss =>
            Some ((days_from_civil y m d * 86400 + hh * 3600 + mm * 60 + ss) * 1000)
        | _, _, _, _, _, _ => None
        end
      else None
  end.

Definition duration_to_string (d : duration) : string := format_integer d +:+ "s".

(** [std::stringstream(s) >> ttl] for a [uint64_t]: white space is
    skipped, a sign may come first, and the digits are read up to the
    first character that is not one, which stays unread with what follows
    it.  The read fails when there is no digit or when the number is too
    large for a [uint64_t]; after a minus sign the number is negated as a
    [uint64_t]. *)
Fixpoint skip_white_space (s : string) : string :=
  match s with
  | String c s' =>
      let n := nat_of_ascii c in
      if (Nat.eqb n 32 || (Nat.leb 9 n && Nat.leb n 13))%bool then skip_white_space s' else s
  | EmptyString => s
  end.

Fixpoint leading_digits (s : string) : string :=
  match s with
  | String c s' =>
      let n := nat_of_ascii c in
      if (Nat.leb 48 n && Nat.leb n 57)%bool then String c (leading_digits s') else EmptyString
  | EmptyString => EmptyString
  end.

Definition read_uint64 (s : string) : option Z :=
  let s := skip_white_space s in
  let signed :=
    match s with
    | String "-" s' => (true, s')
    | String "+" s' => (false, s')
    | _ => (false, s)
    end in
  match number (leading_digits (snd signed)) with
  | Some n =>
      if n <? 2 ^ 64 then Some (if fst signed then (2 ^ 64 - n) mod 2 ^ 64 else n) else None
  | None => None
  end.

(** One static column and three regular ones, the last of them a map. *)
Definition columns : list column_definition :=
  [mk_column_definition "s" 0%nat static_column true "text";
   mk_column_definition "v" 0%nat regular_column true "text";
   mk_column_definition "w" 1%nat regular_column true "text";
   mk_column_definition "m" 2%nat regular_column false "map<text, text>"].

Definition get_column_definition (name : string) : option column_definition :=
  List.find (fun cdef => (name_as_text cdef =? name)%string) columns.

Definition column_at (k : column_kind) (i : column_id) : column_definition :=
  default (mk_column_definition "?" i k true "text")
    (List.find (fun cdef => column_kind_eqb (kind cdef) k && Nat.eqb (id cdef) i) columns).

(** A cell replaces an older cell of the same column, and joins the row
    at the place of its column otherwise. *)
Definition newer (c : atomic_cell) (old : atomic_cell_or_collection) : bool :=
  match old with
  | regular_cell o => atomic_cell_timestamp o <? atomic_cell_timestamp c
  | _ => true
  end.

Fixpoint row_apply (r : row) (cdef : column_definition) (c : atomic_cell) : row :=
  match r with
  | [] => [(id cdef, regular_cell c)]
  | (i, old) :: r' =>
      if Nat.ltb (id cdef) i then (id cdef, regular_cell c) :: r
      else if Nat.eqb (id cdef) i then (if newer c old then (i, regular_cell c) :: r' else r)
      else (i, old) :: row_apply r' cdef c
  end.

(** The marker with the later timestamp stays; of two with the same
    timestamp, the expiring one. *)
Definition marker_apply (m rm : row_marker) : row_marker :=
  if marker_timestamp m <? marker_timestamp rm then rm
  else if marker_timestamp rm <? marker_timestamp m then m
  else match m, rm with
       | marker_live _, marker_expiring _ _ _ => rm
       | marker_missing, _ => rm
       | _, _ => m
       end.

Definition tombstone_less (a b : tombstone) : bool :=
  match a, b with
  | no_tombstone, mk_tombstone _ _ => true
  | mk_tombstone ts dt, mk_tombstone ts' dt' => (ts <? ts') || ((ts =? ts') && (dt <? dt'))
  | _, _ => false
  end.

(** A row tombstone is there when its shadowable part is, which is never
    below its regular part. *)
Definition row_tombstone_apply_shadowable (rt : row_tombstone) (t : tombstone) : row_tombstone :=
  mk_row_tombstone (regular rt) (if tombstone_less (shadowable rt) t then t else shadowable rt).

Definition X : externals :=
  mk_externals
    to_hex from_hex
    time_point_to_string timestamp_from_string
    duration_to_string read_uint64
    (fun _ v => v) (fun _ s => Some s)
    (fun _ => true) (fun _ _ k => k) (fun ty _ => ty)
    get_column_definition column_at
    (fun k => Z.of_nat (String.length k)) format_integer (fun k => k)
    row_apply marker_apply
    (fun rt => tombstone_bool (shadowable rt))
    (fun t => mk_row_tombstone t t)
    row_tombstone_apply_shadowable
    shadowable.

End sample.

(** ** Notions used in the statements *)

(** *** The nesting of the parser's states

    [nests s p]: state [s] is pushed only while [p] is on top. *)
Definition nests (s p : handler.state) : bool :=
  match s, p with
  | handler.before_partition, handler.start
  | handler.in_partition, handler.before_partition
  | handler.before_key, (handler.in_partition | handler.in_range_tombstone_change
                         | handler.in_clustering_row)
  | handler.in_key, handler.before_key
  | handler.before_tombstone, (handler.in_partition | handler.in_range_tombstone_change
                               | handler.in_clustering_row)
  | handler.in_tombstone, handler.before_tombstone
  | handler.before_static_columns, handler.in_partition
  | handler.before_clustering_elements, handler.in_partition
  | handler.before_clustering_element, handler.before_clustering_elements
  | handler.in_clustering_element, handler.before_clustering_element
  | handler.in_range_tombstone_change, handler.in_clustering_element
  | handler.in_clustering_row, handler.in_clustering_element
  | handler.before_marker, handler.in_clustering_row
  | handler.in_marker, handler.before_marker
  | handler.before_clustering_columns, handler.in_clustering_row
  | handler.before_column_key, (handler.before_static_columns | handler.before_clustering_columns)
  | handler.before_column, handler.before_column_key
  | handler.in_column, handler.before_column
  | handler.before_ignored_value, handler.in_key
  | handler.before_integer, (handler.in_tombstone | handler.in_marker
                             | handler.in_range_tombstone_change | handler.in_column)
  | handler.before_string, (handler.in_key | handler.in_tombstone | handler.in_marker
                            | handler.in_clustering_element | handler.in_column)
  | handler.before_bool, handler.in_column => true
  | _, _ => false
  end.

(** A stack, front first, is well nested when [start] is at its bottom
    and each state nests in the one beneath it. *)
Fixpoint well_nested (stack : list handler.state) : bool :=
  match stack with
  | [] => false
  | [s] => handler.state_eqb s handler.start
  | s :: (p :: _) as rest => nests s p && well_nested rest
  end.

(** The deepest place a state can take in a well nested stack. *)
Definition deepest (s : handler.state) : nat :=
  match s with
  | handler.start => 1
  | handler.before_partition => 2
  | handler.in_partition => 3
  | handler.before_static_columns | handler.before_clustering_elements => 4
  | handler.before_clustering_element => 5
  | handler.in_clustering_element => 6
  | handler.in_range_tombstone_change | handler.in_clustering_row => 7
  | handler.before_key | handler.before_tombstone | handler.before_marker
  | handler.before_clustering_columns => 8
  | handler.in_key | handler.in_tombstone | handler.in_marker | handler.before_column_key => 9
  | handler.before_column | handler.before_ignored_value => 10
  | handler.in_column => 11
  | handler.before_integer | handler.before_string | handler.before_bool => 12
  end.

(** *** The keys of a JSON object

    The keys of the object that [events] opens, those one level below the
    [depth] the events start at, in order. *)
Fixpoint object_keys (depth : nat) (events : list json.event) : list string :=
  match events with
  | [] => []
  | e :: events' =>
      match e with
      | json.StartObject | json.StartArray => object_keys (Datatypes.S depth) events'
      | json.EndObject | json.EndArray => object_keys (Nat.pred depth) events'
      | json.Key k =>
          if Nat.eqb depth 1 then k :: object_keys depth events' else object_keys depth events'
      | _ => object_keys depth events'
      end
  end.

(** *** A consumer that answers by a fixed rule and keeps a record of the
    calls made on it *)
Inductive call :=
  | called_on_new_sstable
  | called_consume (mf : mutation_fragment_v2)
  | called_on_end_of_sstable.

Definition recording_consumer (answer : mutation_fragment_v2 -> stop_iteration.t)
    : sstable_consumer (list call) := {|
  on_start_of_stream calls := returned calls;
  on_new_sstable sst calls := returned (stop_iteration.no, calls ++ [called_on_new_sstable]);
  consume mf calls := returned (answer mf, calls ++ [called_consume mf]);
  on_end_of_sstable calls := returned (stop_iteration.no, calls ++ [called_on_end_of_sstable]);
  on_end_of_stream calls := returned calls
|}.

(** *** What [dump-data] prints for one sstable and what [write] reads

    The array of partitions the dumper prints for a sstable is what comes
    after the key that names the sstable.  [write] is fed that array; the
    reader reports the integers in it as [json.reread] says. *)
Definition dump_sstable (X : externals) (rd : flat_mutation_reader_v2) : list json.event :=
  match @consume_reader _ (json_dumper_consumer X) (fun rd => rd) rd (json_dumper.init false)
          None [] false with
  | returned (_, d) => tl (json_dumper._writer d)
  | _ => []
  end.

(** The fragments [write] gets from the parser for a document: what was
    pushed up to the end-of-stream marker, and the message of the abort. *)
Definition parsed (X : externals) (events : list json.event)
    : list (option mutation_fragment_v2) * option string :=
  let r := handler.Parse X events handler.init in
  (handler._queue (fst r), snd r).

(** *** The timestamps the histogram consumer collects for a fragment *)
Definition cell_timestamps (cell : atomic_cell_or_collection) : list timestamp_type :=
  match cell with
  | regular_cell a => [atomic_cell_timestamp a]
  | counter_update_cell ts _ | counter_cell ts _ => [ts]
  | collection_cell tomb cells =>
      (if tombstone_bool tomb
       then [writetime_histogram_collecting_consumer.tombstone_timestamp tomb] else [])
      ++ map (fun kv => atomic_cell_timestamp (snd kv)) cells
  | unknown_cell => []
  end.

Definition row_timestamps (r : row) : list timestamp_type :=
  flat_map (fun ic => cell_timestamps (snd ic)) r.

Definition fragment_timestamps (X : externals) (mf : mutation_fragment_v2)
    : list timestamp_type :=
  match mf with
  | mf_partition_start ps =>
      if tombstone_bool (partition_tombstone ps)
      then [writetime_histogram_collecting_consumer.tombstone_timestamp (partition_tombstone ps)]
      else []
  | mf_static_row cells => row_timestamps cells
  | mf_clustering_row cr =>
      (if negb (marker_is_missing (cr_marker cr)) then [marker_timestamp (cr_marker cr)] else [])
      ++ (if negb (writetime_histogram_collecting_consumer.row_tombstone_is_empty (cr_tomb cr))
          then [writetime_histogram_collecting_consumer.tombstone_timestamp
                  (row_tombstone_tomb X (cr_tomb cr))]
          else [])
      ++ row_timestamps (cr_cells cr)
  | mf_range_tombstone_change rtc =>
      [writetime_histogram_collecting_consumer.tombstone_timestamp (rtc_tombstone rtc)]
  | mf_partition_end => []
  end.

(** The fragments of a run, handed to the histogram consumer in order. *)
Fixpoint consume_fragments (X : externals) (frags : list mutation_fragment_v2)
    (c : writetime_histogram_collecting_consumer.t)
    : outcome writetime_histogram_collecting_consumer.t :=
  match frags with
  | [] => returned c
  | mf :: frags' =>
      run* r := writetime_histogram_collecting_consumer.consume X mf c in
      consume_fragments X frags' (snd r)
  end.

(** How many of [tss] fall in the bucket that starts at [b]. *)
Definition falling_in (bk : writetime_histogram_collecting_consumer.bucket) (b : timestamp_type)
    (tss : list timestamp_type) : nat :=
  length (filter (fun ts => writetime_histogram_collecting_consumer.timestamp_bucket bk ts = b) tss).

(** *** The document of the histogram, after the spec

    "A document [{buckets: [int64 ...], counts: [uint64 ...]}] with
    paired arrays": the text of the object that has the array [buckets]
    and then the array [counts], a member to a line and an element to a
    line, the elements of an array with a comma between them.  It is
    written down apart from [on_end_of_stream], to compare what that
    leaves in the file with. *)
Definition histogram_json_array (elements : list Z) : string :=
  String.concat "," (map (fun e => newline +:+ "  " +:+ format_integer e) elements).

Definition histogram_json (buckets counts : list Z) : string :=
  "{" +:+ newline
  +:+ quote +:+ "buckets" +:+ quote +:+ ": [" +:+ histogram_json_array buckets +:+ newline
  +:+ "]," +:+ newline
  +:+ quote +:+ "counts" +:+ quote +:+ ": [" +:+ histogram_json_array counts +:+ newline
  +:+ "]" +:+ newline +:+ "}".

(** *** Notions about the stack of the parser *)

(** The result has the stack [st], whether the call went through or
    failed. *)
Definition has_stack {A : Type} (proj : A -> handler.t) (st : list handler.state)
    (r : handler.result A) : Prop :=
  match r with
  | handler.Ok a => handler._state_stack (proj a) = st
  | handler.Failed _ h => handler._state_stack h = st
  end.

(** The stack of the result is well nested. *)
Definition stack_ok (r : handler.result handler.t) : Prop :=
  match r with
  | handler.Ok h | handler.Failed _ h => well_nested (handler._state_stack h) = true
  end.

(** How many states retiring [s] pops, when [s] can be retired. *)
Definition pops (s : handler.state) : option nat :=
  match s with
  | handler.before_partition | handler.in_partition | handler.before_ignored_value
  | handler.before_bool | handler.before_integer | handler.before_string => Some 1
  | handler.in_key | handler.in_tombstone | handler.in_marker | handler.in_column
  | handler.before_column_key | handler.before_clustering_element
  | handler.in_range_tombstone_change | handler.in_clustering_row => Some 2
  | _ => None
  end.

(** *** Documents and streams of the examples *)

(** The key object the dumper prints for the partition key [ab]. *)
Definition key_ab : list json.event :=
  [json.Key "key"; json.StartObject;
   json.Key "token"; json.String "2";
   json.Key "raw"; json.String "6162";
   json.Key "value"; json.String "ab";
   json.EndObject].

(** One partition that has a key and nothing else. *)
Definition key_only_document : list json.event :=
  [json.StartArray; json.StartObject] ++ key_ab ++ [json.EndObject; json.EndArray].

Definition key_only_stream : list mutation_fragment_v2 :=
  [mf_partition_start (mk_partition_start (mk_decorated_key 2 "ab") no_tombstone);
   mf_partition_end].

(** The start of a document, up to the key [is_live] of a cell of a
    clustering row. *)
Definition deep_document : list json.event :=
  [json.StartArray; json.StartObject] ++ key_ab
  ++ [json.Key "clustering_elements"; json.StartArray; json.StartObject;
      json.Key "type"; json.String "clustering-row";
      json.Key "columns"; json.StartObject;
      json.Key "v"; json.StartObject;
      json.Key "is_live"].

(** One partition with one range tombstone change, whose weight is the
    largest [uint64_t]. *)
Definition wrapped_weight_document : list json.event :=
  [json.StartArray; json.StartObject] ++ key_ab
  ++ [json.Key "clustering_elements"; json.StartArray; json.StartObject;
      json.Key "type"; json.String "range-tombstone-change";
      json.Key "weight"; json.Uint64 18446744073709551615;
      json.Key "tombstone"; json.StartObject; json.EndObject;
      json.EndObject; json.EndArray; json.EndObject; json.EndArray].

(** One partition with one clustering row of two cells: a dead cell that
    carries a ttl and an expiry, then a live cell that carries a ttl and
    no expiry. *)
Definition lone_ttl_document : list json.event :=
  [json.StartArray; json.StartObject] ++ key_ab
  ++ [json.Key "clustering_elements"; json.StartArray; json.StartObject;
      json.Key "type"; json.String "clustering-row";
      json.Key "key"; json.StartObject; json.Key "raw"; json.String "636b"; json.EndObject;
      json.Key "columns"; json.StartObject;
      json.Key "v"; json.StartObject;
      json.Key "is_live"; json.Bool false;
      json.Key "timestamp"; json.Uint 1;
      json.Key "deletion_time"; json.String "2020-01-01 00:00:00z";
      json.Key "ttl"; json.String "60s";
      json.Key "expiry"; json.String "2020-01-01 00:01:00z";
      json.EndObject;
      json.Key "w"; json.StartObject;
      json.Key "is_live"; json.Bool true;
      json.Key "timestamp"; json.Uint 2;
      json.Key "value"; json.String "x";
      json.Key "ttl"; json.String "5s";
      json.EndObject;
      json.EndObject; json.EndObject; json.EndArray; json.EndObject; json.EndArray].

(** A sstable of two partitions; the first has two rows. *)
Definition two_partitions : flat_mutation_reader_v2 :=
  [mf_partition_start (mk_partition_start (mk_decorated_key 1 "a") no_tombstone);
   mf_clustering_row (mk_clustering_row "c1" empty_row_tombstone marker_missing []);
   mf_clustering_row (mk_clustering_row "c2" empty_row_tombstone marker_missing []);
   mf_partition_end;
   mf_partition_start (mk_partition_start (mk_decorated_key 2 "ab") no_tombstone);
   mf_partition_end].

(** A consumer's rule: stop at the clustering row [c1], go on otherwise. *)
Definition stop_at_c1 (mf : mutation_fragment_v2) : stop_iteration.t :=
  match mf with
  | mf_clustering_row cr =>
      if (cr_key cr =? "c1")%string then stop_iteration.yes else stop_iteration.no
  | _ => stop_iteration.no
  end.

(** Another: stop at each end of a partition. *)
Definition stop_at_partition_end (mf : mutation_fragment_v2) : stop_iteration.t :=
  match mf with
  | mf_partition_end => stop_iteration.yes
  | _ => stop_iteration.no
  end.

(** *** Notions about the events the dumper prints *)

(** [v] is a whole JSON value: read at any depth inside an object, it adds
    no key of that object. *)
Definition is_value (v : list json.event) : Prop :=
  forall d rest, object_keys (Datatypes.S d) (v ++ rest) = object_keys (Datatypes.S d) rest.

(** [m] holds members of an object or elements of an array that is itself
    inside the object looked at. *)
Definition is_members (m : list json.event) : Prop :=
  forall d rest,
    object_keys (Datatypes.S (Datatypes.S d)) (m ++ rest)
    = object_keys (Datatypes.S (Datatypes.S d)) rest.

(** *** Notions about the histogram *)

(** The histogram after one more timestamp of the bucket [b]. *)
Definition counted (b : timestamp_type) (m : writetime_histogram_collecting_consumer.histogram)
    : writetime_histogram_collecting_consumer.histogram :=
  writetime_histogram_collecting_consumer.increment b
    (match writetime_histogram_collecting_consumer.find b m with
     | None => writetime_histogram_collecting_consumer.emplace b 0%Z m
     | Some _ => m
     end).

(** The histogram after the timestamps [tss], in order. *)
Definition collected (bk : writetime_histogram_collecting_consumer.bucket)
    (tss : list timestamp_type) (m : writetime_histogram_collecting_consumer.histogram)
    : writetime_histogram_collecting_consumer.histogram :=
  fold_left
    (fun m ts => counted (writetime_histogram_collecting_consumer.timestamp_bucket bk ts) m)
    tss m.

(** The buckets come in strictly ascending order. *)
Definition ascending (m : writetime_histogram_collecting_consumer.histogram) : Prop :=
  StronglySorted Z.lt (map fst m).

(** [c'] is [c] after collecting the timestamps [tss]: the same bucket
    size and files, and the histogram grown by [tss]. *)
Definition collects (tss : list timestamp_type)
    (c c' : writetime_histogram_collecting_consumer.t) : Prop :=
  writetime_histogram_collecting_consumer._bucket c'
  = writetime_histogram_collecting_consumer._bucket c
  /\ writetime_histogram_collecting_consumer.files c'
     = writetime_histogram_collecting_consumer.files c
  /\ writetime_histogram_collecting_consumer._histogram c'
     = collected (writetime_histogram_collecting_consumer._bucket c) tss
         (writetime_histogram_collecting_consumer._histogram c).

(** A sstable whose only partition has a tombstone at timestamp 42 and a
    live cell at timestamp 7000000000000. *)
Definition two_timestamps : list mutation_fragment_v2 :=
  [mf_partition_start (mk_partition_start (mk_decorated_key 2 "ab") (mk_tombstone 42%Z 1577836800%Z));
   mf_clustering_row
     (mk_clustering_row "ck" empty_row_tombstone marker_missing
        [(0%nat, regular_cell (live 7000000000000%Z "x" None))]);
   mf_partition_end].

(** A compressed sstable whose data stream yields two buffers, and one
    whose stream yields a buffer and then fails. *)
Definition compressed_sstable : sstable :=
  mk_sstable "md-1-big-Data.db" [] true (["abc"; "def"], None).

Definition corrupt_sstable : sstable :=
  mk_sstable "md-2-big-Data.db" [] true (["abc"], Some "checksum mismatch").

Definition plain_sstable : sstable :=
  mk_sstable "md-3-big-Data.db" [] false ([], None).

(** The histogram consumer after [two_timestamps], with months as
    buckets: one timestamp in the bucket at 0, one in the third bucket. *)
Definition after_two_timestamps : writetime_histogram_collecting_consumer.t :=
  writetime_histogram_collecting_consumer.mk writetime_histogram_collecting_consumer.months
    [(0%Z, 1%Z); (5259492000000%Z, 1%Z)] 1%Z 1%Z 1%Z 2%Z ∅.

(** The consumer after a stream that holds no timestamp. *)
Definition after_no_timestamp : writetime_histogram_collecting_consumer.t :=
  writetime_histogram_collecting_consumer.mk writetime_histogram_collecting_consumer.months
    [] 1%Z 0%Z 0%Z 0%Z ∅.

(** A file system in which the output of decompressing
    [compressed_sstable] is there already. *)
Definition output_there : file_system :=
  {[ "md-1-big-Data.db.decompressed" := "old content" ]}.

(** For the examples of [write_operation]: the name of the Data component,
    a reader that finds no event and a writer that writes nothing. *)
Definition sample_sstable_filename (dir : string) (generation : Z) : string :=
  dir +:+ "/me-" +:+ format_integer generation +:+ "-big-Data.db".

Definition no_events (content : string) : list json.event := [].

Definition writes_nothing (pushed : list (option mutation_fragment_v2)) (abort : option string)
    (level : mutation_fragment_stream_validation_level.t) (dir : string) (generation : Z)
    (fs : file_system) : operation_result :=
  (returned tt, fs).

(** Options of [write] that lack the input file. *)
Definition no_input_file : write_options :=
  mk_write_options None "." (Some 1%Z) "clustering_key".

(** *** Partitions, and when the parser can read back what the dumper prints *)

(** A clustering element is a row or a range tombstone change. *)
Inductive clustering_element :=
  | element_row (cr : clustering_row)
  | element_range_tombstone_change (rtc : range_tombstone_change).

Definition element_fragment (e : clustering_element) : mutation_fragment_v2 :=
  match e with
  | element_row cr => mf_clustering_row cr
  | element_range_tombstone_change rtc => mf_range_tombstone_change rtc
  end.

(** A partition as the grammar of the stream has it: the start, the
    static row if there is one, the clustering elements. *)
Record partition := mk_partition {
  p_start : partition_start;
  p_static_row : option row;
  p_elements : list clustering_element
}.

Definition partition_fragments (p : partition) : list mutation_fragment_v2 :=
  [mf_partition_start (p_start p)]
  ++ match p_static_row p with Some r => [mf_static_row r] | None => [] end
  ++ map element_fragment (p_elements p)
  ++ [mf_partition_end].

(** What the dumper prints for a clustering element and for a partition. *)
Definition element_events (X : externals) (e : clustering_element) : list json.event :=
  match e with
  | element_row cr => json_dumper.write_clustering_row X cr
  | element_range_tombstone_change rtc => json_dumper.write_range_tombstone_change X rtc
  end.

Definition partition_events (X : externals) (p : partition) : list json.event :=
  [json.StartObject; json.Key "key"]
  ++ json_dumper.PartitionKey X (ps_key (p_start p))
  ++ (if tombstone_bool (partition_tombstone (p_start p))
      then json.Key "tombstone" :: json_dumper.write_tombstone X (partition_tombstone (p_start p))
      else [])
  ++ match p_static_row p with
     | Some r => json.Key "static_row" :: json_dumper.write_row X r static_column
     | None => []
     end
  ++ match p_elements p with
     | [] => []
     | _ :: _ =>
         [json.Key "clustering_elements"; json.StartArray]
         ++ flat_map (element_events X) (p_elements p)
         ++ [json.EndArray]
     end
  ++ [json.EndObject].











(** What the dumper has printed after [consume(mf)]. *)
Definition dumps (X : externals) (mf : mutation_fragment_v2) (d : json_dumper.t)
    : json_dumper.t :=
  snd (json_dumper.consume X mf d).

(** The parser reads [events] from [h] and gets to [h'] with no error. *)
Definition reads (X : externals) (events : list json.event) (h h' : handler.t) : Prop :=
  handler.Parse X events h = (h', None).


(** Where the [partition_start] of the partition of key [raw] and
    tombstone [t] is after the key and the tombstone member, if there is
    one, were read from a handler of queue [q]: pushed, or pending with the
    key, when there was no tombstone member.  [q'], [pe] and [pk] are the
    queue, [_partition_start_emited] and [_pkey] then. *)
Definition pending (X : externals) (q : list (option mutation_fragment_v2)) (raw : bytes)
    (t : tombstone) (q' : list (option mutation_fragment_v2)) (pe : bool) (pk : option bytes)
    : Prop :=
  (q' = q ++ [Some (mf_partition_start
                      (mk_partition_start (mk_decorated_key (token_of X raw) raw) t))]
   /\ pe = true /\ pk = None)
  \/ (q' = q /\ pe = false /\ pk = Some raw /\ t = no_tombstone).

(** Two partitions of the sample schema.  The first has a tombstone, a
    static row, a clustering row with its tombstone, an expiring marker, an
    expiring cell and a dead cell, and a range tombstone change; the
    second has a row with nothing but its key. *)
Definition whole_partitions : list partition :=
  [mk_partition
     (mk_partition_start (mk_decorated_key 2%Z "ab") (mk_tombstone 7%Z 1577836800%Z))
     (Some [(0%nat, regular_cell (live (-3)%Z "s1" None))])
     [element_row
        (mk_clustering_row "c1"
           (mk_row_tombstone (mk_tombstone 5%Z 1577836800%Z)
              (mk_tombstone 6%Z 1577836801%Z))
           (marker_expiring 4%Z 60%Z 1577836860%Z)
           [(0%nat, regular_cell (live 1%Z "x" (Some (60%Z, 1577836860%Z))));
            (1%nat, regular_cell (dead 4294967296%Z 1577836800%Z))]);
      element_range_tombstone_change
        (mk_range_tombstone_change (Some "c2") after_all_prefixed
           (mk_tombstone 8%Z 1577836800%Z))];
   mk_partition
     (mk_partition_start (mk_decorated_key 1%Z "a") no_tombstone)
     None
     [element_row (mk_clustering_row "c1" empty_row_tombstone marker_missing [])]].

(** ** [get_partitions] *)

(** [std::isspace] in the C locale: the space and the characters from
    the tab to the carriage return. *)
Definition isspace (c : ascii) : bool :=
  let n := nat_of_ascii c in
  Nat.eqb n 32 || (Nat.leb 9 n && Nat.leb n 13).

(** [std::find_if(buf.begin(), buf.end(), isspace) - buf.begin()] *)
Fixpoint find_space (buf : string) : nat :=
  match buf with
  | EmptyString => 0
  | String c buf' => if isspace c then 0 else Datatypes.S (find_space buf')
  end.

(** [buf.trim_front(n)] and [buf.share(0, n)] *)
Fixpoint trim_front (n : nat) (buf : string) : string :=
  match n, buf with
  | Datatypes.S n', String _ buf' => trim_front n' buf'
  | _, _ => buf
  end.

Definition share (n : nat) (buf : string) : string := substring 0 n buf.

(** [operator bool] of a [temporary_buffer]: it holds something. *)
Definition holds (buf : string) : bool :=
  match buf with EmptyString => false | String _ _ => true end.

Section GetPartitions.

(** The lambda [dk_from_hex]: the key of a hex string, decorated with its
    token; [from_hex] throws on a string that is not hex. *)
Context (dk_from_hex : string -> outcome decorated_key).

(** The buffers in which the input stream yields the content of a file. *)
Context (read_buffers : string -> list string).

(** [partitions.emplace]: a key that is in the set already is not added.
    The set is kept in the order of arrival, which the tool never looks
    at. *)
Definition emplace_key (hex : string) (partitions : partition_set) : outcome partition_set :=
  run* dk := dk_from_hex hex in
  returned (if partitions_find partitions dk then partitions else partitions ++ [dk]).

(** The [for] loop over the values of [--partition]. *)
Fixpoint emplace_each (keys : list string) (partitions : partition_set)
    : outcome partition_set :=
  match keys with
  | [] => returned partitions
  | pk_hex :: keys' =>
      run* partitions := emplace_key pk_hex partitions in
      emplace_each keys' partitions
  end.

(** The [do ... while (buf)] loop over one buffer, which is not empty when
    the loop is entered; each round takes one unit of [fuel].  The result
    is [pk_buf] and the set. *)
Fixpoint scan_buffer (fuel : nat) (buf pk_buf : string) (partitions : partition_set)
    : outcome (string * partition_set) :=
  match fuel with
  | O => out_of_fuel
  | Datatypes.S fuel' =>
      let len := find_space buf in
      if Nat.eqb len 0 && negb (holds pk_buf) then
        (* discard extra leading whitespace *)
        let buf := trim_front 1 buf in
        if holds buf then scan_buffer fuel' buf pk_buf partitions
        else returned (pk_buf, partitions)
      else
        let pk_buf := if holds pk_buf then pk_buf +:+ share len buf else share len buf in
        let at_end := Nat.eqb len (String.length buf) in
        let buf := trim_front len buf in
        if negb at_end then
          run* partitions := emplace_key pk_buf partitions in
          let pk_buf := EmptyString in
          (* remove the newline *)
          let buf := trim_front 1 buf in
          if holds buf then scan_buffer fuel' buf pk_buf partitions
          else returned (pk_buf, partitions)
        else
          if holds buf then scan_buffer fuel' buf pk_buf partitions
          else returned (pk_buf, partitions)
  end.

(** [while (auto buf = fstream.read().get())]: an empty buffer is the end
    of the stream. *)
Fixpoint scan_buffers (buffers : list string) (pk_buf : string) (partitions : partition_set)
    : outcome (string * partition_set) :=
  match buffers with
  | [] => returned (pk_buf, partitions)
  | buf :: buffers' =>
      if holds buf then
        run* r := scan_buffer (Datatypes.S (String.length buf)) buf pk_buf partitions in
        scan_buffers buffers' (fst r) (snd r)
      else returned (pk_buf, partitions)
  end.

(** [get_partitions], from the values of [--partition], the value of
    [--partitions-file] if it is given, and the files. *)
Definition get_partitions (partition : list string) (partitions_file : option string)
    (fs : file_system) : outcome partition_set :=
  run* partitions := emplace_each partition [] in
  match partitions_file with
  | None => returned partitions
  | Some name =>
      run* fs := open_file_dma name ro fs in
      run* r := scan_buffers (read_buffers (default EmptyString (fs !! name))) EmptyString
                  partitions in
      (* last line might not have EOL *)
      if holds (fst r) then emplace_key (fst r) (snd r) else returned (snd r)
  end.

End GetPartitions.

(** ** [json_writer] and the dumps of the other components *)
Module json_writer.

Section WithExternals.

Context (X : externals).

(** [PartitionKey], with or without the token. *)
Definition PartitionKey (pkey : bytes) (token : option Z) : list json.event :=
  [json.StartObject]
  ++ match token with
     | Some t => [json.Key "token"; json.String (token_to_string X t)]
     | None => []
     end
  ++ [json.Key "raw"; json.String (to_hex X pkey);
      json.Key "value"; json.String (key_to_string X pkey);
      json.EndObject].

End WithExternals.

Definition StartStream : list json.event :=
  [json.StartObject; json.Key "sstables"; json.StartObject].

Definition EndStream : list json.event := [json.EndObject; json.EndObject].

(** [SstableKey(const sstables::sstable&)] *)
Definition SstableKey (filename : string) : list json.event := [json.Key filename].

End json_writer.

(** An entry of the index: the key of a partition and its position in the
    data file. *)
Record index_entry := mk_index_entry {
  ie_key : bytes;
  ie_position : Z
}.

(** [sstables::compression] *)
Record compression := mk_compression {
  compression_name : string;
  compression_options : list (string * string);
  chunk_len : Z;
  data_len : Z;
  compression_offsets : list Z
}.

(** [sstables::summary] *)
Record summary_entry := mk_summary_entry {
  se_key : bytes;
  se_token : Z;
  se_position : Z
}.

Record summary := mk_summary {
  min_index_interval : Z;
  summary_size : Z;
  memory_size : Z;
  sampling_level : Z;
  size_at_full_sampling : Z;
  positions : list Z;
  entries : list summary_entry;
  first_key : bytes;
  last_key : bytes
}.

(** The Scylla metadata component: a tagged union per entry. *)
Inductive scylla_metadata_type :=
  | Sharding | Features | ExtensionAttributes | RunIdentifier | LargeDataStats
  | SSTableOrigin | ScyllaVersion | ScyllaBuildId.

Definition scylla_metadata_type_to_string (t : scylla_metadata_type) : string :=
  match t with
  | Sharding => "sharding"
  | Features => "features"
  | ExtensionAttributes => "extension_attributes"
  | RunIdentifier => "run_identifier"
  | LargeDataStats => "large_data_stats"
  | SSTableOrigin => "sstable_origin"
  | ScyllaVersion => "scylla_version"
  | ScyllaBuildId => "scylla_build_id"
  end.

Inductive large_data_type :=
  | partition_size | row_size | cell_size | rows_in_partition | elements_in_collection.

Definition large_data_type_to_string (t : large_data_type) : string :=
  match t with
  | partition_size => "partition_size"
  | row_size => "row_size"
  | cell_size => "cell_size"
  | rows_in_partition => "rows_in_partition"
  | elements_in_collection => "elements_in_collection"
  end.

Record token_bound := mk_token_bound {
  bound_exclusive : bool;
  bound_token : string
}.

Record large_data_stats_entry := mk_large_data_stats_entry {
  max_value : Z;
  threshold : Z;
  above_threshold : Z
}.

Inductive sstable_feature :=
  | NonCompoundPIEntries | NonCompoundRangeTombstones | ShadowableTombstones
  | CorrectStaticCompact | CorrectEmptyCounters | CorrectUDTsInCollections.

(** What the members of the union hold. *)
Inductive scylla_metadata_value :=
  | sharding_metadata (token_ranges : list (token_bound * token_bound))
  | sstable_enabled_features (enabled_features : Z)
  | extension_attributes (attributes : list (string * string))
  | run_identifier (uuid : string)
  | large_data_stats (stats : list (large_data_type * large_data_stats_entry))
  | disk_string (value : string).

Section DumpComponents.

Context (X : externals).

(** The components of a sstable: the entries its index reader yields, its
    compression info, its summary and its Scylla metadata, if it has
    one. *)
Context (index_entries : sstable -> list index_entry).
Context (get_compression_info : sstable -> compression).
Context (get_summary : sstable -> summary).
Context (get_scylla_metadata :
  sstable -> option (list (scylla_metadata_type * scylla_metadata_value))).

(** The value of an enumerator of [sstable_feature], as an integer. *)
Context (sstable_feature_value : sstable_feature -> Z).

Definition dump_index_operation (sstables : list sstable) : outcome (list json.event) :=
  match sstables with
  | [] => thrown "error: no sstables specified on the command line"
  | _ :: _ =>
      returned
        (json_writer.StartStream
         ++ flat_map (fun sst =>
              json_writer.SstableKey (get_filename sst)
              ++ [json.StartArray]
              ++ flat_map (fun e =>
                   [json.StartObject; json.Key "key"]
                   ++ json_writer.PartitionKey X (ie_key e) None
                   ++ [json.Key "pos"; json.Uint64 (ie_position e); json.EndObject])
                   (index_entries sst)
              ++ [json.EndArray]) sstables
         ++ json_writer.EndStream)
  end.

Definition dump_compression_info_operation (sstables : list sstable)
    : outcome (list json.event) :=
  match sstables with
  | [] => thrown "error: no sstables specified on the command line"
  | _ :: _ =>
      returned
        (json_writer.StartStream
         ++ flat_map (fun sst =>
              let compression := get_compression_info sst in
              json_writer.SstableKey (get_filename sst)
              ++ [json.StartObject;
                  json.Key "name"; json.String (compression_name compression);
                  json.Key "options"; json.StartObject]
              ++ flat_map (fun opt => [json.Key (fst opt); json.String (snd opt)])
                   (compression_options compression)
              ++ [json.EndObject;
                  json.Key "chunk_len"; json.Uint (chunk_len compression);
                  json.Key "data_len"; json.Uint64 (data_len compression);
                  json.Key "offsets"; json.StartArray]
              ++ map json.Uint64 (compression_offsets compression)
              ++ [json.EndArray; json.EndObject]) sstables
         ++ json_writer.EndStream)
  end.

Definition dump_summary_operation (sstables : list sstable) : outcome (list json.event) :=
  match sstables with
  | [] => thrown "error: no sstables specified on the command line"
  | _ :: _ =>
      returned
        (json_writer.StartStream
         ++ flat_map (fun sst =>
              let summary := get_summary sst in
              json_writer.SstableKey (get_filename sst)
              ++ [json.StartObject;
                  json.Key "header"; json.StartObject;
                  json.Key "min_index_interval"; json.Uint64 (min_index_interval summary);
                  json.Key "size"; json.Uint64 (summary_size summary);
                  json.Key "memory_size"; json.Uint64 (memory_size summary);
                  json.Key "sampling_level"; json.Uint64 (sampling_level summary);
                  json.Key "size_at_full_sampling"; json.Uint64 (size_at_full_sampling summary);
                  json.EndObject;
                  json.Key "positions"; json.StartArray]
              ++ map json.Uint64 (positions summary)
              ++ [json.EndArray;
                  json.Key "entries"; json.StartArray]
              ++ flat_map (fun e =>
                   [json.StartObject; json.Key "key"]
                   ++ json_writer.PartitionKey X (se_key e) (Some (se_token e))
                   ++ [json.Key "position"; json.Uint64 (se_position e); json.EndObject])
                   (entries summary)
              ++ [json.EndArray; json.Key "first_key"]
              ++ json_writer.PartitionKey X (first_key summary) None
              ++ [json.Key "last_key"]
              ++ json_writer.PartitionKey X (last_key summary) None
              ++ [json.EndObject]) sstables
         ++ json_writer.EndStream)
  end.

(** [scylla_metadata_visitor]: the table of the features, in its order. *)
Definition all_features : list (sstable_feature * string) :=
  [(NonCompoundPIEntries, "NonCompoundPIEntries");
   (NonCompoundRangeTombstones, "NonCompoundRangeTombstones");
   (ShadowableTombstones, "ShadowableTombstones");
   (CorrectStaticCompact, "CorrectStaticCompact");
   (CorrectEmptyCounters, "CorrectEmptyCounters");
   (CorrectUDTsInCollections, "CorrectUDTsInCollections")].

Definition write_token_bound (b : token_bound) : list json.event :=
  [json.StartObject;
   json.Key "exclusive"; json.Bool (bound_exclusive b);
   json.Key "token"; json.String (bound_token b);
   json.EndObject].

(** The overloads of [operator()] for what a member holds. *)
Definition visit_scylla_metadata_value (v : scylla_metadata_value) : list json.event :=
  match v with
  | sharding_metadata token_ranges =>
      [json.StartArray]
      ++ flat_map (fun e =>
           [json.StartObject; json.Key "left"] ++ write_token_bound (fst e)
           ++ [json.Key "right"] ++ write_token_bound (snd e)
           ++ [json.EndObject]) token_ranges
      ++ [json.EndArray]
  | sstable_enabled_features enabled_features =>
      [json.StartObject; json.Key "mask"; json.Uint64 enabled_features;
       json.Key "features"; json.StartArray]
      ++ flat_map (fun f =>
           if negb (Z.land (sstable_feature_value (fst f)) enabled_features =? 0)%Z
           then [json.String (snd f)] else []) all_features
      ++ [json.EndArray; json.EndObject]
  | extension_attributes attributes =>
      [json.StartObject]
      ++ flat_map (fun kv => [json.Key (fst kv); json.String (snd kv)]) attributes
      ++ [json.EndObject]
  | run_identifier uuid => [json.String uuid]
  | large_data_stats stats =>
      [json.StartObject]
      ++ flat_map (fun kv =>
           [json.Key (large_data_type_to_string (fst kv)); json.StartObject;
            json.Key "max_value"; json.Uint64 (max_value (snd kv));
            json.Key "threshold"; json.Uint64 (threshold (snd kv));
            json.Key "above_threshold"; json.Uint (above_threshold (snd kv));
            json.EndObject]) stats
      ++ [json.EndObject]
  | disk_string value => [json.String value]
  end.

(** The overload for a member of the union: its tag as the key, then
    what it holds. *)
Definition visit_scylla_metadata_member (m : scylla_metadata_type * scylla_metadata_value)
    : list json.event :=
  json.Key (scylla_metadata_type_to_string (fst m)) :: visit_scylla_metadata_value (snd m).

Definition dump_scylla_metadata_operation (sstables : list sstable)
    : outcome (list json.event) :=
  match sstables with
  | [] => thrown "error: no sstables specified on the command line"
  | _ :: _ =>
      returned
        (json_writer.StartStream
         ++ flat_map (fun sst =>
              json_writer.SstableKey (get_filename sst)
              ++ [json.StartObject]
              ++ match get_scylla_metadata sst with
                 | None => [json.EndObject]
                 | Some data => flat_map visit_scylla_metadata_member data ++ [json.EndObject]
                 end) sstables
         ++ json_writer.EndStream)
  end.

End DumpComponents.

(** ** The dumper of [dump-data], text output: [dumping_consumer::text_dumper] *)

(** The [operator<<] of [partition_start] and of [range_tombstone_change]
    and the printers of [static_row] and of [clustering_row], which know
    the schema, belong to other parts of the code base. *)
Record printers := mk_printers {
  print_partition_start : partition_start -> string;
  print_static_row : row -> string;
  print_clustering_row : clustering_row -> string;
  print_range_tombstone_change : range_tombstone_change -> string
}.

Module text_dumper.

(** What went to [std::cout], print by print. *)
Definition t := list string.

Definition on_start_of_stream (d : t) : t :=
  d ++ ["{stream_start}" +:+ newline].

Definition on_new_sstable (sst : option string) (d : t) : stop_iteration.t * t :=
  (stop_iteration.no,
   d ++ ["{sstable_start"
         +:+ match sst with
             | Some filename => ": filename " +:+ filename
             | None => EmptyString
             end
         +:+ "}" +:+ newline]).

Definition consume (P : printers) (mf : mutation_fragment_v2) (d : t) : stop_iteration.t * t :=
  match mf with
  | mf_partition_start ps => (stop_iteration.no, d ++ [print_partition_start P ps +:+ newline])
  | mf_static_row sr => (stop_iteration.no, d ++ [print_static_row P sr +:+ newline])
  | mf_clustering_row cr => (stop_iteration.no, d ++ [print_clustering_row P cr +:+ newline])
  | mf_range_tombstone_change rtc =>
      (stop_iteration.no, d ++ [print_range_tombstone_change P rtc +:+ newline])
  | mf_partition_end => (stop_iteration.no, d ++ ["{partition_end}" +:+ newline])
  end.

Definition on_end_of_sstable (d : t) : stop_iteration.t * t :=
  (stop_iteration.no, d ++ ["{sstable_end}" +:+ newline]).

Definition on_end_of_stream (d : t) : t :=
  d ++ ["{stream_end}" +:+ newline].

End text_dumper.

Definition text_dumper_consumer (P : printers) : sstable_consumer text_dumper.t := {|
  on_start_of_stream d := returned (text_dumper.on_start_of_stream d);
  on_new_sstable sst d := returned (text_dumper.on_new_sstable sst d);
  consume mf d := returned (text_dumper.consume P mf d);
  on_end_of_sstable d := returned (text_dumper.on_end_of_sstable d);
  on_end_of_stream d := returned (text_dumper.on_end_of_stream d)
|}.

(** ** [get_output_format_from_options] and [dumping_consumer] *)

Module output_format.
Inductive t := text | json.
End output_format.

(** The [output-format] option, if it is there. *)
Definition get_output_format_from_options (output_format_option : option string)
    (default_format : output_format.t) : outcome output_format.t :=
  match output_format_option with
  | Some value =>
      if (value =? "text")%string then returned output_format.text
      else if (value =? "json")%string then returned output_format.json
      else thrown "error: invalid value for dump option output-format: {}"
  | None => returned default_format
  end.

Module dumping_consumer.

(** [_consumer]: the one or the other dumper. *)
Inductive t :=
  | as_text (d : text_dumper.t)
  | as_json (d : json_dumper.t).

(** The constructor.  [b] is what [_clustering_array_created] of a new
    [json_dumper] holds. *)
Definition make (output_format_option : option string) (b : bool) : outcome t :=
  run* format := get_output_format_from_options output_format_option output_format.text in
  match format with
  | output_format.text => returned (as_text [])
  | output_format.json => returned (as_json (json_dumper.init b))
  end.

(** A call on [_consumer]. *)
Definition forward {A : Type} (on_text : text_dumper.t -> outcome (A * text_dumper.t))
    (on_json : json_dumper.t -> outcome (A * json_dumper.t)) (c : t) : outcome (A * t) :=
  match c with
  | as_text d => run* r := on_text d in returned (fst r, as_text (snd r))
  | as_json d => run* r := on_json d in returned (fst r, as_json (snd r))
  end.

Definition forward_void (on_text : text_dumper.t -> outcome text_dumper.t)
    (on_json : json_dumper.t -> outcome json_dumper.t) (c : t) : outcome t :=
  match c with
  | as_text d => run* d := on_text d in returned (as_text d)
  | as_json d => run* d := on_json d in returned (as_json d)
  end.

End dumping_consumer.

Definition dumping_consumer_consumer (X : externals) (P : printers)
    : sstable_consumer dumping_consumer.t := {|
  on_start_of_stream :=
    dumping_consumer.forward_void (@on_start_of_stream _ (text_dumper_consumer P))
      (@on_start_of_stream _ (json_dumper_consumer X));
  on_new_sstable sst :=
    dumping_consumer.forward (@on_new_sstable _ (text_dumper_consumer P) sst)
      (@on_new_sstable _ (json_dumper_consumer X) sst);
  consume mf :=
    dumping_consumer.forward (@consume _ (text_dumper_consumer P) mf)
      (@consume _ (json_dumper_consumer X) mf);
  on_end_of_sstable :=
    dumping_consumer.forward (@on_end_of_sstable _ (text_dumper_consumer P))
      (@on_end_of_sstable _ (json_dumper_consumer X));
  on_end_of_stream :=
    dumping_consumer.forward_void (@on_end_of_stream _ (text_dumper_consumer P))
      (@on_end_of_stream _ (json_dumper_consumer X))
|}.

Section DumpData.

Context (X : externals) (P : printers).
Context (make_combined_reader : list flat_mutation_reader_v2 -> flat_mutation_reader_v2).
Context (next_partition : flat_mutation_reader_v2 -> flat_mutation_reader_v2).

(** [all_options] declares [output-format] with the default value
    [json], and [dump-data] has it among its options: the variables map
    always holds it, with the value given on the command line, or with
    the default when none was given. *)
Definition output_format_default_value : string := "json".

(** [sstable_consumer_operation<dumping_consumer>], from the partition
    filter on: the consumer is made once the sstables were found to be
    there and the filter was read, and before its first call.
    [output_format] is the value given on the command line, if one
    was. *)
Definition dump_data_operation (sstables : list sstable) (merge no_skips : bool)
    (partitions : partition_set) (output_format : option string) (b : bool)
    : outcome dumping_consumer.t :=
  match sstables with
  | [] => thrown "error: no sstables specified on the command line"
  | _ :: _ =>
      let output_format_option := Some (default output_format_default_value output_format) in
      run* consumer := dumping_consumer.make output_format_option b in
      @sstable_consumer_operation _ (dumping_consumer_consumer X P) make_combined_reader
        next_partition sstables merge no_skips partitions consumer
  end.

End DumpData.

(** ** Notions for the statements that follow *)

(** *** A consumer that keeps a log of every call made on it

    The log has the name of each sstable and the two ends of the stream;
    the consumer answers by fixed rules. *)
Inductive logged :=
  | log_start_of_stream
  | log_new_sstable (sst : option string)
  | log_consume (mf : mutation_fragment_v2)
  | log_end_of_sstable
  | log_end_of_stream.

Record answers := mk_answers {
  to_new_sstable : option string -> stop_iteration.t;
  to_fragment : mutation_fragment_v2 -> stop_iteration.t;
  to_end_of_sstable : stop_iteration.t
}.

Definition logging_consumer (a : answers) : sstable_consumer (list logged) := {|
  on_start_of_stream log := returned (log ++ [log_start_of_stream]);
  on_new_sstable sst log := returned (to_new_sstable a sst, log ++ [log_new_sstable sst]);
  consume mf log := returned (to_fragment a mf, log ++ [log_consume mf]);
  on_end_of_sstable log := returned (to_end_of_sstable a, log ++ [log_end_of_sstable]);
  on_end_of_stream log := returned (log ++ [log_end_of_stream])
|}.

(** The consumer that never answers stop. *)
Definition never_stops : answers :=
  mk_answers (fun _ => stop_iteration.no) (fun _ => stop_iteration.no) stop_iteration.no.

(** What a sstable adds to the log of a consumer that is handed all of
    it. *)
Definition sstable_log (sst : option string) (rd : flat_mutation_reader_v2) : list logged :=
  [log_new_sstable sst] ++ map log_consume rd ++ [log_end_of_sstable].

(** What a sstable adds to the log when the consumer gave the answer
    [to_new] to [on_new_sstable]: after a stop the end of the sstable
    comes next, and else all of the sstable is handed over. *)
Definition handed (to_new : stop_iteration.t) (sst : option string)
    (rd : flat_mutation_reader_v2) : list logged :=
  match to_new with
  | stop_iteration.yes => [log_new_sstable sst; log_end_of_sstable]
  | stop_iteration.no => sstable_log sst rd
  end.

(** The sstables in turn, up to the first one after which the consumer
    answers stop to [on_end_of_sstable]. *)
Fixpoint handed_each (to_new : option string -> stop_iteration.t) (to_end : stop_iteration.t)
    (sstables : list sstable) : list logged :=
  match sstables with
  | [] => []
  | sst :: rest =>
      handed (to_new (Some (get_filename sst))) (Some (get_filename sst)) (fragments sst)
      ++ match to_end with
         | stop_iteration.yes => []
         | stop_iteration.no => handed_each to_new to_end rest
         end
  end.

(** The partitions a filter keeps. *)
Definition kept (partitions : partition_set) (ps : list partition) : list partition :=
  List.filter (fun p => partitions_find partitions (ps_key (p_start p))) ps.
(** The consumer that answers stop to each [partition_end], and to
    nothing else. *)
Definition stops_at_partition_end : answers :=
  mk_answers (fun _ => stop_iteration.no) stop_at_partition_end stop_iteration.no.
(** *** The words of a text

    [split_words pending s]: the maximal runs of characters that are not
    white space in [pending] followed by [s], as far as they are ended by
    white space, and the run that is not ended yet. *)
Fixpoint split_words (pending : string) (s : string) : list string * string :=
  match s with
  | EmptyString => ([], pending)
  | String c s' =>
      if isspace c then
        let r := split_words EmptyString s' in
        (if holds pending then pending :: fst r else fst r, snd r)
      else split_words (pending +:+ String c EmptyString) s'
  end.

Definition words (s : string) : list string :=
  let r := split_words EmptyString s in
  if holds (snd r) then fst r ++ [snd r] else fst r.

(** The buffers of a stream up to its end, which the first empty buffer
    marks. *)
Fixpoint until_empty (buffers : list string) : list string :=
  match buffers with
  | [] => []
  | buf :: buffers' => if holds buf then buf :: until_empty buffers' else []
  end.
(** *** Well-formed JSON

    A JSON text as a sequence of events, read with a stack of what is
    expected next: the one value of the document, a key of an object or
    its end, the value of a key, an element of an array or its end. *)
Inductive json_frame := expect_root | expect_key | expect_value | expect_element.

(** The stack once a value was read where one was expected; a value can
    come nowhere else. *)
Definition json_after_value (st : list json_frame) : option (list json_frame) :=
  match st with
  | expect_root :: st' => Some st'
  | expect_value :: st' => Some (expect_key :: st')
  | expect_element :: st' => Some (expect_element :: st')
  | _ => None
  end.

Definition json_step (e : json.event) (st : list json_frame) : option (list json_frame) :=
  match e with
  | json.StartObject => option_map (cons expect_key) (json_after_value st)
  | json.StartArray => option_map (cons expect_element) (json_after_value st)
  | json.EndObject => match st with expect_key :: st' => Some st' | _ => None end
  | json.EndArray => match st with expect_element :: st' => Some st' | _ => None end
  | json.Key _ => match st with expect_key :: st' => Some (expect_value :: st') | _ => None end
  | _ => json_after_value st
  end.

Fixpoint json_run (events : list json.event) (st : list json_frame)
    : option (list json_frame) :=
  match events with
  | [] => Some st
  | e :: events' =>
      match json_step e st with
      | Some st' => json_run events' st'
      | None => None
      end
  end.

(** The events make up one JSON document: one value, whole, and nothing
    after it. *)
Definition json_document (events : list json.event) : bool :=
  match json_run events [expect_root] with
  | Some [] => true
  | _ => false
  end.

(** [v] is read as one value wherever a value can come. *)
Definition json_value (v : list json.event) : Prop :=
  forall st st' rest,
    json_after_value st = Some st' -> json_run (v ++ rest) st = json_run rest st'.

(** [m] is read as members of an object: keys, each with its value. *)
Definition json_members (m : list json.event) : Prop :=
  forall st rest, json_run (m ++ rest) (expect_key :: st) = json_run rest (expect_key :: st).

(** [es] is read as elements of an array. *)
Definition json_elements (es : list json.event) : Prop :=
  forall st rest,
    json_run (es ++ rest) (expect_element :: st) = json_run rest (expect_element :: st).

(** A reader that yields whole partitions. *)
Definition whole (rd : flat_mutation_reader_v2) : Prop :=
  exists ps, rd = flat_map partition_fragments ps.
(** *** What a callback of the parser pushes

    [pushed q r]: the call that gave [r] found the queue [q] and left it
    as it was, or with one fragment more; a call that failed left it as
    it was. *)
Definition pushed {A : Type} (proj : A -> handler.t) (q : list (option mutation_fragment_v2))
    (r : handler.result A) : Prop :=
  match r with
  | handler.Ok a =>
      handler._queue (proj a) = q \/ exists mf, handler._queue (proj a) = q ++ [Some mf]
  | handler.Failed _ h => handler._queue h = q
  end.
(** *** What the histogram consumer counts *)

(** The cells of a cell of a row: one, or the elements of a collection. *)
Definition cell_count (cell : atomic_cell_or_collection) : nat :=
  match cell with
  | regular_cell _ | counter_update_cell _ _ | counter_cell _ _ => 1
  | collection_cell _ cells => length cells
  | unknown_cell => 0
  end.

Definition row_cell_count (r : row) : nat :=
  list_sum (map (fun ic => cell_count (snd ic)) r).

Definition fragment_cells (mf : mutation_fragment_v2) : nat :=
  match mf with
  | mf_static_row cells => row_cell_count cells
  | mf_clustering_row cr => row_cell_count (cr_cells cr)
  | _ => 0
  end.

Definition fragment_rows (mf : mutation_fragment_v2) : nat :=
  match mf with
  | mf_static_row _ | mf_clustering_row _ => 1
  | _ => 0
  end.

Definition fragment_partitions (mf : mutation_fragment_v2) : nat :=
  match mf with
  | mf_partition_start _ => 1
  | _ => 0
  end.

(** [c'] is [c] with its four counters incremented so many times. *)
Definition tallies (partitions rows cells timestamps : nat)
    (c c' : writetime_histogram_collecting_consumer.t) : Prop :=
  writetime_histogram_collecting_consumer._partitions c'
  = Nat.iter partitions writetime_histogram_collecting_consumer.incr
      (writetime_histogram_collecting_consumer._partitions c)
  /\ writetime_histogram_collecting_consumer._rows c'
     = Nat.iter rows writetime_histogram_collecting_consumer.incr
         (writetime_histogram_collecting_consumer._rows c)
  /\ writetime_histogram_collecting_consumer._cells c'
     = Nat.iter cells writetime_histogram_collecting_consumer.incr
         (writetime_histogram_collecting_consumer._cells c)
  /\ writetime_histogram_collecting_consumer._timestamps c'
     = Nat.iter timestamps writetime_histogram_collecting_consumer.incr
         (writetime_histogram_collecting_consumer._timestamps c).
(** *** What the text dumper prints for a sstable *)

(** The line of a fragment. *)
Definition fragment_line (P : printers) (mf : mutation_fragment_v2) : string :=
  match mf with
  | mf_partition_start ps => print_partition_start P ps +:+ newline
  | mf_static_row sr => print_static_row P sr +:+ newline
  | mf_clustering_row cr => print_clustering_row P cr +:+ newline
  | mf_range_tombstone_change rtc => print_range_tombstone_change P rtc +:+ newline
  | mf_partition_end => "{partition_end}" +:+ newline
  end.

(** The lines of a sstable: one that tells its name, if it has one, a
    line for each fragment, and one that ends it. *)
Definition sstable_lines (P : printers) (sst : option string) (rd : flat_mutation_reader_v2)
    : list string :=
  ["{sstable_start"
   +:+ match sst with
       | Some filename => ": filename " +:+ filename
       | None => EmptyString
       end
   +:+ "}" +:+ newline]
  ++ map (fragment_line P) rd
  ++ ["{sstable_end}" +:+ newline].

(** *** A consumer behind another *)

(** [f] on what a call returned. *)
Definition lift {A B : Type} (f : A -> B) (o : outcome A) : outcome B :=
  run* a := o in returned (f a).

Definition lift_answer {S1 S2 : Type} (wrap : S1 -> S2) (o : outcome (stop_iteration.t * S1))
    : outcome (stop_iteration.t * S2) :=
  lift (fun r => (fst r, wrap (snd r))) o.

(** *** The files [decompress] writes *)
Definition decompressed_outputs (sstables : list sstable) : list string :=
  map (fun sst => get_filename sst +:+ ".decompressed") (List.filter get_compression sstables).

(** A sstable of the partitions above. *)
Definition whole_sstable : sstable :=
  mk_sstable "md-4-big-Data.db" (flat_map partition_fragments whole_partitions) false ([], None).

(** * Theorems *)

(** ** The state stack of the parser *)

Section ParserStack.

Context (X : externals).

Lemma has_stack_bind {A B : Type} (p : A -> handler.t) (q : B -> handler.t) st
    (c : handler.result A) (k : A -> handler.result B) :
  has_stack p st c ->
  (forall a, handler._state_stack (p a) = st -> has_stack q st (k a)) ->
  has_stack q st (handler.bind c k).
Proof. destruct c; simpl; auto. Qed.

Ltac scratch_only f :=
  intros h; unfold has_stack, f, handler.error, handler.emit, handler.empty_optional;
  repeat case_match; simplify_eq; reflexivity.

Lemma parse_partition_key_stack h st :
  handler._state_stack h = st -> has_stack (fun h => h) st (handler.parse_partition_key X h).
Proof. intros <-. revert h. scratch_only handler.parse_partition_key. Qed.
Lemma parse_clustering_key_stack h st :
  handler._state_stack h = st -> has_stack (fun h => h) st (handler.parse_clustering_key X h).
Proof. intros <-. revert h. scratch_only handler.parse_clustering_key. Qed.
Lemma parse_bound_weight_stack h st :
  handler._state_stack h = st -> has_stack (fun h => h) st (handler.parse_bound_weight h).
Proof. intros <-. revert h. scratch_only handler.parse_bound_weight. Qed.
Lemma parse_deletion_time_stack h st :
  handler._state_stack h = st -> has_stack (fun h => h) st (handler.parse_deletion_time X h).
Proof. intros <-. revert h. scratch_only handler.parse_deletion_time. Qed.
Lemma parse_ttl_stack h st :
  handler._state_stack h = st -> has_stack (fun h => h) st (handler.parse_ttl X h).
Proof. intros <-. revert h. scratch_only handler.parse_ttl. Qed.
Lemma parse_expiry_stack h st :
  handler._state_stack h = st -> has_stack (fun h => h) st (handler.parse_expiry X h).
Proof. intros <-. revert h. scratch_only handler.parse_expiry. Qed.
Lemma get_tombstone_stack h st :
  handler._state_stack h = st -> has_stack snd st (handler.get_tombstone h).
Proof. intros <-. revert h. scratch_only handler.get_tombstone. Qed.
Lemma finalize_partition_start_stack tomb h st :
  handler._state_stack h = st -> has_stack (fun h => h) st (handler.finalize_partition_start X tomb h).
Proof. intros <-. revert h. scratch_only handler.finalize_partition_start. Qed.
Lemma finalize_static_row_stack h st :
  handler._state_stack h = st -> has_stack (fun h => h) st (handler.finalize_static_row h).
Proof. intros <-. revert h. scratch_only handler.finalize_static_row. Qed.
Lemma finalize_range_tombstone_change_stack h st :
  handler._state_stack h = st -> has_stack (fun h => h) st (handler.finalize_range_tombstone_change X h).
Proof. intros <-. revert h. scratch_only handler.finalize_range_tombstone_change. Qed.
Lemma finalize_row_marker_stack h st :
  handler._state_stack h = st -> has_stack (fun h => h) st (handler.finalize_row_marker X h).
Proof. intros <-. revert h. scratch_only handler.finalize_row_marker. Qed.
Lemma parse_column_value_stack h st :
  handler._state_stack h = st -> has_stack (fun h => h) st (handler.parse_column_value X h).
Proof. intros <-. revert h. scratch_only handler.parse_column_value. Qed.
Lemma finalize_column_stack h st :
  handler._state_stack h = st -> has_stack (fun h => h) st (handler.finalize_column X h).
Proof. intros <-. revert h. scratch_only handler.finalize_column. Qed.
Lemma finalize_clustering_row_stack h st :
  handler._state_stack h = st -> has_stack (fun h => h) st (handler.finalize_clustering_row h).
Proof. intros <-. revert h. scratch_only handler.finalize_clustering_row. Qed.
Lemma finalize_partition_stack h st :
  handler._state_stack h = st -> has_stack (fun h => h) st (handler.finalize_partition h).
Proof. intros <-. revert h. scratch_only handler.finalize_partition. Qed.


Create HintDb stack.
#[local] Hint Resolve parse_partition_key_stack parse_clustering_key_stack parse_bound_weight_stack
  parse_deletion_time_stack parse_ttl_stack parse_expiry_stack get_tombstone_stack
  finalize_partition_start_stack finalize_static_row_stack finalize_range_tombstone_change_stack
  finalize_row_marker_stack parse_column_value_stack finalize_column_stack
  finalize_clustering_row_stack finalize_partition_stack : stack.

Ltac stack_step :=
  first
    [ progress simpl
    | reflexivity
    | assumption
    | eapply has_stack_bind; [ solve [ eauto with stack ] | intros ? ? ]
    | match goal with
      | |- has_stack _ _ (handler.bind (if ?c then _ else _) _) => destruct c
      | |- has_stack _ _ (handler.bind (match ?c with _ => _ end) _) => destruct c eqn:?
      | |- has_stack _ _ (if ?c then _ else _) => destruct c
      | |- has_stack _ _ (match ?c with _ => _ end) => destruct c eqn:?
      | |- has_stack _ _ (handler.bind (handler.Ok _) _) => unfold handler.bind at 1
      | |- has_stack _ _ (handler.bind (handler.empty_optional _) _) => unfold handler.bind at 1
      | |- has_stack _ _ (handler.retired _ _) => unfold handler.retired, has_stack
      | |- has_stack _ _ (handler.error _ _) => unfold handler.error, has_stack
      | |- has_stack _ _ (handler.empty_optional _) => unfold handler.empty_optional, has_stack
      | |- has_stack _ _ (handler.Ok _) => unfold has_stack
      | |- has_stack _ _ (handler.Failed _ _) => unfold has_stack
      end ].

Lemma handle_retire_state_stack h st :
  handler._state_stack h = st -> has_stack handler.after st (handler.handle_retire_state X h).
Proof.
  intros Hst. unfold handler.handle_retire_state.
  destruct (handler.top 0 h) as [[]|]; repeat stack_step.
Qed.


Lemma handle_retire_state_shape h res :
  handler.handle_retire_state X h = handler.Ok res ->
  exists s, handler.top 0 h = Some s /\ pops s = Some (handler.pop_states res) /\
    (handler.next_state res = None \/
     (s = handler.before_string /\
      handler.top_is 1 handler.in_clustering_element h = true /\
      handler.pop_states res = 1 /\
      (handler.next_state res = Some handler.in_clustering_row \/
       handler.next_state res = Some handler.in_range_tombstone_change))).
Proof.
  unfold handler.handle_retire_state.
  destruct (handler.top 0 h) as [s|] eqn:Htop; [|discriminate].
  intros Hres. exists s. split; [reflexivity|].
  destruct s; try discriminate;
    unfold handler.bind, handler.retired, handler.error, handler.empty_optional in Hres;
    repeat case_match; simplify_eq; simpl; auto 10.
Qed.

Lemma well_nested_tail s rest :
  well_nested (s :: rest) = true -> s <> handler.start -> well_nested rest = true.
Proof.
  destruct rest as [|p rest]; simpl.
  - unfold handler.state_eqb. destruct (handler.state_eq_dec s handler.start); congruence.
  - intros [_ ?]%andb_prop _. assumption.
Qed.

Lemma well_nested_push s p rest :
  nests s p = true -> well_nested (p :: rest) = true -> well_nested (s :: p :: rest) = true.
Proof. intros Hn Hw. change (nests s p && well_nested (p :: rest) = true). rewrite Hn, Hw. reflexivity. Qed.

Lemma well_nested_parent s rest :
  well_nested (s :: rest) = true -> s <> handler.start ->
  exists p rest', rest = p :: rest' /\ nests s p = true.
Proof.
  destruct rest as [|p rest]; simpl.
  - unfold handler.state_eqb. destruct (handler.state_eq_dec s handler.start); congruence.
  - intros [? _]%andb_prop _. eauto.
Qed.

Lemma pop_well_nested h :
  well_nested (handler._state_stack h) = true -> stack_ok (handler.pop X h).
Proof.
  intros Hwf. unfold handler.pop.
  pose proof (handle_retire_state_stack h _ eq_refl) as Hst.
  pose proof (handle_retire_state_shape h) as Hshape.
  destruct (handler.handle_retire_state X h) as [res|msg h']; simpl in *.
  - destruct (Hshape res eq_refl) as (s & Htop & Hpops & Hnext). clear Hshape.
    unfold handler.top in Htop.
    destruct (handler._state_stack h) as [|s0 rest] eqn:Hstack; [discriminate|].
    simpl in Htop. injection Htop as ->.
    assert (Hs : s <> handler.start) by (intros ->; discriminate).
    destruct (well_nested_parent _ _ Hwf Hs) as (p & rest' & -> & Hnest).
    pose proof (well_nested_tail _ _ Hwf Hs) as Hwf1.
    destruct Hnext as [Hnone | (-> & Hce & Hone & Hnext)].
    + rewrite Hnone. cbn -[well_nested]. rewrite Hst.
      destruct s; simpl in Hpops; simplify_eq; rewrite <- Hpops; cbn -[well_nested];
        try assumption;
        (apply (well_nested_tail p); [assumption | intros ->; discriminate]).
    + unfold handler.top_is, handler.top in Hce. rewrite Hstack in Hce. simpl in Hce.
      unfold handler.state_eqb in Hce.
      destruct (handler.state_eq_dec p handler.in_clustering_element) as [->|]; [|discriminate].
      rewrite Hone.
      destruct Hnext as [-> | ->]; cbn -[well_nested]; rewrite Hst; cbn -[well_nested];
        (apply well_nested_push; [reflexivity | assumption]).
  - rewrite Hst. assumption.
Qed.


Lemma push_well_nested s p h :
  handler.top 0 h = Some p -> nests s p = true ->
  well_nested (handler._state_stack h) = true -> stack_ok (handler.push s h).
Proof.
  unfold handler.top. intros Htop Hn Hwf.
  destruct (handler._state_stack h) as [|p' rest] eqn:Hstack; [discriminate|].
  simpl in Htop. injection Htop as ->.
  cbn -[well_nested]. rewrite Hstack. apply well_nested_push; assumption.
Qed.

Lemma failed_well_nested msg h :
  well_nested (handler._state_stack h) = true -> stack_ok (handler.Failed msg h).
Proof. intros; assumption. Qed.

Lemma stack_ok_bind st (c : handler.result handler.t) (k : handler.t -> handler.result handler.t) :
  has_stack (fun h => h) st c -> well_nested st = true ->
  (forall a, handler._state_stack a = st -> stack_ok (k a)) ->
  stack_ok (handler.bind c k).
Proof. destruct c; simpl; intros Hst Hwf Hk; [auto | rewrite Hst; assumption]. Qed.

Ltac callback_step :=
  first
    [ apply pop_well_nested; assumption
    | eapply push_well_nested; [ eassumption | reflexivity | assumption ]
    | apply failed_well_nested; assumption
    | match goal with
      | |- stack_ok (if ?c then _ else _) => destruct c
      | |- stack_ok (match ?c with _ => _ end) => destruct c eqn:?
      end ].

Lemma dispatch_well_nested e h :
  well_nested (handler._state_stack h) = true -> stack_ok (handler.dispatch X e h).
Proof.
  intros Hwf.
  destruct e; cbn [handler.dispatch];
    unfold handler.Null, handler.Bool, handler.Int, handler.Uint, handler.Int64, handler.Uint64,
      handler.Double, handler.RawNumber, handler.String, handler.StartObject, handler.EndObject,
      handler.StartArray, handler.EndArray, handler.unexpected;
    try (destruct (handler.top 0 h) as [[]|] eqn:Htop; solve [ repeat callback_step ]).
  unfold handler.Key, handler.unexpected_key, handler.error.
    change (handler.top 0 (handler.set_key str h)) with (handler.top 0 h).
    destruct (handler.top 0 h) as [[]|] eqn:Htop; try solve [repeat callback_step].
    + (* in_partition *)
      repeat callback_step.
      eapply stack_ok_bind with (st := handler._state_stack h);
          [ destruct (negb _); [apply finalize_partition_start_stack|]; reflexivity
          | assumption | ].
        intros a Ha. destruct (_ =? _)%string;
          (eapply push_well_nested;
           [ unfold handler.top; rewrite Ha; exact Htop | reflexivity | rewrite Ha; assumption ]).
Qed.


Lemma Parse_well_nested events h :
  well_nested (handler._state_stack h) = true ->
  well_nested (handler._state_stack (fst (handler.Parse X events h))) = true.
Proof.
  revert h. induction events as [|e events IH]; intros h Hwf; simpl; [assumption|].
  pose proof (dispatch_well_nested e h Hwf) as Hstep.
  destruct (handler.dispatch X e h); simpl in *; auto.
Qed.

Lemma nests_deeper s p : nests s p = true -> deepest p < deepest s.
Proof. destruct s, p; simpl; intros; try discriminate; lia. Qed.

Lemma well_nested_depth stack :
  well_nested stack = true -> length stack <= deepest (hd handler.start stack).
Proof.
  induction stack as [|s rest IH]; [discriminate|].
  destruct rest as [|p rest].
  - simpl. unfold handler.state_eqb.
    destruct (handler.state_eq_dec s handler.start) as [->|]; [simpl; lia | discriminate].
  - intros [Hn Hw]%andb_prop. specialize (IH Hw). apply nests_deeper in Hn.
    simpl in *. lia.
Qed.

Lemma deepest_le_12 s : deepest s <= 12.
Proof. destruct s; simpl; lia. Qed.

(** C5, as amended: whatever the document, the state stack of the parser
    never holds more than 12 states, neither while the document is read
    nor where reading stops at an error. *)
Theorem state_stack_depth events :
  length (handler._state_stack (fst (handler.Parse X events handler.init))) <= 12.
Proof.
  pose proof (Parse_well_nested events handler.init eq_refl) as Hwf.
  apply well_nested_depth in Hwf.
  etransitivity; [exact Hwf | apply deepest_le_12].
Qed.

End ParserStack.

(** C5, as stated, fails: at the key [is_live] of a cell of a clustering
    row the stack holds 12 states, which is more than 8. *)
Lemma state_stack_deeper_than_8 :
  ~ length (handler._state_stack (fst (handler.Parse sample.X deep_document handler.init))) <= 8.
Proof. vm_compute. lia. Qed.

(** The bound 12 is reached. *)
Lemma state_stack_depth_reached :
  handler._state_stack (fst (handler.Parse sample.X deep_document handler.init))
  = [handler.before_bool; handler.in_column; handler.before_column;
     handler.before_column_key; handler.before_clustering_columns;
     handler.in_clustering_row; handler.in_clustering_element;
     handler.before_clustering_element; handler.before_clustering_elements;
     handler.in_partition; handler.before_partition; handler.start].
Proof. vm_compute. reflexivity. Qed.

(** ** The end of a partition *)

(** Retiring [in_partition] pushes a [partition_end] and nothing else,
    whether a [partition_start] was pushed for the partition or not. *)
Lemma finalize_partition_emits h :
  handler.finalize_partition h
  = handler.Ok (handler.set_queue (handler._queue h ++ [Some mf_partition_end])
                  (handler.set_partition_start_emited false h)).
Proof. reflexivity. Qed.

(** C2: the parser is given a partition that has a key and nothing else.
    It pushes a [partition_end] and the end-of-stream marker; no
    [partition_start] comes before the [partition_end]. *)
Theorem key_only_partition_gets_no_partition_start :
  parsed sample.X key_only_document = ([Some mf_partition_end; None], None).
Proof. vm_compute. reflexivity. Qed.

(** ** The weight of a range tombstone change *)

(** [parse_bound_weight] turns down every [int64_t] but -1, 0 and 1. *)
Lemma parse_bound_weight_rejects h i :
  handler._integer h = Some i -> i <> (-1)%Z -> i <> 0%Z -> i <> 1%Z ->
  exists msg, handler.parse_bound_weight h = handler.Failed msg h.
Proof.
  intros Hi H1 H2 H3. unfold handler.parse_bound_weight. rewrite Hi.
  destruct (Z.eqb_spec i (-1)); [contradiction|].
  destruct (Z.eqb_spec i 0); [contradiction|].
  destruct (Z.eqb_spec i 1); [contradiction|].
  eexists. reflexivity.
Qed.

(** Retiring [in_range_tombstone_change] with the weight 0 is an error,
    and with no weight too. *)
Lemma finalize_range_tombstone_change_rejects X h :
  handler._bound_weight h = Some equal \/ handler._bound_weight h = None ->
  exists msg, handler.finalize_range_tombstone_change X h = handler.Failed msg h.
Proof.
  intros [Hw | Hw]; unfold handler.finalize_range_tombstone_change; rewrite Hw;
    eexists; reflexivity.
Qed.

(** The fragment pushed when [in_range_tombstone_change] is retired has
    the weight -1 or 1. *)
Lemma finalize_range_tombstone_change_weight X h h' :
  handler.finalize_range_tombstone_change X h = handler.Ok h' ->
  exists rtc,
    handler._queue h' = handler._queue h ++ [Some (mf_range_tombstone_change rtc)]
    /\ (rtc_bound_weight rtc = before_all_prefixed \/ rtc_bound_weight rtc = after_all_prefixed).
Proof.
  unfold handler.finalize_range_tombstone_change, handler.error, handler.emit.
  destruct (handler._bound_weight h) as [[]|]; try discriminate;
    destruct (handler._row_tombstone h); try discriminate;
    intros [= <-]; eexists; (split; [reflexivity|]); simpl; auto.
Qed.

(** The weight -1 is what the callback [Uint64] stores for the largest
    [uint64_t]. *)
Lemma Uint64_wraps : uint64_to_int64 18446744073709551615 = (-1)%Z.
Proof. reflexivity. Qed.

(** C6: the parser is given a range tombstone change whose weight is
    18446744073709551615.  It reports no error and pushes a range tombstone
    change of weight -1. *)
Theorem wrapped_weight_is_accepted :
  parsed sample.X wrapped_weight_document
  = ([Some (mf_partition_start (mk_partition_start (mk_decorated_key 2 "ab") no_tombstone));
      Some (mf_range_tombstone_change
              (mk_range_tombstone_change (Some EmptyString) before_all_prefixed no_tombstone));
      Some mf_partition_end;
      None],
     None).
Proof. vm_compute. reflexivity. Qed.

(** ** The cells of a row *)

(** When [finalize_column] goes through, the cell had [is_live] and a
    timestamp, a live cell had a value, a dead cell a deletion time, and of
    the pending ttl and expiry both were there or none; the cell has been
    applied to the row. *)
Lemma finalize_column_composes X h h' :
  handler.finalize_column X h = handler.Ok h' ->
  exists r c ts,
    handler._row h = Some r /\ handler._column h = Some c
    /\ handler.timestamp c = Some ts
    /\ handler.has (handler._ttl h) = handler.has (handler._expiry h)
    /\ ((handler.is_live c = Some true
         /\ exists v, handler.value c = Some v
            /\ handler._row h'
               = Some (row_apply X r (handler.def c)
                         (live ts v (match handler._ttl h, handler._expiry h with
                                     | Some ttl, Some expiry => Some (ttl, expiry)
                                     | _, _ => None
                                     end))))
        \/ (handler.is_live c = Some false
            /\ exists dt, handler.deletion_time c = Some dt
               /\ handler._row h' = Some (row_apply X r (handler.def c) (dead ts dt)))).
Proof.
  unfold handler.finalize_column, handler.error, handler.empty_optional.
  destruct (handler._row h) as [r|]; [|discriminate].
  destruct (handler._column h) as [c|]; [|discriminate].
  destruct (handler.is_live c) as [[]|] eqn:Hl, (handler.timestamp c) as [ts|] eqn:Hts,
    (handler.value c) as [v|] eqn:Hv, (handler.deletion_time c) as [dt|] eqn:Hd,
    (handler._ttl h) as [ttl|], (handler._expiry h) as [expiry|];
    simpl; try discriminate; intros [= <-]; exists r, c, ts;
    rewrite Hl, Hts, Hv, Hd; simpl; repeat split; eauto 10.
Qed.

(** When one of these is missing, [finalize_column] fails and leaves the
    handler, so also the row, as it was. *)
Lemma finalize_column_rejects X h r c :
  handler._row h = Some r -> handler._column h = Some c ->
  handler.is_live c = None \/ handler.timestamp c = None
  \/ (handler.is_live c = Some true /\ handler.value c = None)
  \/ (handler.is_live c = Some false /\ handler.deletion_time c = None)
  \/ handler.has (handler._ttl h) <> handler.has (handler._expiry h) ->
  exists msg, handler.finalize_column X h = handler.Failed msg h.
Proof.
  intros Hr Hc Hbad. unfold handler.finalize_column, handler.error. rewrite Hr, Hc.
  destruct (handler.is_live c) as [[]|], (handler.timestamp c) as [ts|],
    (handler.value c) as [v|], (handler.deletion_time c) as [dt|],
    (handler._ttl h) as [ttl|], (handler._expiry h) as [expiry|];
    simpl in *; try (eexists; reflexivity);
    exfalso; intuition congruence.
Qed.

(** A dead cell that goes through leaves the pending ttl and expiry where
    they are. *)
Lemma finalize_column_dead_keeps_ttl X h h' c :
  handler._column h = Some c -> handler.is_live c = Some false ->
  handler.finalize_column X h = handler.Ok h' ->
  handler._ttl h' = handler._ttl h /\ handler._expiry h' = handler._expiry h.
Proof.
  intros Hc Hdead. unfold handler.finalize_column, handler.error, handler.empty_optional.
  rewrite Hc, Hdead.
  destruct (handler._row h) as [r|]; [|discriminate].
  destruct (handler.timestamp c), (handler.deletion_time c),
    (handler._ttl h) eqn:Httl, (handler._expiry h) eqn:Hexpiry; simpl; try discriminate;
    intros [= <-]; simpl; rewrite Httl, Hexpiry; split; reflexivity.
Qed.

(** C7: the parser is given a row of two cells, a dead cell that carries a
    ttl and an expiry and then a live cell that carries a ttl and no
    expiry.  It reports no error and adds the live cell to the row, with its
    own ttl and the expiry of the dead cell. *)
Theorem lone_ttl_is_accepted :
  parsed sample.X lone_ttl_document
  = ([Some (mf_partition_start (mk_partition_start (mk_decorated_key 2 "ab") no_tombstone));
      Some (mf_clustering_row
              (mk_clustering_row "ck" empty_row_tombstone marker_missing
                 [(0%nat, regular_cell (dead 1%Z 1577836800%Z));
                  (1%nat, regular_cell (live 2%Z "x" (Some (5%Z, 1577836860%Z))))]));
      Some mf_partition_end;
      None],
     None).
Proof. vm_compute. reflexivity. Qed.

(** ** The keys of a clustering-row object *)

Section DumperKeys.

Context (X : externals).

Lemma is_members_nil : is_members [].
Proof. intros d rest. reflexivity. Qed.

Lemma is_members_app m1 m2 : is_members m1 -> is_members m2 -> is_members (m1 ++ m2).
Proof. intros H1 H2 d rest. rewrite <- app_assoc, H1, H2. reflexivity. Qed.

Lemma is_members_key k v : is_value v -> is_members (json.Key k :: v).
Proof. intros Hv d rest. simpl. apply Hv. Qed.

Lemma is_value_object m : is_members m -> is_value ([json.StartObject] ++ m ++ [json.EndObject]).
Proof.
  intros Hm d rest. simpl. rewrite <- app_assoc. rewrite Hm. reflexivity.
Qed.

Lemma is_value_array m : is_members m -> is_value ([json.StartArray] ++ m ++ [json.EndArray]).
Proof.
  intros Hm d rest. simpl. rewrite <- app_assoc. rewrite Hm. reflexivity.
Qed.

Lemma is_members_value v : is_value v -> is_members v.
Proof. intros Hv d rest. apply Hv. Qed.

Lemma write_ttl_expiry_members ttl expiry : is_members (json_dumper.write_ttl_expiry X ttl expiry).
Proof. intros d rest. reflexivity. Qed.

Lemma write_key_value k : is_value (json_dumper.write_key X k).
Proof. intros d rest. reflexivity. Qed.

Lemma write_tombstone_value t : is_value (json_dumper.write_tombstone X t).
Proof. intros d rest. destruct t; reflexivity. Qed.

Lemma write_row_marker_value m : is_value (json_dumper.write_row_marker X m).
Proof. intros d rest. destruct m; reflexivity. Qed.

Lemma write_atomic_cell_value c ty : is_value (json_dumper.write_atomic_cell X c ty).
Proof. intros d rest. destruct c as [ts v [[ttl e]|]|ts dt]; reflexivity. Qed.

#[local] Arguments json_dumper.write_atomic_cell : simpl never.
#[local] Arguments json_dumper.write_key : simpl never.
#[local] Arguments json_dumper.write_tombstone : simpl never.
#[local] Arguments json_dumper.write_row_marker : simpl never.
#[local] Arguments json_dumper.write_cell : simpl never.
#[local] Arguments json_dumper.write_row : simpl never.

Lemma write_counter_shards_value shards : is_value (json_dumper.write_counter_shards shards).
Proof.
  apply is_value_array. induction shards as [|sh shards IH]; [apply is_members_nil|].
  simpl. intros d rest. simpl. apply IH.
Qed.

Lemma write_collection_cells_members ty i cells :
  is_members (json_dumper.write_collection_cells X ty i cells).
Proof.
  revert i. induction cells as [|[k v] cells IH]; intros i; [apply is_members_nil|].
  intros d rest. cbn [json_dumper.write_collection_cells app object_keys Nat.eqb].
  rewrite <- app_assoc, (write_atomic_cell_value v _ (Datatypes.S d)). apply IH.
Qed.

Lemma write_cell_value cell cdef : is_value (json_dumper.write_cell X cell cdef).
Proof.
  destruct cell as [c|ts v|ts shards|tomb cells|]; unfold json_dumper.write_cell.
  - apply write_atomic_cell_value.
  - intros d rest. reflexivity.
  - unfold json_dumper.write_counter_cell.
    apply (is_value_object ([_; _; _; _; _] ++ _)).
    apply is_members_app; [intros d rest; reflexivity|].
    apply is_members_value, write_counter_shards_value.
  - unfold json_dumper.write_collection.
    rewrite !app_assoc. rewrite <- (app_assoc [json.StartObject]). rewrite <- (app_assoc [json.StartObject]).
    apply is_value_object.
    apply is_members_app; [apply is_members_app|].
    + destruct (tombstone_bool tomb); [|apply is_members_nil].
      apply is_members_key, write_tombstone_value.
    + intros d rest. reflexivity.
    + destruct (collection_known X (type cdef)).
      * apply is_members_value, is_value_object, write_collection_cells_members.
      * intros d rest. reflexivity.
  - intros d rest. reflexivity.
Qed.

Lemma write_row_value r k : is_value (json_dumper.write_row X r k).
Proof.
  apply is_value_object. induction r as [|[i cell] r IH]; [apply is_members_nil|].
  intros d rest. cbn [flat_map fst snd app object_keys Nat.eqb].
  rewrite <- app_assoc, (write_cell_value cell _ (Datatypes.S d)). apply IH.
Qed.

Lemma object_keys_member k v rest :
  is_value v ->
  object_keys 1 (json.Key k :: v ++ rest) = k :: object_keys 1 rest.
Proof. intros Hv. simpl. rewrite (Hv 0). reflexivity. Qed.

Lemma write_clustering_row_keys cr :
  object_keys 0 (json_dumper.write_clustering_row X cr) =
    ["type"; "key"]
    ++ (if row_tombstone_bool X (cr_tomb cr) then ["tombstone"; "shadowable_tombstone"] else [])
    ++ (if negb (marker_is_missing (cr_marker cr)) then ["marker"] else [])
    ++ ["columns"].
Proof.
  unfold json_dumper.write_clustering_row.
  cbn [app object_keys Nat.eqb]. do 2 f_equal.
  rewrite (write_key_value (cr_key cr) 0).
  assert (Hlast : object_keys 1
            (json.Key "columns" :: json_dumper.write_row X (cr_cells cr) regular_column
             ++ [json.EndObject]) = ["columns"]).
  { rewrite object_keys_member by apply write_row_value. reflexivity. }
  assert (Hmarker : object_keys 1
            ((if negb (marker_is_missing (cr_marker cr))
              then json.Key "marker" :: json_dumper.write_row_marker X (cr_marker cr) else [])
             ++ json.Key "columns" :: json_dumper.write_row X (cr_cells cr) regular_column
             ++ [json.EndObject])
          = (if negb (marker_is_missing (cr_marker cr)) then ["marker"] else []) ++ ["columns"]).
  { destruct (negb _); cbn [app].
    - rewrite object_keys_member by apply write_row_marker_value. f_equal. exact Hlast.
    - exact Hlast. }
  destruct (row_tombstone_bool X (cr_tomb cr)); cbn [app].
  - rewrite <- !app_assoc. rewrite object_keys_member by apply write_tombstone_value.
    cbn [app]. f_equal.
    rewrite object_keys_member by apply write_tombstone_value. f_equal. exact Hmarker.
  - exact Hmarker.
Qed.

(** An empty tombstone is printed as an empty object. *)
Lemma write_tombstone_empty : json_dumper.write_tombstone X no_tombstone = [json.StartObject; json.EndObject].
Proof. reflexivity. Qed.

(** C10: among the keys of a clustering-row object, [shadowable_tombstone]
    is there exactly when [tombstone] is, and both are there exactly when
    the tombstone of the row is not empty. *)
Theorem clustering_row_tombstone_keys cr :
  let keys := object_keys 0 (json_dumper.write_clustering_row X cr) in
  (In "shadowable_tombstone" keys <-> In "tombstone" keys)
  /\ (In "tombstone" keys <-> row_tombstone_bool X (cr_tomb cr) = true).
Proof.
  cbv zeta. rewrite write_clustering_row_keys.
  destruct (row_tombstone_bool X (cr_tomb cr)), (negb (marker_is_missing (cr_marker cr)));
    simpl; intuition congruence.
Qed.

End DumperKeys.

(** ** Reading back what was dumped *)

(** What the dumper prints for the partition that has a key and nothing
    else: the key, no tombstone, no rows. *)
Lemma key_only_partition_dump : dump_sstable sample.X key_only_stream = key_only_document.
Proof. vm_compute. reflexivity. Qed.

(** C1: a stream of one partition that has a key, an empty tombstone and
    no rows is dumped, and the dump is parsed.  The parser gives back a
    [partition_end] alone: the [partition_start] of the stream is lost. *)
Theorem key_only_partition_is_not_read_back :
  parsed sample.X (map json.reread (dump_sstable sample.X key_only_stream))
  = ([Some mf_partition_end; None], None)
  /\ map Some key_only_stream ++ [None] <> [Some mf_partition_end; None].
Proof. split; [vm_compute; reflexivity | discriminate]. Qed.

(** ** The reader driver *)

Section DriverFacts.

Context {S : Type} `{sstable_consumer S}.
Context (next_partition : flat_mutation_reader_v2 -> flat_mutation_reader_v2).

(** When the consumer has answered stop and the fragment ahead is not a
    [partition_start], the loop ends there: no [partition_end] is handed
    to the consumer and nothing is skipped. *)
Lemma pause_before_other_fragment_ends fuel rd consumer partitions no_skips mf rest consumer' :
  rd <> [] ->
  consume_pausable partitions rd consumer false = returned (mf :: rest, consumer', false) ->
  is_partition_start mf = false ->
  consume_reader_loop next_partition (Datatypes.S fuel) rd consumer partitions no_skips
  = returned consumer'.
Proof.
  intros Hrd Hpause Hmf. destruct rd as [|mf0 rd0]; [congruence|].
  cbn [consume_reader_loop]. rewrite Hpause. cbn. rewrite Hmf. reflexivity.
Qed.

(** When the fragment ahead is a [partition_start], the consumer is handed
    a [partition_end]. *)
Lemma pause_before_partition_start_ends_partition fuel rd consumer partitions no_skips
    ps rest consumer' :
  rd <> [] ->
  consume_pausable partitions rd consumer false
  = returned (mf_partition_start ps :: rest, consumer', false) ->
  consume_reader_loop next_partition (Datatypes.S fuel) rd consumer partitions no_skips
  = andthen (consume mf_partition_end consumer')
      (fun r =>
         match fst r with
         | stop_iteration.yes => returned (snd r)
         | stop_iteration.no =>
             consume_reader_loop next_partition fuel
               ((if no_skips then drain_partition (mf_partition_start ps :: rest)
                 else next_partition (mf_partition_start ps :: rest)))
               (snd r) partitions no_skips
         end).
Proof.
  intros Hrd Hpause. destruct rd as [|mf0 rd0]; [congruence|].
  cbn [consume_reader_loop]. rewrite Hpause. reflexivity.
Qed.

End DriverFacts.

(** C3: a sstable of two partitions is read for a consumer that answers
    stop at the first row of the first partition.  The consumer is handed
    the [partition_start] and that row, and then the end of the sstable: no
    [partition_end], and nothing of the second partition, with or without
    [no_skips] and whatever the skip of the reader does. *)
Theorem stop_inside_partition_ends_sstable
    (next_partition : flat_mutation_reader_v2 -> flat_mutation_reader_v2) (no_skips : bool) :
  @consume_reader _ (recording_consumer stop_at_c1) next_partition two_partitions [] None []
    no_skips
  = returned
      (stop_iteration.no,
       [called_on_new_sstable;
        called_consume
          (mf_partition_start (mk_partition_start (mk_decorated_key 1 "a") no_tombstone));
        called_consume
          (mf_clustering_row (mk_clustering_row "c1" empty_row_tombstone marker_missing []));
        called_on_end_of_sstable]).
Proof. destruct no_skips; reflexivity. Qed.

(** For a consumer that answers stop at each [partition_end], the first
    partition is handed over whole, then a second [partition_end], and
    then the end of the sstable. *)
Lemma stop_at_partition_end_is_asked_twice
    (next_partition : flat_mutation_reader_v2 -> flat_mutation_reader_v2) (no_skips : bool) :
  @consume_reader _ (recording_consumer stop_at_partition_end) next_partition two_partitions []
    None [] no_skips
  = returned
      (stop_iteration.no,
       [called_on_new_sstable;
        called_consume
          (mf_partition_start (mk_partition_start (mk_decorated_key 1 "a") no_tombstone));
        called_consume
          (mf_clustering_row (mk_clustering_row "c1" empty_row_tombstone marker_missing []));
        called_consume
          (mf_clustering_row (mk_clustering_row "c2" empty_row_tombstone marker_missing []));
        called_consume mf_partition_end;
        called_consume mf_partition_end;
        called_on_end_of_sstable]).
Proof. destruct no_skips; reflexivity. Qed.

(** ** Strings *)

Lemma append_empty s : s +:+ EmptyString = s.
Proof.
  induction s as [|c s IH]; [reflexivity|].
  change (String c (s +:+ EmptyString) = String c s). rewrite IH. reflexivity.
Qed.

Lemma append_append s1 s2 s3 : (s1 +:+ s2) +:+ s3 = s1 +:+ (s2 +:+ s3).
Proof.
  induction s1 as [|c s1 IH]; [reflexivity|].
  change (String c ((s1 +:+ s2) +:+ s3) = String c (s1 +:+ (s2 +:+ s3))). rewrite IH. reflexivity.
Qed.

Lemma concat_cons x xs :
  String.concat EmptyString (x :: xs) = x +:+ String.concat EmptyString xs.
Proof. destruct xs; [symmetry; apply append_empty | reflexivity]. Qed.

Lemma concat_app xs ys :
  String.concat EmptyString (xs ++ ys)
  = String.concat EmptyString xs +:+ String.concat EmptyString ys.
Proof.
  induction xs as [|x xs IH]; [reflexivity|].
  rewrite <- app_comm_cons, !concat_cons, IH, append_append. reflexivity.
Qed.

(** ** The histogram *)

Section Histogram.
Local Open Scope Z_scope.

Lemma find_emplace_same b v m : writetime_histogram_collecting_consumer.find b m = None -> writetime_histogram_collecting_consumer.find b (writetime_histogram_collecting_consumer.emplace b v m) = Some v.
Proof.
  induction m as [|[k v'] m IH]; simpl.
  - rewrite Z.eqb_refl. reflexivity.
  - destruct (k =? b) eqn:Hkb; [discriminate|]. intros Hf.
    destruct (b <? k) eqn:Hlt; simpl.
    + rewrite Z.eqb_refl. reflexivity.
    + rewrite Z.eqb_sym, Hkb. simpl. rewrite Hkb. auto.
Qed.

Lemma find_emplace_other b b' v m : b' <> b -> writetime_histogram_collecting_consumer.find b' (writetime_histogram_collecting_consumer.emplace b v m) = writetime_histogram_collecting_consumer.find b' m.
Proof.
  intros Hne. induction m as [|[k v'] m IH]; simpl.
  - destruct (b =? b') eqn:E; [apply Z.eqb_eq in E; congruence | reflexivity].
  - destruct (b <? k) eqn:Hlt; simpl.
    + destruct (b =? b') eqn:E; [apply Z.eqb_eq in E; congruence | reflexivity].
    + destruct (b =? k) eqn:Hbk; simpl; [reflexivity|].
      destruct (k =? b'); [reflexivity | apply IH].
Qed.

Lemma find_increment_same b m v :
  writetime_histogram_collecting_consumer.find b m = Some v -> writetime_histogram_collecting_consumer.find b (writetime_histogram_collecting_consumer.increment b m) = Some ((v + 1) mod 2 ^ 64).
Proof.
  induction m as [|[k v'] m IH]; simpl; [discriminate|].
  destruct (k =? b) eqn:Hkb; simpl; rewrite Hkb; [congruence | exact IH].
Qed.

Lemma find_increment_other b b' m : b' <> b -> writetime_histogram_collecting_consumer.find b' (writetime_histogram_collecting_consumer.increment b m) = writetime_histogram_collecting_consumer.find b' m.
Proof.
  intros Hne. induction m as [|[k v'] m IH]; simpl; [reflexivity|].
  destruct (k =? b) eqn:Hkb; simpl.
  - apply Z.eqb_eq in Hkb. subst k.
    destruct (b =? b') eqn:E; [apply Z.eqb_eq in E; congruence | reflexivity].
  - destruct (k =? b'); [reflexivity | exact IH].
Qed.

Lemma keys_increment b m : map fst (writetime_histogram_collecting_consumer.increment b m) = map fst m.
Proof.
  induction m as [|[k v] m IH]; simpl; [reflexivity|].
  destruct (k =? b); simpl; congruence.
Qed.

Lemma in_keys_emplace b v m x :
  In x (map fst (writetime_histogram_collecting_consumer.emplace b v m)) -> x = b \/ In x (map fst m).
Proof.
  induction m as [|[k v'] m IH]; simpl.
  - intuition.
  - destruct (b <? k); simpl; [intuition|].
    destruct (b =? k); simpl; intuition.
Qed.

Lemma ascending_emplace b v m : ascending m -> ascending (writetime_histogram_collecting_consumer.emplace b v m).
Proof.
  unfold ascending. induction m as [|[k v'] m IH]; simpl; intros Hs.
  - repeat constructor.
  - inversion Hs as [|? ? Hs' Hall]; subst.
    destruct (b <? k) eqn:Hlt; simpl.
    + apply Z.ltb_lt in Hlt. constructor; [assumption|].
      constructor; [assumption|].
      rewrite List.Forall_forall in Hall |- *. intros x Hx. specialize (Hall x Hx). lia.
    + destruct (b =? k) eqn:Heq; simpl; [assumption|].
      apply Z.ltb_ge in Hlt. apply Z.eqb_neq in Heq.
      constructor; [auto|].
      rewrite List.Forall_forall in Hall |- *. intros x Hx.
      apply in_keys_emplace in Hx. destruct Hx as [->|Hx]; [lia | auto].
Qed.

Lemma ascending_counted b m : ascending m -> ascending (counted b m).
Proof.
  intros Hs. unfold counted, ascending. rewrite keys_increment.
  destruct (writetime_histogram_collecting_consumer.find b m); [assumption | apply ascending_emplace; assumption].
Qed.

Lemma find_counted_same b m :
  writetime_histogram_collecting_consumer.find b (counted b m) = Some ((default 0 (writetime_histogram_collecting_consumer.find b m) + 1) mod 2 ^ 64).
Proof.
  unfold counted. destruct (writetime_histogram_collecting_consumer.find b m) as [v|] eqn:Hf; simpl.
  - apply find_increment_same. assumption.
  - apply find_increment_same. apply find_emplace_same. assumption.
Qed.

Lemma find_counted_other b b' m : b' <> b -> writetime_histogram_collecting_consumer.find b' (counted b m) = writetime_histogram_collecting_consumer.find b' m.
Proof.
  intros Hne. unfold counted. rewrite find_increment_other by assumption.
  destruct (writetime_histogram_collecting_consumer.find b m); [reflexivity | apply find_emplace_other; assumption].
Qed.

(** In an ascending histogram an entry is there exactly when [find]
    finds it. *)
Lemma in_find b v m : ascending m -> In (b, v) m <-> writetime_histogram_collecting_consumer.find b m = Some v.
Proof.
  unfold ascending. induction m as [|[k v'] m IH]; simpl; intros Hs.
  - split; [tauto | discriminate].
  - inversion Hs as [|? ? Hs' Hall]; subst. specialize (IH Hs').
    destruct (k =? b) eqn:Hkb.
    + apply Z.eqb_eq in Hkb. subst k. split.
      * intros [Heq | Hin]; [congruence|].
        rewrite List.Forall_forall in Hall. specialize (Hall b (in_map fst _ _ Hin)). simpl in Hall. lia.
      * intros [= ->]. left. reflexivity.
    + apply Z.eqb_neq in Hkb. rewrite <- IH. split.
      * intros [Heq | Hin]; [congruence | assumption].
      * auto.
Qed.


Lemma ascending_collected bk tss m : ascending m -> ascending (collected bk tss m).
Proof.
  revert m. induction tss as [|ts tss IH]; intros m Hs; simpl; [assumption|].
  apply IH, ascending_counted, Hs.
Qed.

Lemma falling_in_cons bk b ts tss :
  falling_in bk b (ts :: tss) =
    if bool_decide (writetime_histogram_collecting_consumer.timestamp_bucket bk ts = b) then S (falling_in bk b tss)
    else falling_in bk b tss.
Proof.
  unfold falling_in. case_bool_decide as Hb.
  - rewrite filter_cons_True by assumption. reflexivity.
  - rewrite filter_cons_False by assumption. reflexivity.
Qed.

Lemma find_collected bk b tss m :
  writetime_histogram_collecting_consumer.find b (collected bk tss m) =
    match falling_in bk b tss with
    | O => writetime_histogram_collecting_consumer.find b m
    | n => Some ((default 0 (writetime_histogram_collecting_consumer.find b m) + Z.of_nat n) mod 2 ^ 64)
    end.
Proof.
  revert m. induction tss as [|ts tss IH]; intros m; [reflexivity|].
  simpl. rewrite IH, falling_in_cons. case_bool_decide as Hb.
  - subst b. rewrite find_counted_same. simpl.
    destruct (falling_in bk (writetime_histogram_collecting_consumer.timestamp_bucket bk ts) tss) as [|n].
    + f_equal.
    + f_equal. rewrite Zplus_mod_idemp_l. f_equal. lia.
  - rewrite find_counted_other by congruence. reflexivity.
Qed.

Lemma collects_nil c : collects [] c c.
Proof. repeat split. Qed.

Lemma collects_app tss1 tss2 c1 c2 c3 :
  collects tss1 c1 c2 -> collects tss2 c2 c3 -> collects (tss1 ++ tss2) c1 c3.
Proof.
  intros (Hb1 & Hf1 & Hh1) (Hb2 & Hf2 & Hh2). repeat split; try congruence.
  rewrite Hh2, Hh1, Hb1. unfold collected. rewrite fold_left_app. reflexivity.
Qed.

Lemma collect_timestamp_collects ts c : collects [ts] c (writetime_histogram_collecting_consumer.collect_timestamp ts c).
Proof. repeat split. Qed.

Lemma count_cell_collects c : collects [] c (writetime_histogram_collecting_consumer.count_cell c).
Proof. repeat split. Qed.

Lemma collect_sub_cells_collects (cells : list (bytes * atomic_cell)) c :
  collects (map (fun kv => atomic_cell_timestamp (snd kv)) cells) c
    (fold_left (fun c kv => writetime_histogram_collecting_consumer.collect_timestamp (atomic_cell_timestamp (snd kv)) (writetime_histogram_collecting_consumer.count_cell c))
       cells c).
Proof.
  revert c. induction cells as [|kv cells IH]; intros c; [apply collects_nil|].
  simpl. apply (collects_app [_] _ c (writetime_histogram_collecting_consumer.collect_timestamp (atomic_cell_timestamp (snd kv)) (writetime_histogram_collecting_consumer.count_cell c))).
  - apply (collects_app [] [_] c (writetime_histogram_collecting_consumer.count_cell c)); [apply count_cell_collects|].
    apply collect_timestamp_collects.
  - apply IH.
Qed.

Lemma collect_column_collects cell c c' :
  writetime_histogram_collecting_consumer.collect_column cell c = returned c' -> collects (cell_timestamps cell) c c'.
Proof.
  destruct cell as [a|ts v|ts shards|tomb cells|]; simpl; intros Hc; try discriminate;
    try (injection Hc as <-;
         apply (collects_app [] [_] c (writetime_histogram_collecting_consumer.count_cell c));
         [apply count_cell_collects | apply collect_timestamp_collects]).
  injection Hc as <-.
  destruct (tombstone_bool tomb).
  - apply (collects_app [_] _ c (writetime_histogram_collecting_consumer.collect_timestamp (writetime_histogram_collecting_consumer.tombstone_timestamp tomb) c));
      [apply collect_timestamp_collects | apply collect_sub_cells_collects].
  - apply collect_sub_cells_collects.
Qed.

Lemma collect_cells_collects r c c' :
  writetime_histogram_collecting_consumer.collect_cells r c = returned c' -> collects (row_timestamps r) c c'.
Proof.
  revert c. induction r as [|[i cell] r IH]; intros c; simpl.
  - intros [= <-]. apply collects_nil.
  - destruct (writetime_histogram_collecting_consumer.collect_column cell c) as [c1| |] eqn:Hcol; simpl; try discriminate.
    intros Hrest. eapply collects_app; [apply collect_column_collects, Hcol | apply IH, Hrest].
Qed.

Lemma collect_row_collects r c c' :
  writetime_histogram_collecting_consumer.collect_row r c = returned c' -> collects (row_timestamps r) c c'.
Proof.
  unfold writetime_histogram_collecting_consumer.collect_row. intros Hc.
  apply (collects_app [] _ c (writetime_histogram_collecting_consumer.count_row c)); [repeat split|].
  apply collect_cells_collects, Hc.
Qed.

Lemma consume_collects X mf c r :
  writetime_histogram_collecting_consumer.consume X mf c = returned r -> collects (fragment_timestamps X mf) c (snd r).
Proof.
  destruct mf as [ps|cells|cr|rtc|]; simpl.
  - intros [= <-]. simpl.
    apply (collects_app [] _ c (writetime_histogram_collecting_consumer.count_partition c)); [repeat split|].
    destruct (tombstone_bool (partition_tombstone ps));
      [apply collect_timestamp_collects | apply collects_nil].
  - unfold writetime_histogram_collecting_consumer.collect_static_row.
    destruct (writetime_histogram_collecting_consumer.collect_row cells c) as [c1| |] eqn:Hrow; simpl; try discriminate.
    intros [= <-]. apply collect_row_collects, Hrow.
  - unfold writetime_histogram_collecting_consumer.collect_clustering_row.
    set (c1 := if negb (marker_is_missing (cr_marker cr)) then _ else c).
    set (c2 := if negb (writetime_histogram_collecting_consumer.row_tombstone_is_empty (cr_tomb cr)) then _ else c1).
    destruct (writetime_histogram_collecting_consumer.collect_row (cr_cells cr) c2) as [c3| |] eqn:Hrow; simpl; try discriminate.
    intros [= <-]. simpl.
    apply (collects_app _ _ c c1).
    { subst c1. destruct (negb (marker_is_missing _));
        [apply collect_timestamp_collects | apply collects_nil]. }
    apply (collects_app _ _ c1 c2).
    { subst c2. destruct (negb (writetime_histogram_collecting_consumer.row_tombstone_is_empty _));
        [apply collect_timestamp_collects | apply collects_nil]. }
    apply collect_row_collects, Hrow.
  - intros [= <-]. apply collect_timestamp_collects.
  - intros [= <-]. apply collects_nil.
Qed.

Lemma consume_fragments_collects X frags c c' :
  consume_fragments X frags c = returned c' ->
  collects (flat_map (fragment_timestamps X) frags) c c'.
Proof.
  revert c. induction frags as [|mf frags IH]; intros c; simpl.
  - intros [= <-]. apply collects_nil.
  - destruct (writetime_histogram_collecting_consumer.consume X mf c) as [r| |] eqn:Hmf; simpl; try discriminate.
    intros Hrest. eapply collects_app; [apply (consume_collects _ _ _ _ Hmf) | apply IH, Hrest].
Qed.


Lemma collected_not_empty bk ts tss : collected bk (ts :: tss) [] <> [].
Proof.
  intros Hnil.
  pose proof (find_collected bk (writetime_histogram_collecting_consumer.timestamp_bucket bk ts)
                (ts :: tss) []) as Hf.
  rewrite Hnil, falling_in_cons, bool_decide_true in Hf by reflexivity. discriminate.
Qed.

(** With a histogram that is not empty, [on_end_of_stream] leaves its
    document in [histogram.json], whether the file was there or not. *)
Lemma on_end_of_stream_writes c :
  writetime_histogram_collecting_consumer._histogram c <> [] ->
  exists c',
    writetime_histogram_collecting_consumer.on_end_of_stream c = returned c'
    /\ writetime_histogram_collecting_consumer.files c'
       = <["histogram.json" :=
             String.concat EmptyString
               (writetime_histogram_collecting_consumer.document
                  (writetime_histogram_collecting_consumer._histogram c))]>
           (writetime_histogram_collecting_consumer.files c).
Proof.
  intros Hne. unfold writetime_histogram_collecting_consumer.on_end_of_stream.
  destruct (writetime_histogram_collecting_consumer._histogram c) as [|e m]; [congruence|].
  unfold open_file_dma, wo_create, close_output_stream. simpl.
  destruct (writetime_histogram_collecting_consumer.files c !! "histogram.json"); simpl;
    eexists; (split; [reflexivity|]); simpl; [reflexivity | apply insert_insert_eq].
Qed.

(** With an empty histogram it writes nothing. *)
Lemma on_end_of_stream_empty c :
  writetime_histogram_collecting_consumer._histogram c = [] ->
  writetime_histogram_collecting_consumer.on_end_of_stream c = returned c.
Proof.
  intros Hnil. unfold writetime_histogram_collecting_consumer.on_end_of_stream.
  rewrite Hnil. reflexivity.
Qed.

(** What [on_end_of_stream] writes for an array, piece by piece, makes
    up the text of the array. *)
Lemma write_array_text elements :
  String.concat EmptyString (writetime_histogram_collecting_consumer.write_array elements)
  = histogram_json_array elements.
Proof.
  destruct elements as [|first rest]; [reflexivity|].
  unfold writetime_histogram_collecting_consumer.write_array, histogram_json_array.
  cbn [map]. rewrite concat_cons.
  generalize (newline +:+ "  " +:+ format_integer first). clear first.
  induction rest as [|e rest IH]; intros x.
  - cbn [map String.concat]. apply append_empty.
  - cbn [map]. rewrite concat_cons, append_append, (IH (newline +:+ "  " +:+ format_integer e)).
    reflexivity.
Qed.

(** The pieces written for a histogram make up the document of its
    buckets and its counts. *)
Lemma document_text m :
  String.concat EmptyString (writetime_histogram_collecting_consumer.document m)
  = histogram_json (map fst m) (map snd m).
Proof.
  unfold writetime_histogram_collecting_consumer.document.
  rewrite !concat_app, !write_array_text. reflexivity.
Qed.

(** C4, as amended: a run that reaches the end of the stream.  When it
    has collected no timestamp, it writes nothing: the files are as they
    were.  When it has collected one or more, it leaves the file
    [histogram.json], whatever was at that name before, holding the
    document of two arrays, [buckets] and [counts]: the buckets ascend
    strictly, there are as many counts as buckets, and a bucket is listed,
    with a count at the same place, exactly when timestamps fell in it,
    the count being their number as a [uint64_t]. *)
Theorem histogram_file_written X bk fs frags c :
  consume_fragments X frags (writetime_histogram_collecting_consumer.init bk fs) = returned c ->
  match flat_map (fragment_timestamps X) frags with
  | [] =>
      writetime_histogram_collecting_consumer.on_end_of_stream c = returned c
      /\ writetime_histogram_collecting_consumer.files c = fs
  | _ :: _ =>
      exists c' buckets counts,
        writetime_histogram_collecting_consumer.on_end_of_stream c = returned c'
        /\ writetime_histogram_collecting_consumer.files c'
           = <["histogram.json" := histogram_json buckets counts]> fs
        /\ StronglySorted Z.lt buckets
        /\ length buckets = length counts
        /\ (forall b v,
              In (b, v) (combine buckets counts) <->
              falling_in bk b (flat_map (fragment_timestamps X) frags) <> O
              /\ v = Z.of_nat (falling_in bk b (flat_map (fragment_timestamps X) frags))
                     mod 2 ^ 64)
  end.
Proof.
  intros Hrun.
  destruct (consume_fragments_collects _ _ _ _ Hrun) as (Hbk & Hfs & Hm). simpl in Hbk, Hfs, Hm.
  set (tss := flat_map (fragment_timestamps X) frags) in *.
  assert (Hasc : ascending (writetime_histogram_collecting_consumer._histogram c)).
  { rewrite Hm. apply ascending_collected. constructor. }
  assert (Hcounts : forall b v,
    In (b, v) (writetime_histogram_collecting_consumer._histogram c) <->
    falling_in bk b tss <> O /\ v = Z.of_nat (falling_in bk b tss) mod 2 ^ 64).
  { intros b v. rewrite (in_find _ _ _ Hasc), Hm, find_collected. simpl.
    destruct (falling_in bk b tss) as [|n].
    - split; [discriminate | intros [Hn _]; congruence].
    - split; [intros [= <-]; split; [discriminate | reflexivity] | intros [_ ->]; reflexivity]. }
  destruct tss as [|ts tss'] eqn:Htss.
  - split; [apply on_end_of_stream_empty; rewrite Hm; reflexivity | exact Hfs].
  - assert (Hne : writetime_histogram_collecting_consumer._histogram c <> []).
    { rewrite Hm. apply collected_not_empty. }
    destruct (on_end_of_stream_writes c Hne) as (c' & Hend & Hfiles).
    exists c', (map fst (writetime_histogram_collecting_consumer._histogram c)),
      (map snd (writetime_histogram_collecting_consumer._histogram c)).
    split; [exact Hend|]. split; [rewrite Hfiles, Hfs, document_text; reflexivity|].
    split; [exact Hasc|]. split; [rewrite !length_map; reflexivity|].
    intros b v. rewrite <- Hcounts.
    assert (Hsplit : forall m : writetime_histogram_collecting_consumer.histogram,
      combine (map fst m) (map snd m) = m).
    { induction m as [|[k w] m IHm]; [reflexivity|]. cbn [map combine fst snd].
      rewrite IHm. reflexivity. }
    rewrite Hsplit. reflexivity.
Qed.

End Histogram.


(** C4, as stated, fails: a run over a partition that holds no timestamp
    reaches the end of the stream, and there is no [histogram.json]
    after it. *)
Lemma empty_histogram_writes_no_file :
  consume_fragments sample.X key_only_stream
    (writetime_histogram_collecting_consumer.init writetime_histogram_collecting_consumer.months ∅)
  = returned after_no_timestamp
  /\ writetime_histogram_collecting_consumer.on_end_of_stream after_no_timestamp
     = returned after_no_timestamp
  /\ writetime_histogram_collecting_consumer.files after_no_timestamp !! "histogram.json" = None.
Proof. repeat split. Qed.

Lemma histogram_file_written_witness :
  exists c' buckets counts,
    writetime_histogram_collecting_consumer.on_end_of_stream after_two_timestamps = returned c'
    /\ writetime_histogram_collecting_consumer.files c'
       = <["histogram.json" := histogram_json buckets counts]> ∅
    /\ StronglySorted Z.lt buckets
    /\ length buckets = length counts
    /\ (forall b v,
          In (b, v) (combine buckets counts) <->
          falling_in writetime_histogram_collecting_consumer.months b
            (flat_map (fragment_timestamps sample.X) two_timestamps) <> O
          /\ v = (Z.of_nat
                    (falling_in writetime_histogram_collecting_consumer.months b
                       (flat_map (fragment_timestamps sample.X) two_timestamps)) mod 2 ^ 64)%Z).
Proof.
  apply (histogram_file_written sample.X writetime_histogram_collecting_consumer.months ∅
           two_timestamps after_two_timestamps).
  reflexivity.
Defined.

(** The document for [two_timestamps]. *)
Lemma two_timestamps_document :
  String.concat EmptyString
    (writetime_histogram_collecting_consumer.document
       (writetime_histogram_collecting_consumer._histogram after_two_timestamps))
  = "{" +:+ newline +:+ quote +:+ "buckets" +:+ quote +:+ ": [" +:+ newline
    +:+ "  0," +:+ newline +:+ "  5259492000000" +:+ newline +:+ "]," +:+ newline
    +:+ quote +:+ "counts" +:+ quote +:+ ": [" +:+ newline
    +:+ "  1," +:+ newline +:+ "  1" +:+ newline +:+ "]" +:+ newline +:+ "}".
Proof. vm_compute. reflexivity. Qed.

(** ** [write_operation] *)

Section WriteOperationFacts.

Context (X : externals).
Context (sstable_filename : string -> Z -> string).
Context (read_events : string -> list json.event).
Context (write_components :
  list (option mutation_fragment_v2) -> option string ->
  mutation_fragment_stream_validation_level.t -> string -> Z -> file_system -> operation_result).

(** C8: when sstables were given, or the input file or the generation is
    missing, or the Data component of the sstable to write is there
    already, [write_operation] throws and the files are as they were;
    the writer has no part in the result. *)
Theorem write_operation_preconditions sstables vm fs :
  sstables <> []
  \/ input_file vm = None
  \/ generation vm = None
  \/ (exists g, generation vm = Some g
               /\ file_exists (sstable_filename (output_dir vm) g) fs = true) ->
  exists msg,
    write_operation X sstable_filename read_events write_components sstables vm fs
    = (thrown msg, fs).
Proof.
  intros Hbad. unfold write_operation.
  destruct sstables as [|sst rest]; [|eexists; reflexivity].
  destruct (input_file vm) as [input|]; [|eexists; reflexivity].
  destruct (find_validation_level (validation_level vm) valid_validation_levels);
    [|eexists; reflexivity].
  destruct (generation vm) as [g|]; [|eexists; reflexivity].
  destruct Hbad as [Hbad | [Hbad | [Hbad | (g' & Hg & Hthere)]]]; try congruence.
  injection Hg as <-. rewrite Hthere. eexists. reflexivity.
Qed.

(** When none of this is the case and the validation level and the input
    file are good, what happens to the files is up to the writer. *)
Lemma write_operation_goes_on vm fs input level g :
  input_file vm = Some input ->
  find_validation_level (validation_level vm) valid_validation_levels = Some level ->
  generation vm = Some g ->
  file_exists (sstable_filename (output_dir vm) g) fs = false ->
  is_Some (fs !! input) ->
  write_operation X sstable_filename read_events write_components [] vm fs
  = let parsed := handler.Parse X (read_events (default EmptyString (fs !! input))) handler.init in
    write_components (handler._queue (fst parsed)) (snd parsed) level (output_dir vm) g fs.
Proof.
  intros Hin Hlevel Hg Hfree [content Hcontent]. unfold write_operation.
  rewrite Hin, Hlevel, Hg, Hfree. unfold open_file_dma. rewrite Hcontent.
  cbn [create exclusive ro andb]. rewrite Hcontent. reflexivity.
Qed.

End WriteOperationFacts.

Lemma write_operation_preconditions_witness :
  exists msg,
    write_operation sample.X sample_sstable_filename no_events writes_nothing
      [] no_input_file ∅
    = (thrown msg, ∅).
Proof.
  apply (write_operation_preconditions sample.X sample_sstable_filename no_events writes_nothing
           [] no_input_file ∅).
  right. left. reflexivity.
Defined.

(** ** [decompress_operation] *)

(** C9, as stated, fails twice.  When the output is there already,
    opening it does not fail: the file is written over.  When the data
    stream fails, the operation fails and the output stays, holding what
    was written before the failure. *)
Lemma decompress_overwrites_and_keeps :
  decompress_operation [compressed_sstable] output_there
  = (returned tt, {[ "md-1-big-Data.db.decompressed" := "abcdef" ]})
  /\ (exists fs,
        decompress_operation [corrupt_sstable] ∅ = (thrown "checksum mismatch", fs)
        /\ fs !! "md-2-big-Data.db.decompressed" = Some "abc").
Proof.
  split.
  - vm_compute. reflexivity.
  - eexists. split; vm_compute; reflexivity.
Qed.

(** C9, as amended: a sstable that is not compressed is passed over.  For
    a compressed one the output, whether it was there or not, ends up
    holding what the data stream yielded; when the stream ended well the
    loop goes on, and when it failed the operation fails with the output
    left in place. *)
Theorem decompress_each_sstable sst rest fs :
  decompress_each (sst :: rest) fs
  = if get_compression sst then
      let fs' := <[get_filename sst +:+ ".decompressed" :=
                     String.concat EmptyString (fst (data_stream sst))]> fs in
      match snd (data_stream sst) with
      | Some msg => (thrown msg, fs')
      | None => decompress_each rest fs'
      end
    else decompress_each rest fs.
Proof.
  cbn [decompress_each]. destruct (get_compression sst); [|reflexivity].
  cbn [negb]. unfold open_file_dma, wo_create, close_output_stream. cbn [create exclusive andb].
  destruct (fs !! (get_filename sst +:+ ".decompressed")) eqn:Hold.
  - reflexivity.
  - assert (Hins : <[get_filename sst +:+ ".decompressed" :=
                       String.concat EmptyString (fst (data_stream sst))]>
                     (<[get_filename sst +:+ ".decompressed" := EmptyString]> fs)
                   = <[get_filename sst +:+ ".decompressed" :=
                         String.concat EmptyString (fst (data_stream sst))]> fs)
      by apply insert_insert_eq.
    rewrite Hins. reflexivity.
Qed.

(** Without a sstable the operation throws and touches no file. *)
Lemma decompress_operation_needs_sstables fs :
  decompress_operation [] fs
  = (thrown "error: no sstables specified on the command line", fs).
Proof. reflexivity. Qed.

(** ** Reading back the partitions the parser supports *)

Section NeverStops.

Context {S : Type} `{sstable_consumer S}.
Context (next_partition : flat_mutation_reader_v2 -> flat_mutation_reader_v2).
Context (step : mutation_fragment_v2 -> S -> S).
Hypothesis consume_step : forall mf c, consume mf c = returned (stop_iteration.no, step mf c).

(** A consumer that never answers stop and never throws is handed every
    fragment of the reader, up to its end. *)
Lemma consume_pausable_all rd consumer skip_partition :
  consume_pausable [] rd consumer skip_partition
  = returned ([], fold_left (fun c mf => step mf c) rd consumer, skip_partition).
Proof.
  revert consumer. induction rd as [|mf rd IH]; intros consumer; [reflexivity|].
  cbn [consume_pausable fold_left].
  assert (Hmf : andthen (consume mf consumer)
            (fun r => match fst r with
                      | stop_iteration.yes => returned (rd, snd r, skip_partition)
                      | stop_iteration.no => consume_pausable [] rd (snd r) skip_partition
                      end)
          = returned ([], fold_left (fun c mf => step mf c) rd (step mf consumer), skip_partition)).
  { rewrite consume_step. cbn. apply IH. }
  destruct mf; exact Hmf.
Qed.

(** For such a consumer the loop of [consume_reader] is over after one
    round. *)
Lemma consume_reader_loop_all fuel rd consumer no_skips :
  consume_reader_loop next_partition (Datatypes.S fuel) rd consumer [] no_skips
  = returned (fold_left (fun c mf => step mf c) rd consumer).
Proof.
  destruct rd as [|mf rd]; [reflexivity|].
  cbn [consume_reader_loop]. rewrite consume_pausable_all. cbn.
  destruct fuel; reflexivity.
Qed.

End NeverStops.

Section Dump.

Context (X : externals).


(** The clustering elements of a partition: the array is opened before
    the first of them, if it was not yet. *)
Lemma dump_elements w b (es : list clustering_element) :
  fold_left (fun d mf => dumps X mf d) (map element_fragment es) (json_dumper.mk w b)
  = match es with
    | [] => json_dumper.mk w b
    | _ :: _ =>
        json_dumper.mk
          (w ++ (if b then [] else [json.Key "clustering_elements"; json.StartArray])
             ++ flat_map (element_events X) es) true
    end.
Proof.
  revert w b. induction es as [|e es IH]; intros w b; [reflexivity|].
  cbn [map fold_left]. 
  assert (Hfirst : dumps X (element_fragment e) (json_dumper.mk w b)
          = json_dumper.mk
              (w ++ (if b then [] else [json.Key "clustering_elements"; json.StartArray])
                 ++ element_events X e) true).
  { destruct e, b; unfold dumps, json_dumper.consume, json_dumper.open_clustering_array,
      json_dumper.put;
      cbn [element_fragment element_events snd negb json_dumper._writer
           json_dumper._clustering_array_created app];
      rewrite <- ?app_assoc; reflexivity. }
  rewrite Hfirst, IH. destruct es as [|e' es].
  - cbn [flat_map]. rewrite app_nil_r. reflexivity.
  - cbn [flat_map app]. rewrite <- !app_assoc. reflexivity.
Qed.

(** What the dumper prints for the fragments of a partition. *)
Lemma dump_partition w b p :
  fold_left (fun d mf => dumps X mf d) (partition_fragments p) (json_dumper.mk w b)
  = json_dumper.mk (w ++ partition_events X p)
      (match p_elements p with [] => false | _ :: _ => true end).
Proof.
  unfold partition_fragments, partition_events.
  rewrite !fold_left_app. cbn [fold_left].
  set (d1 := dumps X (mf_partition_start (p_start p)) (json_dumper.mk w b)).
  assert (Hd1 : d1 = json_dumper.mk
            (w ++ [json.StartObject; json.Key "key"] ++ json_dumper.PartitionKey X (ps_key (p_start p))
               ++ (if tombstone_bool (partition_tombstone (p_start p))
                   then json.Key "tombstone"
                        :: json_dumper.write_tombstone X (partition_tombstone (p_start p))
                   else [])) false).
  { subst d1. unfold dumps, json_dumper.consume.
    destruct (tombstone_bool _); unfold json_dumper.put;
      cbn [snd json_dumper._writer json_dumper._clustering_array_created];
      rewrite <- ?app_assoc, ?app_nil_r; reflexivity. }
  rewrite Hd1. clear d1 Hd1.
  set (w1 := w ++ _).
  assert (Hstatic :
    fold_left (fun d mf => dumps X mf d)
      match p_static_row p with Some r => [mf_static_row r] | None => [] end
      (json_dumper.mk w1 false)
    = json_dumper.mk
        (w1 ++ match p_static_row p with
               | Some r => json.Key "static_row" :: json_dumper.write_row X r static_column
               | None => []
               end) false).
  { destruct (p_static_row p); cbn [fold_left]; [reflexivity | rewrite app_nil_r; reflexivity]. }
  rewrite Hstatic, dump_elements. subst w1.
  destruct (p_elements p) as [|e es]; unfold dumps, json_dumper.consume, json_dumper.put;
    cbn [snd json_dumper._writer json_dumper._clustering_array_created];
    rewrite <- ?app_assoc; reflexivity.
Qed.

(** And for the fragments of a list of partitions. *)
Lemma dump_partitions w b (ps : list partition) :
  exists b',
    fold_left (fun d mf => dumps X mf d) (flat_map partition_fragments ps) (json_dumper.mk w b)
    = json_dumper.mk (w ++ flat_map (partition_events X) ps) b'.
Proof.
  revert w b. induction ps as [|p ps IH]; intros w b.
  - exists b. cbn. rewrite app_nil_r. reflexivity.
  - cbn [flat_map]. rewrite fold_left_app, dump_partition.
    destruct (IH (w ++ partition_events X p)
                (match p_elements p with [] => false | _ :: _ => true end)) as [b' Hb'].
    exists b'. rewrite Hb', <- app_assoc. reflexivity.
Qed.


End Dump.




Lemma reads_cons X e es h1 h2 h3 :
  handler.dispatch X e h1 = handler.Ok h2 -> reads X es h2 h3 -> reads X (e :: es) h1 h3.
Proof. unfold reads. intros H1 H2. cbn [handler.Parse]. rewrite H1. exact H2. Qed.



(** The callbacks are run on a handler that is given field by field, up
    to the next question asked of [externals]. *)
#[local] Arguments handler.set_queue _ !_ /.
#[local] Arguments handler.set_state_stack _ !_ /.
#[local] Arguments handler.set_key _ !_ /.
#[local] Arguments handler.set_partition_start_emited _ !_ /.
#[local] Arguments handler.set_is_shadowable _ !_ /.
#[local] Arguments handler.set_bool _ !_ /.
#[local] Arguments handler.set_integer _ !_ /.
#[local] Arguments handler.set_string _ !_ /.
#[local] Arguments handler.set_pkey _ !_ /.
#[local] Arguments handler.set_tombstone _ !_ /.
#[local] Arguments handler.set_ckey _ !_ /.
#[local] Arguments handler.set_bound_weight _ !_ /.
#[local] Arguments handler.set_row_marker _ !_ /.
#[local] Arguments handler.set_row_tombstone _ !_ /.
#[local] Arguments handler.set_row _ !_ /.
#[local] Arguments handler.set_column _ !_ /.
#[local] Arguments handler.set_ttl _ !_ /.
#[local] Arguments handler.set_expiry _ !_ /.

Ltac run_parser :=
  repeat progress
    (cbn -[from_hex to_hex timestamp_from_string time_point_to_string duration_to_string
           read_uint64 type_to_string type_from_string get_column_definition column_at token_of
           row_apply marker_apply row_tombstone_of row_tombstone_apply_shadowable
           row_tombstone_tomb row_tombstone_bool json.read_integer drop_final_s
           Z.quot uint64_to_int64];
     unfold handler.pop, handler.handle_retire_state, handler.parse_partition_key,
       handler.parse_clustering_key, handler.parse_bound_weight, handler.parse_deletion_time,
       handler.parse_ttl, handler.parse_expiry, handler.get_tombstone,
       handler.finalize_partition_start, handler.finalize_static_row,
       handler.finalize_range_tombstone_change, handler.finalize_row_marker,
       handler.parse_column_value, handler.finalize_column, handler.finalize_clustering_row,
       handler.finalize_partition, handler.emit,
       handler.bind, handler.retired, handler.top_is, handler.top, handler.push,
       handler.pop_front).

Section ReadBack.

Context (X : externals).

























End ReadBack.



(** ** What a consumer is handed *)

Section HandedOver.

Context (make_combined_reader : list flat_mutation_reader_v2 -> flat_mutation_reader_v2).
Context (next_partition : flat_mutation_reader_v2 -> flat_mutation_reader_v2).

(** The log after the fragments of a reader went to a consumer that never
    stops. *)
Lemma fold_left_log (rd : flat_mutation_reader_v2) (log : list logged) :
  fold_left (fun log mf => log ++ [log_consume mf]) rd log = log ++ map log_consume rd.
Proof.
  revert log. induction rd as [|mf rd IH]; intros log; cbn [fold_left map].
  - rewrite app_nil_r. reflexivity.
  - rewrite IH, <- app_assoc. reflexivity.
Qed.

(** A reader with no filter, for a consumer that never stops: the sstable
    is announced, every fragment is handed over in order, and the sstable
    is ended. *)
Lemma consume_reader_never_stops rd sst no_skips log :
  @consume_reader _ (logging_consumer never_stops) next_partition rd log sst [] no_skips
  = returned (stop_iteration.no, log ++ sstable_log sst rd).
Proof.
  unfold consume_reader. cbn [on_new_sstable logging_consumer andthen fst snd never_stops
                              to_new_sstable].
  rewrite (consume_reader_loop_all next_partition (fun mf log => log ++ [log_consume mf]))
    by reflexivity.
  cbn [andthen on_end_of_sstable logging_consumer to_end_of_sstable].
  rewrite fold_left_log. unfold sstable_log. rewrite <- !app_assoc. reflexivity.
Qed.

Lemma consume_each_never_stops no_skips ssts : forall log,
  consume_each
    (fun rd sst consumer =>
       @consume_reader _ (logging_consumer never_stops) next_partition rd consumer sst []
         no_skips)
    ssts log
  = returned
      (log ++ flat_map (fun s => sstable_log (Some (get_filename s)) (fragments s)) ssts).
Proof.
  induction ssts as [|s ssts IH]; intros log; cbn [consume_each flat_map].
  - rewrite app_nil_r. reflexivity.
  - rewrite consume_reader_never_stops. cbn [andthen fst snd]. rewrite IH, <- app_assoc.
    reflexivity.
Qed.

(** X6: an operation over one sstable or more, with no partition filter
    and a consumer that never stops.  The consumer is told of the start of
    the stream; then, without [merge], each sstable in turn is announced by
    its name, handed over fragment by fragment and ended, and with [merge]
    the combined reader is, as one sstable without a name; at last the
    consumer is told of the end of the stream. *)
Theorem operation_hands_over_every_fragment sst ssts merge no_skips :
  @sstable_consumer_operation _ (logging_consumer never_stops) make_combined_reader
    next_partition (sst :: ssts) merge no_skips [] []
  = returned
      ([log_start_of_stream]
       ++ (if merge then sstable_log None (make_combined_reader (map fragments (sst :: ssts)))
           else flat_map (fun s => sstable_log (Some (get_filename s)) (fragments s))
                  (sst :: ssts))
       ++ [log_end_of_stream]).
Proof.
  unfold sstable_consumer_operation, consume_sstables.
  cbn [on_start_of_stream logging_consumer andthen app].
  destruct merge.
  - rewrite consume_reader_never_stops. cbn [andthen snd on_end_of_stream logging_consumer].
    rewrite <- app_assoc. reflexivity.
  - rewrite consume_each_never_stops. cbn [andthen on_end_of_stream logging_consumer].
    rewrite <- app_assoc. reflexivity.
Qed.

(** A sstable at which the consumer answers stop to [on_new_sstable]:
    no fragment is looked at, whatever the filter and whatever the
    consumer would answer to a fragment. *)
Lemma consume_reader_stop_at_new_sstable (a : answers) rd log sst partitions no_skips :
  to_new_sstable a sst = stop_iteration.yes ->
  @consume_reader _ (logging_consumer a) next_partition rd log sst partitions no_skips
  = returned (to_end_of_sstable a, log ++ [log_new_sstable sst; log_end_of_sstable]).
Proof.
  intros Hstop. unfold consume_reader.
  cbn [on_new_sstable on_end_of_sstable logging_consumer andthen fst snd]. rewrite Hstop.
  rewrite <- app_assoc. reflexivity.
Qed.

(** A sstable for a consumer that stops at no fragment, with no filter. *)
Lemma consume_reader_handed to_new to_end rd log sst no_skips :
  @consume_reader _ (logging_consumer (mk_answers to_new (fun _ => stop_iteration.no) to_end))
    next_partition rd log sst [] no_skips
  = returned (to_end, log ++ handed (to_new sst) sst rd).
Proof.
  destruct (to_new sst) eqn:Hnew; cbn [handed].
  - unfold consume_reader. cbn [on_new_sstable logging_consumer andthen fst snd to_new_sstable].
    rewrite Hnew.
    rewrite (consume_reader_loop_all next_partition (fun mf log => log ++ [log_consume mf]))
      by reflexivity.
    cbn [andthen on_end_of_sstable logging_consumer to_end_of_sstable].
    rewrite fold_left_log. unfold sstable_log. rewrite <- !app_assoc. reflexivity.
  - apply (consume_reader_stop_at_new_sstable
             (mk_answers to_new (fun _ => stop_iteration.no) to_end)), Hnew.
Qed.

Lemma consume_each_handed to_new to_end no_skips ssts : forall log,
  consume_each
    (fun rd sst consumer =>
       @consume_reader _
         (logging_consumer (mk_answers to_new (fun _ => stop_iteration.no) to_end))
         next_partition rd consumer sst [] no_skips)
    ssts log
  = returned (log ++ handed_each to_new to_end ssts).
Proof.
  induction ssts as [|s ssts IH]; intros log; cbn [consume_each handed_each].
  - rewrite app_nil_r. reflexivity.
  - rewrite consume_reader_handed. cbn [andthen fst snd]. destruct to_end.
    + rewrite IH, <- app_assoc. reflexivity.
    + rewrite app_nil_r. reflexivity.
Qed.

(** X7: a stop at [on_new_sstable].  A consumer that answers stop to
    [on_new_sstable] for a sstable is handed no fragment of it:
    [on_end_of_sstable] comes next, whatever the partition filter and
    whatever the consumer answers elsewhere.  So with no filter and a
    consumer that stops at no fragment, whatever it answers to
    [on_new_sstable] and to [on_end_of_sstable], each sstable it is told
    of is skipped in this way or handed over whole, by its answer to
    [on_new_sstable] for it; without [merge] the operation goes on to
    the next sstable as long as [on_end_of_sstable] does not answer stop,
    and with [merge] that answer is not looked at. *)
Theorem stop_at_new_sstable_skips_content to_new to_end sst ssts merge no_skips :
  (forall to_fragment partitions rd name log,
     to_new name = stop_iteration.yes ->
     @consume_reader _ (logging_consumer (mk_answers to_new to_fragment to_end))
       next_partition rd log name partitions no_skips
     = returned (to_end, log ++ [log_new_sstable name; log_end_of_sstable]))
  /\ @sstable_consumer_operation _
       (logging_consumer (mk_answers to_new (fun _ => stop_iteration.no) to_end))
       make_combined_reader next_partition (sst :: ssts) merge no_skips [] []
     = returned
         ([log_start_of_stream]
          ++ (if merge
              then handed (to_new None) None
                     (make_combined_reader (map fragments (sst :: ssts)))
              else handed_each to_new to_end (sst :: ssts))
          ++ [log_end_of_stream]).
Proof.
  split.
  - intros to_fragment partitions rd name log Hstop.
    apply (consume_reader_stop_at_new_sstable (mk_answers to_new to_fragment to_end)), Hstop.
  - unfold sstable_consumer_operation, consume_sstables.
    cbn [on_start_of_stream logging_consumer andthen app].
    destruct merge.
    + rewrite consume_reader_handed. cbn [andthen snd on_end_of_stream logging_consumer].
      rewrite <- app_assoc. reflexivity.
    + rewrite consume_each_handed. cbn [andthen on_end_of_stream logging_consumer].
      rewrite <- app_assoc. reflexivity.
Qed.

(** X8: a consumer that answers stop to [on_end_of_sstable], and to
    nothing else.  Without [merge] it is handed the first sstable and none
    of those that follow; with [merge] the answer is not looked at.  The
    end of the stream is announced in both cases. *)
Theorem stop_at_end_of_sstable_skips_the_rest sst ssts merge no_skips :
  @sstable_consumer_operation _
    (logging_consumer
       (mk_answers (fun _ => stop_iteration.no) (fun _ => stop_iteration.no) stop_iteration.yes))
    make_combined_reader next_partition (sst :: ssts) merge no_skips [] []
  = returned
      ([log_start_of_stream]
       ++ (if merge then sstable_log None (make_combined_reader (map fragments (sst :: ssts)))
           else sstable_log (Some (get_filename sst)) (fragments sst))
       ++ [log_end_of_stream]).
Proof.
  assert (Hreader : forall rd name log,
    @consume_reader _
      (logging_consumer
         (mk_answers (fun _ => stop_iteration.no) (fun _ => stop_iteration.no)
            stop_iteration.yes))
      next_partition rd log name [] no_skips
    = returned (stop_iteration.yes, log ++ sstable_log name rd)).
  { intros rd name log. unfold consume_reader.
    cbn [on_new_sstable logging_consumer andthen fst snd to_new_sstable].
    rewrite (consume_reader_loop_all next_partition (fun mf log => log ++ [log_consume mf]))
      by reflexivity.
    cbn [andthen on_end_of_sstable logging_consumer to_end_of_sstable].
    rewrite fold_left_log. unfold sstable_log. rewrite <- !app_assoc. reflexivity. }
  unfold sstable_consumer_operation, consume_sstables.
  cbn [on_start_of_stream logging_consumer andthen app].
  destruct merge; [|cbn [consume_each]]; rewrite Hreader;
    cbn [andthen fst snd on_end_of_stream logging_consumer];
    rewrite <- app_assoc; reflexivity.
Qed.

(** Fragments that start no partition go to a consumer that never stops,
    filter or not. *)
Lemma consume_pausable_inside partitions l rd : forall log skip,
  Forall (fun mf => is_partition_start mf = false) l ->
  @consume_pausable _ (logging_consumer never_stops) partitions (l ++ rd) log skip
  = @consume_pausable _ (logging_consumer never_stops) partitions rd
      (log ++ map log_consume l) skip.
Proof.
  induction l as [|mf l IH]; intros log skip Hl.
  - cbn [app map]. rewrite app_nil_r. reflexivity.
  - inversion Hl as [|? ? Hmf Hrest]; subst.
    cbn [app consume_pausable map].
    assert (Hstep :
      andthen (@consume _ (logging_consumer never_stops) mf log)
        (fun r => match fst r with
                  | stop_iteration.yes => returned (l ++ rd, snd r, skip)
                  | stop_iteration.no =>
                      @consume_pausable _ (logging_consumer never_stops) partitions (l ++ rd)
                        (snd r) skip
                  end)
      = @consume_pausable _ (logging_consumer never_stops) partitions rd
          (log ++ log_consume mf :: map log_consume l) skip).
    { cbn [consume logging_consumer andthen fst snd never_stops to_fragment].
      rewrite (IH _ _ Hrest), <- app_assoc. reflexivity. }
    destruct mf; try exact Hstep. discriminate.
Qed.

(** What comes between the two ends of a partition. *)
Lemma partition_fragments_inside p :
  exists body,
    partition_fragments p = mf_partition_start (p_start p) :: body ++ [mf_partition_end]
    /\ Forall (fun mf => is_partition_start mf = false) body
    /\ Forall (fun mf => is_end_of_partition mf = false) body.
Proof.
  exists (match p_static_row p with Some r => [mf_static_row r] | None => [] end
          ++ map element_fragment (p_elements p)).
  split; [unfold partition_fragments; cbn [app]; rewrite <- app_assoc; reflexivity|].
  split; apply Forall_app; split;
    try (destruct (p_static_row p); repeat constructor);
    apply List.Forall_forall; intros mf Hin; apply in_map_iff in Hin;
    destruct Hin as ([cr|rtc] & <- & _); reflexivity.
Qed.

Lemma drain_partition_inside body rd :
  Forall (fun mf => is_end_of_partition mf = false) body ->
  drain_partition (body ++ mf_partition_end :: rd) = rd.
Proof.
  induction body as [|mf body IH]; intros Hbody; [reflexivity|].
  inversion Hbody as [|? ? Hmf Hrest]; subst.
  cbn [app drain_partition]. rewrite Hmf. apply IH, Hrest.
Qed.

(** Two readers on which the first pause of the wrapper gives the same
    make the loop give the same. *)
Lemma consume_reader_loop_same_pause {S : Type} `{sstable_consumer S} fuel rd rd' (c c' : S)
    partitions no_skips :
  rd <> [] -> rd' <> [] ->
  consume_pausable partitions rd c false = consume_pausable partitions rd' c' false ->
  consume_reader_loop next_partition (Datatypes.S fuel) rd c partitions no_skips
  = consume_reader_loop next_partition (Datatypes.S fuel) rd' c' partitions no_skips.
Proof.
  intros Hrd Hrd' Hpause. destruct rd as [|mf rd], rd' as [|mf' rd']; try congruence.
  cbn [consume_reader_loop]. rewrite Hpause. reflexivity.
Qed.

(** A reader that the wrapper takes to its end with no stop ends the
    loop. *)
Lemma consume_reader_loop_to_the_end {S : Type} `{sstable_consumer S} fuel rd (c c' : S)
    partitions no_skips :
  consume_pausable partitions rd c false = returned ([], c', false) ->
  consume_reader_loop next_partition (Datatypes.S fuel) rd c partitions no_skips = returned c'.
Proof.
  intros Hpause. destruct rd as [|mf rd].
  - cbn in Hpause. injection Hpause as <-. reflexivity.
  - cbn [consume_reader_loop]. rewrite Hpause. cbn. destruct fuel; reflexivity.
Qed.

(** The loop over a reader of whole partitions, with a filter and
    [no_skips], for a consumer that never stops. *)
Lemma consume_reader_loop_filter k ks ps : forall fuel log,
  length ps < fuel ->
  @consume_reader_loop _ (logging_consumer never_stops) next_partition fuel
    (flat_map partition_fragments ps) log (k :: ks) true
  = returned (log ++ map log_consume (flat_map partition_fragments (kept (k :: ks) ps))).
Proof.
  assert (Hkept : forall p rd fuel log,
    partitions_find (k :: ks) (ps_key (p_start p)) = true ->
    @consume_reader_loop _ (logging_consumer never_stops) next_partition (Datatypes.S fuel)
      (partition_fragments p ++ rd) log (k :: ks) true
    = @consume_reader_loop _ (logging_consumer never_stops) next_partition (Datatypes.S fuel)
        rd (log ++ map log_consume (partition_fragments p)) (k :: ks) true).
  { intros p rd fuel log Hpass.
    destruct (partition_fragments_inside p) as (body & Hp & Hbody & _).
    assert (Hpause : forall skip,
      @consume_pausable _ (logging_consumer never_stops) (k :: ks)
        (partition_fragments p ++ rd) log skip
      = @consume_pausable _ (logging_consumer never_stops) (k :: ks) rd
          (log ++ map log_consume (partition_fragments p)) false).
    { intros skip. rewrite Hp. cbn [app consume_pausable]. rewrite Hpass.
      cbn [negb consume logging_consumer andthen fst snd never_stops to_fragment].
      rewrite (consume_pausable_inside (k :: ks) (body ++ [mf_partition_end]) rd).
      - cbn [map]. rewrite <- app_assoc. reflexivity.
      - apply Forall_app. split; [exact Hbody | repeat constructor]. }
    destruct rd as [|mf rd].
    - rewrite (consume_reader_loop_to_the_end fuel _ log
                 (log ++ map log_consume (partition_fragments p))).
      + destruct fuel; reflexivity.
      + rewrite Hpause. reflexivity.
    - apply consume_reader_loop_same_pause; [rewrite Hp; discriminate | discriminate |].
      apply Hpause. }
  induction ps as [|p ps IH]; intros fuel log Hfuel.
  - destruct fuel; cbn; rewrite app_nil_r; reflexivity.
  - destruct fuel as [|fuel]; [cbn in Hfuel; lia|]. cbn [length] in Hfuel.
    cbn [flat_map].
    change (kept (k :: ks) (p :: ps))
      with (if partitions_find (k :: ks) (ps_key (p_start p))
            then p :: kept (k :: ks) ps else kept (k :: ks) ps).
    destruct (partitions_find (k :: ks) (ps_key (p_start p))) eqn:Hpass.
    + rewrite (Hkept p _ fuel log Hpass), (IH (Datatypes.S fuel)) by lia.
      cbn [flat_map]. rewrite (map_app log_consume), <- app_assoc. reflexivity.
    + destruct (partition_fragments_inside p) as (body & Hp & _ & Hbody).
      rewrite Hp. cbn [app consume_reader_loop consume_pausable]. rewrite Hpass.
      cbn [negb andthen].
      rewrite <- app_assoc. cbn [app].
      destruct (bool_decide _); cbn [negb andb];
        rewrite (drain_partition_inside body _ Hbody); apply IH; lia.
Qed.

(** X9: a reader of whole partitions is read with a partition filter and
    [no_skips], for a consumer that never stops.  The consumer is handed
    the partitions whose key is in the filter, each whole and in order,
    and no fragment of the others. *)
Theorem filter_keeps_the_partitions ps k ks sst log :
  @consume_reader _ (logging_consumer never_stops) next_partition
    (flat_map partition_fragments ps) log sst (k :: ks) true
  = returned
      (stop_iteration.no,
       log ++ sstable_log sst (flat_map partition_fragments (kept (k :: ks) ps))).
Proof.
  unfold consume_reader.
  cbn [on_new_sstable logging_consumer andthen fst snd never_stops to_new_sstable].
  rewrite consume_reader_loop_filter.
  - cbn [andthen on_end_of_sstable logging_consumer to_end_of_sstable].
    unfold sstable_log. rewrite <- !app_assoc. reflexivity.
  - assert (Hlen : forall l, length l <= length (flat_map partition_fragments l)).
    { induction l as [|p l IH]; cbn [flat_map length]; [lia|].
      rewrite length_app. destruct (partition_fragments_inside p) as (body & -> & _).
      cbn [length]. lia. }
    specialize (Hlen ps). lia.
Qed.

(** Up to the end of a partition, a consumer that stops there is handed
    every fragment; the wrapper pauses after the [partition_end]. *)
Lemma consume_pausable_to_partition_end body rd : forall log skip,
  Forall (fun mf => is_end_of_partition mf = false) body ->
  @consume_pausable _ (logging_consumer stops_at_partition_end) []
    (body ++ mf_partition_end :: rd) log skip
  = returned (rd, log ++ map log_consume (body ++ [mf_partition_end]), skip).
Proof.
  induction body as [|mf body IH]; intros log skip Hbody.
  - reflexivity.
  - inversion Hbody as [|? ? Hmf Hrest]; subst.
    cbn [app consume_pausable map].
    assert (Hstep :
      andthen (@consume _ (logging_consumer stops_at_partition_end) mf log)
        (fun r => match fst r with
                  | stop_iteration.yes => returned (body ++ mf_partition_end :: rd, snd r, skip)
                  | stop_iteration.no =>
                      @consume_pausable _ (logging_consumer stops_at_partition_end) []
                        (body ++ mf_partition_end :: rd) (snd r) skip
                  end)
      = returned
          (rd, log ++ log_consume mf :: map log_consume (body ++ [mf_partition_end]), skip)).
    { cbn [consume logging_consumer andthen fst snd stops_at_partition_end to_fragment].
      destruct mf; try discriminate; cbn [stop_at_partition_end];
        rewrite (IH _ _ Hrest), <- app_assoc; reflexivity. }
    destruct mf; exact Hstep.
Qed.

(** X10: a reader of whole partitions with no filter, for a consumer that
    answers stop to each [partition_end] and to nothing else.  The
    consumer is handed the first partition.  When no partition follows,
    the sstable ends there; when one does, the consumer is handed a second
    [partition_end], and its stop to that one ends the sstable: it is
    handed nothing of the partitions that follow. *)
Theorem stop_at_partition_end_ends_the_sstable p ps sst no_skips log :
  @consume_reader _ (logging_consumer stops_at_partition_end) next_partition
    (flat_map partition_fragments (p :: ps)) log sst [] no_skips
  = returned
      (stop_iteration.no,
       log ++ [log_new_sstable sst]
       ++ map log_consume (partition_fragments p)
       ++ match ps with
          | [] => []
          | _ :: _ => [log_consume mf_partition_end]
          end
       ++ [log_end_of_sstable]).
Proof.
  destruct (partition_fragments_inside p) as (body & Hp & _ & Hbody).
  unfold consume_reader.
  cbn [on_new_sstable logging_consumer andthen fst snd stops_at_partition_end to_new_sstable
       flat_map length].
  assert (Hpause :
    @consume_pausable _ (logging_consumer stops_at_partition_end) []
      (partition_fragments p ++ flat_map partition_fragments ps)
      (log ++ [log_new_sstable sst]) false
    = returned
        (flat_map partition_fragments ps,
         (log ++ [log_new_sstable sst]) ++ map log_consume (partition_fragments p), false)).
  { rewrite Hp. cbn [app consume_pausable consume logging_consumer andthen fst snd
                     stops_at_partition_end to_fragment stop_at_partition_end].
    rewrite <- app_assoc. cbn [app].
    rewrite (consume_pausable_to_partition_end body _ _ _ Hbody).
    cbn [map]. rewrite <- !app_assoc. reflexivity. }
  assert (Hloop : forall fuel,
    @consume_reader_loop _ (logging_consumer stops_at_partition_end) next_partition
      (Datatypes.S fuel)
      (partition_fragments p ++ flat_map partition_fragments ps)
      (log ++ [log_new_sstable sst]) [] no_skips
    = returned
        ((log ++ [log_new_sstable sst]) ++ map log_consume (partition_fragments p)
         ++ match ps with
            | [] => []
            | _ :: _ => [log_consume mf_partition_end]
            end)).
  { intros fuel.
    assert (Hne : partition_fragments p ++ flat_map partition_fragments ps <> [])
      by (rewrite Hp; discriminate).
    destruct (partition_fragments p ++ flat_map partition_fragments ps) as [|mf rd] eqn:Hrd;
      [congruence|].
    cbn [consume_reader_loop]. rewrite Hpause. cbn [andthen].
    destruct ps as [|p' ps].
    - cbn. rewrite app_nil_r. destruct fuel; reflexivity.
    - destruct (partition_fragments_inside p') as (body' & Hp' & _).
      cbn [flat_map]. rewrite Hp'. cbn. rewrite <- !app_assoc. reflexivity. }
  rewrite Hloop. cbn [andthen on_end_of_sstable logging_consumer to_end_of_sstable
                      stops_at_partition_end].
  rewrite <- !app_assoc. reflexivity.
Qed.

End HandedOver.

Lemma stop_at_new_sstable_skips_content_witness :
  @consume_reader _
    (logging_consumer
       (mk_answers (fun _ => stop_iteration.yes) (fun _ => stop_iteration.no) stop_iteration.yes))
    (fun rd => rd) (fragments whole_sstable) [] (Some (get_filename whole_sstable))
    [mk_decorated_key 2%Z "ab"] false
  = returned
      (stop_iteration.yes,
       [] ++ [log_new_sstable (Some (get_filename whole_sstable)); log_end_of_sstable]).
Proof.
  apply (proj1 (stop_at_new_sstable_skips_content (@concat _) (fun rd => rd)
                  (fun _ => stop_iteration.yes) stop_iteration.yes whole_sstable [] false
                  false)).
  reflexivity.
Defined.
(** ** The partition filter: [get_partitions] *)

Section PartitionFilter.

Context (dk_from_hex : string -> outcome decorated_key).
Context (read_buffers : string -> list string).

Lemma holds_append s c s' : holds (s +:+ String c s') = true.
Proof. destruct s; reflexivity. Qed.

Lemma share_0 buf : share 0 buf = EmptyString.
Proof. destruct buf; reflexivity. Qed.

Lemma length_trim_front n : forall buf,
  String.length (trim_front n buf) = String.length buf - n.
Proof.
  induction n as [|n IH]; intros [|c buf]; cbn [trim_front String.length]; try lia.
  rewrite IH. lia.
Qed.

(** The characters before the first white space join the run that is
    not ended. *)
Lemma split_words_run buf : forall pk,
  split_words pk buf
  = split_words (pk +:+ share (find_space buf) buf) (trim_front (find_space buf) buf).
Proof.
  induction buf as [|c buf IH]; intros pk.
  - cbn. rewrite append_empty. reflexivity.
  - cbn [find_space]. destruct (isspace c) eqn:Hc.
    + rewrite share_0, append_empty. reflexivity.
    + cbn [split_words trim_front]. rewrite Hc, IH.
      unfold share. cbn [substring]. fold (share (find_space buf) buf).
      rewrite append_append. reflexivity.
Qed.

(** What is left after those characters is nothing or starts with white
    space. *)
Lemma trim_front_find_space buf :
  (trim_front (find_space buf) buf = EmptyString /\ find_space buf = String.length buf)
  \/ (exists c buf', trim_front (find_space buf) buf = String c buf' /\ isspace c = true
                     /\ find_space buf < String.length buf).
Proof.
  induction buf as [|c buf IH]; [left; split; reflexivity|].
  cbn [find_space]. destruct (isspace c) eqn:Hc.
  - right. exists c, buf. cbn. split; [reflexivity|]. split; [exact Hc | lia].
  - cbn [trim_front String.length].
    destruct IH as [[Hrest Hlen] | (c' & buf' & Hrest & Hc' & Hlen)].
    + left. split; [exact Hrest | lia].
    + right. exists c', buf'. split; [exact Hrest|]. split; [exact Hc' | lia].
Qed.

Lemma holds_share n c buf : holds (share (Datatypes.S n) (String c buf)) = true.
Proof. reflexivity. Qed.

(** The loop over one buffer, given a round for each character and one
    more: the runs that white space ends in the buffer are added to the
    set in order, and the run that is not ended is left in [pk_buf]. *)
Lemma scan_buffer_words fuel : forall buf pk_buf partitions,
  String.length buf < fuel ->
  scan_buffer dk_from_hex fuel buf pk_buf partitions
  = andthen (emplace_each dk_from_hex (fst (split_words pk_buf buf)) partitions)
      (fun partitions' => returned (snd (split_words pk_buf buf), partitions')).
Proof.
  induction fuel as [|fuel IH]; intros buf pk partitions Hfuel; [lia|].
  cbn [scan_buffer]. cbv zeta.
  assert (Hnext : forall b p ps,
    String.length b < String.length buf ->
    (if holds b then scan_buffer dk_from_hex fuel b p ps else returned (p, ps))
    = andthen (emplace_each dk_from_hex (fst (split_words p b)) ps)
        (fun ps' => returned (snd (split_words p b), ps'))).
  { intros b p ps Hb. destruct b as [|c b]; [reflexivity|]. cbn [holds]. apply IH. lia. }
  destruct (Nat.eqb (find_space buf) 0 && negb (holds pk)) eqn:Hskip.
  - apply andb_true_iff in Hskip. destruct Hskip as [Hlen Hpk].
    apply Nat.eqb_eq in Hlen. destruct pk; [|discriminate].
    destruct buf as [|c buf]; [reflexivity|].
    cbn [find_space] in Hlen. destruct (isspace c) eqn:Hc; [|discriminate].
    cbn [trim_front]. rewrite Hnext by (cbn; lia).
    cbn [split_words holds fst snd]. rewrite Hc. reflexivity.
  - set (pk' := pk +:+ share (find_space buf) buf).
    assert (Hpk' : (if holds pk then pk' else share (find_space buf) buf) = pk').
    { subst pk'. destruct pk; reflexivity. }
    assert (Hholds : holds pk' = true).
    { subst pk'. destruct pk as [|c pk]; [|reflexivity].
      cbn [holds negb] in Hskip. rewrite andb_true_r in Hskip.
      apply Nat.eqb_neq in Hskip. destruct buf as [|c buf]; [cbn in Hskip; congruence|].
      cbn [find_space] in *. destruct (isspace c); [congruence | reflexivity]. }
    rewrite !Hpk', (split_words_run buf pk). fold pk'.
    destruct (trim_front_find_space buf) as [[Hrest Hlen] | (c & buf' & Hrest & Hc & Hlen)].
    + rewrite Hrest, Hlen, Nat.eqb_refl. reflexivity.
    + rewrite Hrest. apply Nat.lt_neq, Nat.eqb_neq in Hlen. rewrite Hlen.
      cbn [negb trim_front split_words fst snd]. rewrite Hc, Hholds.
      cbn [fst snd emplace_each].
      destruct (emplace_key dk_from_hex pk' partitions) as [ps'| |]; cbn [andthen];
        [|reflexivity|reflexivity].
      apply Hnext.
      pose proof (length_trim_front (find_space buf) buf) as Hl. rewrite Hrest in Hl.
      cbn [String.length] in Hl. lia.
Qed.

Lemma split_words_append s1 s2 : forall pk,
  split_words pk (s1 +:+ s2)
  = (fst (split_words pk s1) ++ fst (split_words (snd (split_words pk s1)) s2),
     snd (split_words (snd (split_words pk s1)) s2)).
Proof.
  induction s1 as [|c s1 IH]; intros pk.
  - cbn [split_words fst snd app]. change (EmptyString +:+ s2) with s2.
    destruct (split_words pk s2); reflexivity.
  - change (String c s1 +:+ s2) with (String c (s1 +:+ s2)). cbn [split_words].
    destruct (isspace c); rewrite IH; cbn [fst snd]; [|reflexivity].
    destruct (holds pk); reflexivity.
Qed.

Lemma emplace_each_app keys1 keys2 : forall partitions,
  emplace_each dk_from_hex (keys1 ++ keys2) partitions
  = andthen (emplace_each dk_from_hex keys1 partitions) (emplace_each dk_from_hex keys2).
Proof.
  induction keys1 as [|k keys1 IH]; intros partitions; cbn [app emplace_each andthen];
    [reflexivity|].
  destruct (emplace_key dk_from_hex k partitions); cbn [andthen]; [apply IH | | ]; reflexivity.
Qed.

(** The loop over the buffers of the stream: what it does depends on the
    buffers only through the text they make up. *)
Lemma scan_buffers_words buffers : forall pk_buf partitions,
  scan_buffers dk_from_hex buffers pk_buf partitions
  = andthen
      (emplace_each dk_from_hex
         (fst (split_words pk_buf (String.concat EmptyString (until_empty buffers))))
         partitions)
      (fun partitions' =>
         returned
           (snd (split_words pk_buf (String.concat EmptyString (until_empty buffers))),
            partitions')).
Proof.
  induction buffers as [|buf buffers IH]; intros pk partitions; [reflexivity|].
  cbn [scan_buffers until_empty]. destruct (holds buf); [|reflexivity].
  rewrite scan_buffer_words by lia.
  rewrite concat_cons, split_words_append. cbn [fst snd]. rewrite emplace_each_app.
  destruct (emplace_each dk_from_hex (fst (split_words pk buf)) partitions); cbn [andthen fst snd];
    [apply IH | reflexivity | reflexivity].
Qed.

(** X11: the partition filter is made of the values of [--partition] and
    then of the words of the partitions file, the maximal runs of
    characters that are not white space, each read as a hex key in turn.
    The buffers in which the stream yields the file play no part, and
    neither does white space at either end of the file or in a row; a
    file that is not there makes the call throw once the values of
    [--partition] are read. *)
Theorem get_partitions_reads_words partition name fs :
  get_partitions dk_from_hex read_buffers partition (Some name) fs
  = match fs !! name with
    | Some content =>
        emplace_each dk_from_hex
          (partition ++ words (String.concat EmptyString (until_empty (read_buffers content))))
          []
    | None =>
        andthen (emplace_each dk_from_hex partition [])
          (fun _ => thrown "No such file or directory")
    end.
Proof.
  unfold get_partitions, open_file_dma.
  destruct (fs !! name) as [content|] eqn:Hname; cbn [create exclusive ro andb];
    [|reflexivity].
  rewrite emplace_each_app.
  destruct (emplace_each dk_from_hex partition []) as [partitions| |]; cbn [andthen];
    [|reflexivity|reflexivity].
  rewrite Hname. cbn [default]. rewrite scan_buffers_words. unfold words.
  set (r := split_words EmptyString _).
  destruct (holds (snd r)) eqn:Hpending.
  - rewrite emplace_each_app.
    destruct (emplace_each dk_from_hex (fst r) partitions) as [ps| |]; cbn [andthen fst snd];
      [|reflexivity|reflexivity].
    rewrite Hpending. cbn [emplace_each].
    destruct (emplace_key dk_from_hex (snd r) ps); reflexivity.
  - destruct (emplace_each dk_from_hex (fst r) partitions) as [ps| |]; cbn [andthen fst snd];
      [|reflexivity|reflexivity].
    rewrite Hpending. reflexivity.
Qed.

End PartitionFilter.
(** ** The JSON the dumps print *)

Lemma json_value_scalar e :
  match e with
  | json.StartObject | json.StartArray | json.EndObject | json.EndArray | json.Key _ => False
  | _ => True
  end ->
  json_value [e].
Proof.
  intros He st st' rest Hst. cbn [app json_run].
  destruct e; try contradiction; cbn [json_step]; rewrite Hst; reflexivity.
Qed.

Lemma json_value_string s : json_value [json.String s].
Proof. apply json_value_scalar. exact I. Qed.

Lemma json_value_object m :
  json_members m -> json_value (json.StartObject :: m ++ [json.EndObject]).
Proof.
  intros Hm st st' rest Hst. cbn [app json_run json_step]. rewrite Hst. cbn [option_map].
  rewrite <- app_assoc, Hm. reflexivity.
Qed.

Lemma json_value_array es :
  json_elements es -> json_value (json.StartArray :: es ++ [json.EndArray]).
Proof.
  intros Hes st st' rest Hst. cbn [app json_run json_step]. rewrite Hst. cbn [option_map].
  rewrite <- app_assoc, Hes. reflexivity.
Qed.

Lemma json_members_nil : json_members [].
Proof. intros st rest. reflexivity. Qed.

Lemma json_members_app m1 m2 : json_members m1 -> json_members m2 -> json_members (m1 ++ m2).
Proof. intros H1 H2 st rest. rewrite <- app_assoc, H1, H2. reflexivity. Qed.

Lemma json_members_key k v : json_value v -> json_members (json.Key k :: v).
Proof. intros Hv st rest. cbn [app json_run json_step]. apply Hv. reflexivity. Qed.

Lemma json_members_cons k v m :
  json_value v -> json_members m -> json_members (json.Key k :: v ++ m).
Proof. intros Hv Hm. apply (json_members_app (json.Key k :: v)); [apply json_members_key, Hv | exact Hm]. Qed.

Lemma json_members_flat_map {A : Type} (f : A -> list json.event) l :
  (forall a, json_members (f a)) -> json_members (flat_map f l).
Proof.
  intros Hf. induction l as [|a l IH]; [apply json_members_nil|].
  cbn [flat_map]. apply json_members_app; [apply Hf | exact IH].
Qed.

Lemma json_elements_nil : json_elements [].
Proof. intros st rest. reflexivity. Qed.

Lemma json_elements_app es1 es2 :
  json_elements es1 -> json_elements es2 -> json_elements (es1 ++ es2).
Proof. intros H1 H2 st rest. rewrite <- app_assoc, H1, H2. reflexivity. Qed.

Lemma json_elements_value v : json_value v -> json_elements v.
Proof. intros Hv st rest. apply Hv. reflexivity. Qed.

Lemma json_elements_flat_map {A : Type} (f : A -> list json.event) l :
  (forall a, json_value (f a)) -> json_elements (flat_map f l).
Proof.
  intros Hf. induction l as [|a l IH]; [apply json_elements_nil|].
  cbn [flat_map]. apply json_elements_app; [apply json_elements_value, Hf | exact IH].
Qed.

Lemma json_value_document v : json_value v -> json_document v = true.
Proof.
  intros Hv. unfold json_document. rewrite <- (app_nil_r v), (Hv [expect_root] [] []); reflexivity.
Qed.

Lemma json_value_object_eq l m :
  l = json.StartObject :: m ++ [json.EndObject] -> json_members m -> json_value l.
Proof. intros ->. apply json_value_object. Qed.

Lemma json_members_eq l m : l = m -> json_members m -> json_members l.
Proof. intros ->. exact (fun H => H). Qed.

(** The members [m], however the lists are nested. *)
Ltac json_members_as m :=
  apply (json_members_eq _ m);
  [cbn [app json_writer.SstableKey]; repeat (progress (rewrite <- ?app_assoc; cbn [app]));
   reflexivity|].

(** The object whose members are [m], however the lists are nested. *)
Ltac json_object m :=
  apply (json_value_object_eq _ m);
  [cbn [app]; repeat (progress (rewrite <- ?app_assoc; cbn [app])); reflexivity|].

Section DumpDataJson.

Context (X : externals).

Lemma write_ttl_expiry_json ttl expiry : json_members (json_dumper.write_ttl_expiry X ttl expiry).
Proof. intros st rest. reflexivity. Qed.

Lemma write_key_json k : json_value (json_dumper.write_key X k).
Proof. intros st st' rest Hst. cbn. rewrite Hst. reflexivity. Qed.

Lemma PartitionKey_json dk : json_value (json_dumper.PartitionKey X dk).
Proof. intros st st' rest Hst. cbn. rewrite Hst. reflexivity. Qed.

Lemma write_tombstone_json t : json_value (json_dumper.write_tombstone X t).
Proof. intros st st' rest Hst. destruct t; cbn; rewrite Hst; reflexivity. Qed.

Lemma write_row_marker_json m : json_value (json_dumper.write_row_marker X m).
Proof. intros st st' rest Hst. destruct m; cbn; rewrite Hst; reflexivity. Qed.

Lemma write_atomic_cell_json c ty : json_value (json_dumper.write_atomic_cell X c ty).
Proof.
  intros st st' rest Hst.
  destruct c as [ts v [[ttl e]|]|ts dt]; cbn; rewrite Hst; reflexivity.
Qed.

Lemma write_counter_shards_json shards : json_value (json_dumper.write_counter_shards shards).
Proof.
  apply (json_value_array (flat_map _ shards)), json_elements_flat_map.
  intros shard st st' rest Hst. cbn. rewrite Hst. reflexivity.
Qed.

Lemma write_collection_cells_json ty cells : forall i,
  json_members (json_dumper.write_collection_cells X ty i cells).
Proof.
  induction cells as [|[k v] cells IH]; intros i; [apply json_members_nil|].
  cbn [json_dumper.write_collection_cells].
  apply json_members_cons; [apply write_atomic_cell_json | apply IH].
Qed.

Lemma write_cell_json cell cdef : json_value (json_dumper.write_cell X cell cdef).
Proof.
  destruct cell as [c|ts v|ts shards|tomb cells|]; unfold json_dumper.write_cell.
  - apply write_atomic_cell_json.
  - intros st st' rest Hst. cbn. rewrite Hst. reflexivity.
  - unfold json_dumper.write_counter_cell.
    json_object
             ([json.Key "is_live"; json.Bool true; json.Key "timestamp"; json.Int64 ts]
              ++ json.Key "shards" :: json_dumper.write_counter_shards shards).
    apply json_members_app; [intros st rest; reflexivity|].
    apply json_members_key, write_counter_shards_json.
  - unfold json_dumper.write_collection.
    json_object
             ((if tombstone_bool tomb
               then json.Key "tombstone" :: json_dumper.write_tombstone X tomb else [])
              ++ [json.Key "cells"]
              ++ (if collection_known X (type cdef)
                  then [json.StartObject]
                       ++ json_dumper.write_collection_cells X (type cdef) 0 cells
                       ++ [json.EndObject]
                  else [json.String "<unknown>"])).
    apply json_members_app.
    + destruct (tombstone_bool tomb); [|apply json_members_nil].
      apply json_members_key, write_tombstone_json.
    + apply json_members_key. destruct (collection_known X (type cdef)).
      * apply json_value_object, write_collection_cells_json.
      * apply json_value_string.
  - apply json_value_string.
Qed.

Lemma write_row_json r k : json_value (json_dumper.write_row X r k).
Proof.
  apply (json_value_object (flat_map _ r)), json_members_flat_map.
  intros [i cell]. cbv zeta. apply json_members_key, write_cell_json.
Qed.

Lemma write_clustering_row_json cr : json_value (json_dumper.write_clustering_row X cr).
Proof.
  unfold json_dumper.write_clustering_row.
  json_object
           ([json.Key "type"; json.String "clustering-row"]
            ++ (json.Key "key" :: json_dumper.write_key X (cr_key cr))
            ++ (if row_tombstone_bool X (cr_tomb cr) then
                  json.Key "tombstone" :: json_dumper.write_tombstone X (regular (cr_tomb cr))
                  ++ json.Key "shadowable_tombstone"
                     :: json_dumper.write_tombstone X (shadowable (cr_tomb cr))
                else [])
            ++ (if negb (marker_is_missing (cr_marker cr)) then
                  json.Key "marker" :: json_dumper.write_row_marker X (cr_marker cr)
                else [])
            ++ json.Key "columns" :: json_dumper.write_row X (cr_cells cr) regular_column).
  repeat apply json_members_app.
  - intros st rest. reflexivity.
  - apply json_members_key, write_key_json.
  - destruct (row_tombstone_bool X (cr_tomb cr)); [|apply json_members_nil].
    apply json_members_cons; [apply write_tombstone_json|].
    apply json_members_key, write_tombstone_json.
  - destruct (negb (marker_is_missing (cr_marker cr))); [|apply json_members_nil].
    apply json_members_key, write_row_marker_json.
  - apply json_members_key, write_row_json.
Qed.

Lemma write_range_tombstone_change_json rtc :
  json_value (json_dumper.write_range_tombstone_change X rtc).
Proof.
  unfold json_dumper.write_range_tombstone_change.
  json_object
           ([json.Key "type"; json.String "range-tombstone-change"]
            ++ match rtc_key rtc with
               | Some k => json.Key "key" :: json_dumper.write_key X k
               | None => []
               end
            ++ [json.Key "weight"; json.Int (bound_weight_to_int (rtc_bound_weight rtc))]
            ++ json.Key "tombstone" :: json_dumper.write_tombstone X (rtc_tombstone rtc)).
  repeat apply json_members_app.
  - intros st rest. reflexivity.
  - destruct (rtc_key rtc); [|apply json_members_nil].
    apply json_members_key, write_key_json.
  - intros st rest. reflexivity.
  - apply json_members_key, write_tombstone_json.
Qed.

(** What the dumper prints for a partition is one JSON object. *)
Lemma partition_events_json p : json_value (partition_events X p).
Proof.
  unfold partition_events.
  json_object
           ((json.Key "key" :: json_dumper.PartitionKey X (ps_key (p_start p)))
            ++ (if tombstone_bool (partition_tombstone (p_start p))
                then json.Key "tombstone"
                     :: json_dumper.write_tombstone X (partition_tombstone (p_start p))
                else [])
            ++ match p_static_row p with
               | Some r => json.Key "static_row" :: json_dumper.write_row X r static_column
               | None => []
               end
            ++ match p_elements p with
               | [] => []
               | _ :: _ =>
                   [json.Key "clustering_elements"; json.StartArray]
                   ++ flat_map (element_events X) (p_elements p)
                   ++ [json.EndArray]
               end).
  repeat apply json_members_app.
  - apply json_members_key, PartitionKey_json.
  - destruct (tombstone_bool _); [|apply json_members_nil].
    apply json_members_key, write_tombstone_json.
  - destruct (p_static_row p); [|apply json_members_nil].
    apply json_members_key, write_row_json.
  - destruct (p_elements p) as [|e es]; [apply json_members_nil|].
    apply (json_members_key _ (json.StartArray :: _ ++ [json.EndArray])).
    apply json_value_array, json_elements_flat_map.
    intros [cr|rtc]; [apply write_clustering_row_json | apply write_range_tombstone_change_json].
Qed.

Context (make_combined_reader : list flat_mutation_reader_v2 -> flat_mutation_reader_v2).
Context (next_partition : flat_mutation_reader_v2 -> flat_mutation_reader_v2).

(** What the dumper prints for a reader of whole partitions, from
    [on_new_sstable] to [on_end_of_sstable], is one member of the object
    of the sstables. *)
Lemma consume_reader_json rd sst no_skips d :
  whole rd ->
  exists m b,
    @consume_reader _ (json_dumper_consumer X) next_partition rd d sst [] no_skips
    = returned (stop_iteration.no, json_dumper.mk (json_dumper._writer d ++ m) b)
    /\ json_members m.
Proof.
  intros [ps ->]. unfold consume_reader.
  cbn [on_new_sstable json_dumper_consumer andthen fst snd json_dumper.on_new_sstable].
  rewrite (consume_reader_loop_all next_partition (fun mf d => dumps X mf d))
    by (intros mf d'; destruct mf; reflexivity).
  unfold json_dumper.put at 1.
  destruct (dump_partitions X
              (json_dumper._writer d ++ json_dumper.SstableKey sst ++ [json.StartArray])
              (json_dumper._clustering_array_created d) ps) as [b Hb].
  rewrite Hb.
  cbn [andthen on_end_of_sstable json_dumper_consumer].
  unfold json_dumper.on_end_of_sstable, json_dumper.put.
  cbn [json_dumper._writer json_dumper._clustering_array_created].
  exists (json_dumper.SstableKey sst
          ++ json.StartArray :: flat_map (partition_events X) ps ++ [json.EndArray]), b.
  split; [rewrite <- !app_assoc; cbn [app]; reflexivity|].
  assert (Harray : json_value
            (json.StartArray :: flat_map (partition_events X) ps ++ [json.EndArray])).
  { apply json_value_array, json_elements_flat_map, partition_events_json. }
  destruct sst; apply json_members_key, Harray.
Qed.

Lemma consume_each_json no_skips ssts : forall d,
  Forall (fun s => whole (fragments s)) ssts ->
  exists m b,
    consume_each
      (fun rd sst consumer =>
         @consume_reader _ (json_dumper_consumer X) next_partition rd consumer sst [] no_skips)
      ssts d
    = returned (json_dumper.mk (json_dumper._writer d ++ m) b)
    /\ json_members m.
Proof.
  induction ssts as [|s ssts IH]; intros d Hwhole.
  - exists [], (json_dumper._clustering_array_created d).
    split; [destruct d; cbn; rewrite app_nil_r; reflexivity | apply json_members_nil].
  - inversion Hwhole as [|? ? Hs Hssts]; subst.
    destruct (consume_reader_json (fragments s) (Some (get_filename s)) no_skips d Hs)
      as (m1 & b1 & Hreader & Hm1).
    destruct (IH (json_dumper.mk (json_dumper._writer d ++ m1) b1) Hssts)
      as (m2 & b2 & Heach & Hm2).
    exists (m1 ++ m2), b2. cbn [consume_each]. rewrite Hreader. cbn [andthen fst snd].
    rewrite Heach. cbn [json_dumper._writer]. rewrite <- app_assoc.
    split; [reflexivity | apply json_members_app; assumption].
Qed.

(** X12: [dump-data] with JSON output and no partition filter, over one
    sstable or more whose readers yield whole partitions, or whose
    combined reader does with [merge]: the operation returns, and what it
    has printed is one JSON document, whatever cells the rows hold. *)
Theorem dump_data_prints_a_json_document sst ssts (merge no_skips b : bool) :
  (if merge then whole (make_combined_reader (map fragments (sst :: ssts)))
   else Forall (fun s => whole (fragments s)) (sst :: ssts)) ->
  exists d,
    @sstable_consumer_operation _ (json_dumper_consumer X) make_combined_reader next_partition
      (sst :: ssts) merge no_skips [] (json_dumper.init b)
    = returned d
    /\ json_document (json_dumper._writer d) = true.
Proof.
  intros Hwhole.
  unfold sstable_consumer_operation, consume_sstables.
  cbn [on_start_of_stream json_dumper_consumer andthen].
  set (d0 := json_dumper.on_start_of_stream (json_dumper.init b)).
  assert (Hrun : exists m b',
    (if merge then
       andthen
         (@consume_reader _ (json_dumper_consumer X) next_partition
            (make_combined_reader (map fragments (sst :: ssts))) d0 None [] no_skips)
         (fun r => returned (snd r))
     else
       consume_each
         (fun rd sst consumer =>
            @consume_reader _ (json_dumper_consumer X) next_partition rd consumer sst []
              no_skips)
         (sst :: ssts) d0)
    = returned (json_dumper.mk (json_dumper._writer d0 ++ m) b')
    /\ json_members m).
  { destruct merge.
    - destruct (consume_reader_json _ None no_skips d0 Hwhole) as (m & b' & Hreader & Hm).
      exists m, b'. rewrite Hreader. split; [reflexivity | exact Hm].
    - apply consume_each_json, Hwhole. }
  destruct Hrun as (m & b' & Hrun & Hm). rewrite Hrun.
  cbn [andthen on_end_of_stream json_dumper_consumer].
  eexists. split; [reflexivity|].
  subst d0.
  unfold json_dumper.on_end_of_stream, json_dumper.on_start_of_stream, json_dumper.put,
    json_dumper.init.
  cbn [json_dumper._writer json_dumper._clustering_array_created app].
  apply json_value_document.
  json_object (json.Key "sstables" :: json.StartObject :: m ++ [json.EndObject]).
  apply json_members_key, json_value_object, Hm.
Qed.

End DumpDataJson.

Lemma dump_data_prints_a_json_document_witness :
  exists d,
    @sstable_consumer_operation _ (json_dumper_consumer sample.X) (@concat _) (fun rd => rd)
      [whole_sstable] false false [] (json_dumper.init false)
    = returned d
    /\ json_document (json_dumper._writer d) = true.
Proof.
  apply (dump_data_prints_a_json_document sample.X (@concat _) (fun rd => rd) whole_sstable []
           false false false).
  constructor; [exists whole_partitions; reflexivity | constructor].
Defined.

(** The frame of every dump: the object of the sstables, one member for
    each. *)
Lemma stream_json {A : Type} (f : A -> list json.event) (l : list A) :
  (forall a, json_members (f a)) ->
  json_document (json_writer.StartStream ++ flat_map f l ++ json_writer.EndStream) = true.
Proof.
  intros Hf. apply json_value_document.
  json_object (json.Key "sstables" :: json.StartObject :: flat_map f l ++ [json.EndObject]).
  apply json_members_key, json_value_object, json_members_flat_map, Hf.
Qed.

Lemma json_writer_PartitionKey_json X pkey token :
  json_value (json_writer.PartitionKey X pkey token).
Proof.
  intros st st' rest Hst. destruct token; cbn; rewrite Hst; reflexivity.
Qed.

(** The key the dumper of [dump-data] prints is the one of the writer,
    with the token. *)
Lemma PartitionKey_with_token X dk :
  json_dumper.PartitionKey X dk = json_writer.PartitionKey X (key dk) (Some (token dk)).
Proof. reflexivity. Qed.

Lemma json_elements_scalars {A : Type} (f : A -> json.event) (l : list A) :
  (forall a, json_value [f a]) -> json_elements (map f l).
Proof.
  intros Hf. induction l as [|a l IH]; [apply json_elements_nil|].
  apply (json_elements_app [f a]); [apply json_elements_value, Hf | exact IH].
Qed.

Section DumpComponentsJson.

Context (X : externals).
Context (index_entries : sstable -> list index_entry).
Context (get_compression_info : sstable -> compression).
Context (get_summary : sstable -> summary).
Context (get_scylla_metadata :
  sstable -> option (list (scylla_metadata_type * scylla_metadata_value))).
Context (sstable_feature_value : sstable_feature -> Z).

(** X13: [dump-index] over one sstable or more prints one JSON document,
    whatever the index holds; with no sstable it throws. *)
Theorem dump_index_prints_a_json_document sstables :
  match dump_index_operation X index_entries sstables with
  | returned events => sstables <> [] /\ json_document events = true
  | thrown msg => sstables = [] /\ msg = "error: no sstables specified on the command line"
  | out_of_fuel => False
  end.
Proof.
  destruct sstables as [|sst ssts]; [split; reflexivity|].
  cbn [dump_index_operation]. split; [discriminate|].
  apply stream_json. intros s.
  json_members_as
    (json.Key (get_filename s)
     :: json.StartArray
     :: flat_map (fun e =>
          [json.StartObject; json.Key "key"]
          ++ json_writer.PartitionKey X (ie_key e) None
          ++ [json.Key "pos"; json.Uint64 (ie_position e); json.EndObject])
          (index_entries s)
     ++ [json.EndArray]).
  apply json_members_key, json_value_array, json_elements_flat_map. intros e.
  json_object ((json.Key "key" :: json_writer.PartitionKey X (ie_key e) None)
               ++ [json.Key "pos"; json.Uint64 (ie_position e)]).
  apply json_members_app; [apply json_members_key, json_writer_PartitionKey_json|].
  intros st rest. reflexivity.
Qed.

(** X14: [dump-compression-info] over one sstable or more prints one JSON
    document, whatever options and offsets the compression info holds;
    with no sstable it throws. *)
Theorem dump_compression_info_prints_a_json_document sstables :
  match dump_compression_info_operation get_compression_info sstables with
  | returned events => sstables <> [] /\ json_document events = true
  | thrown msg => sstables = [] /\ msg = "error: no sstables specified on the command line"
  | out_of_fuel => False
  end.
Proof.
  destruct sstables as [|sst ssts]; [split; reflexivity|].
  cbn [dump_compression_info_operation]. split; [discriminate|].
  apply stream_json. intros s. cbv zeta.
  set (c := get_compression_info s).
  json_members_as
          (json.Key (get_filename s) :: json.StartObject
            :: ([json.Key "name"; json.String (compression_name c)]
                ++ (json.Key "options"
                    :: json.StartObject
                    :: flat_map (fun opt => [json.Key (fst opt); json.String (snd opt)])
                         (compression_options c)
                    ++ [json.EndObject])
                ++ [json.Key "chunk_len"; json.Uint (chunk_len c);
                    json.Key "data_len"; json.Uint64 (data_len c)]
                ++ (json.Key "offsets"
                    :: json.StartArray :: map json.Uint64 (compression_offsets c)
                    ++ [json.EndArray]))
            ++ [json.EndObject]).
  apply json_members_key, json_value_object. repeat apply json_members_app.
  - intros st rest. reflexivity.
  - apply json_members_key, json_value_object, json_members_flat_map.
    intros opt st rest. reflexivity.
  - intros st rest. reflexivity.
  - apply json_members_key, json_value_array, json_elements_scalars.
    intros offset. apply json_value_scalar. exact I.
Qed.

(** X15: [dump-summary] over one sstable or more prints one JSON
    document, whatever the summary holds; with no sstable it throws. *)
Theorem dump_summary_prints_a_json_document sstables :
  match dump_summary_operation X get_summary sstables with
  | returned events => sstables <> [] /\ json_document events = true
  | thrown msg => sstables = [] /\ msg = "error: no sstables specified on the command line"
  | out_of_fuel => False
  end.
Proof.
  destruct sstables as [|sst ssts]; [split; reflexivity|].
  cbn [dump_summary_operation]. split; [discriminate|].
  apply stream_json. intros s. cbv zeta.
  set (m := get_summary s).
  json_members_as
          (json.Key (get_filename s) :: json.StartObject
            :: ([json.Key "header"; json.StartObject;
                 json.Key "min_index_interval"; json.Uint64 (min_index_interval m);
                 json.Key "size"; json.Uint64 (summary_size m);
                 json.Key "memory_size"; json.Uint64 (memory_size m);
                 json.Key "sampling_level"; json.Uint64 (sampling_level m);
                 json.Key "size_at_full_sampling"; json.Uint64 (size_at_full_sampling m);
                 json.EndObject]
                ++ (json.Key "positions"
                    :: json.StartArray :: map json.Uint64 (positions m) ++ [json.EndArray])
                ++ (json.Key "entries"
                    :: json.StartArray
                    :: flat_map (fun e =>
                         [json.StartObject; json.Key "key"]
                         ++ json_writer.PartitionKey X (se_key e) (Some (se_token e))
                         ++ [json.Key "position"; json.Uint64 (se_position e);
                             json.EndObject])
                         (entries m)
                    ++ [json.EndArray])
                ++ (json.Key "first_key" :: json_writer.PartitionKey X (first_key m) None)
                ++ (json.Key "last_key" :: json_writer.PartitionKey X (last_key m) None))
            ++ [json.EndObject]).
  apply json_members_key, json_value_object. repeat apply json_members_app.
  - intros st rest. reflexivity.
  - apply json_members_key, json_value_array, json_elements_scalars.
    intros pos. apply json_value_scalar. exact I.
  - apply json_members_key, json_value_array, json_elements_flat_map. intros e.
    json_object ((json.Key "key" :: json_writer.PartitionKey X (se_key e) (Some (se_token e)))
                 ++ [json.Key "position"; json.Uint64 (se_position e)]).
    apply json_members_app; [apply json_members_key, json_writer_PartitionKey_json|].
    intros st rest. reflexivity.
  - apply json_members_key, json_writer_PartitionKey_json.
  - apply json_members_key, json_writer_PartitionKey_json.
Qed.

Lemma visit_scylla_metadata_value_json v :
  json_value (visit_scylla_metadata_value sstable_feature_value v).
Proof.
  destruct v as [token_ranges|enabled_features|attributes|uuid|stats|value];
    cbn [visit_scylla_metadata_value].
  - apply json_value_array, json_elements_flat_map. intros [l r] st st' rest Hst.
    cbn. rewrite Hst. reflexivity.
  - json_object
      ([json.Key "mask"; json.Uint64 enabled_features]
       ++ json.Key "features"
          :: json.StartArray
          :: flat_map (fun f =>
               if negb (Z.land (sstable_feature_value (fst f)) enabled_features =? 0)%Z
               then [json.String (snd f)] else []) all_features
          ++ [json.EndArray]).
    apply json_members_app; [intros st rest; reflexivity|].
    apply json_members_key, json_value_array.
    generalize all_features. intros l.
    induction l as [|f l IH]; [apply json_elements_nil|].
    cbn [flat_map]. apply json_elements_app; [|exact IH].
    destruct (negb _); [apply json_elements_value, json_value_string | apply json_elements_nil].
  - apply json_value_object, json_members_flat_map. intros kv st rest. reflexivity.
  - apply json_value_string.
  - apply json_value_object, json_members_flat_map. intros kv st rest. reflexivity.
  - apply json_value_string.
Qed.

(** X16: [dump-scylla-metadata] over one sstable or more prints one JSON
    document, whatever the component holds and whether a sstable has one;
    with no sstable it throws. *)
Theorem dump_scylla_metadata_prints_a_json_document sstables :
  match dump_scylla_metadata_operation get_scylla_metadata sstable_feature_value sstables with
  | returned events => sstables <> [] /\ json_document events = true
  | thrown msg => sstables = [] /\ msg = "error: no sstables specified on the command line"
  | out_of_fuel => False
  end.
Proof.
  destruct sstables as [|sst ssts]; [split; reflexivity|].
  cbn [dump_scylla_metadata_operation]. split; [discriminate|].
  apply stream_json. intros s.
  json_members_as
    (json.Key (get_filename s)
     :: json.StartObject
     :: match get_scylla_metadata s with
        | None => [json.EndObject]
        | Some data =>
            flat_map (visit_scylla_metadata_member sstable_feature_value) data
            ++ [json.EndObject]
        end).
  apply json_members_key.
  destruct (get_scylla_metadata s) as [data|].
  - apply json_value_object, json_members_flat_map. intros [tag v].
    apply json_members_key, visit_scylla_metadata_value_json.
  - apply (json_value_object []), json_members_nil.
Qed.

End DumpComponentsJson.
(** ** What the parser pushes *)

Section ParserQueue.

Context (X : externals).

Ltac queue_cases :=
  unfold pushed, handler.bind, handler.retired, handler.error, handler.empty_optional,
    handler.emit, handler.push;
  repeat case_match; simplify_eq; cbn; eauto.

Lemma finalize_partition_start_pushed tomb h :
  pushed (fun h => h) (handler._queue h) (handler.finalize_partition_start X tomb h).
Proof. unfold handler.finalize_partition_start. queue_cases. Qed.

Lemma finalize_column_pushed h :
  pushed (fun h => h) (handler._queue h) (handler.finalize_column X h).
Proof. unfold handler.finalize_column. queue_cases. Qed.

Lemma handle_retire_state_pushed h :
  match handler.handle_retire_state X h with
  | handler.Ok res =>
      handler._queue (handler.after res) = handler._queue h
      \/ (exists mf, handler._queue (handler.after res) = handler._queue h ++ [Some mf])
      \/ (handler.top 0 h = Some handler.before_partition
          /\ handler._queue (handler.after res) = handler._queue h ++ [None])
  | handler.Failed _ h' => handler._queue h' = handler._queue h
  end.
Proof.
  unfold handler.handle_retire_state.
  destruct (handler.top 0 h) as [[]|] eqn:Htop; try reflexivity;
    unfold handler.parse_partition_key, handler.parse_clustering_key,
      handler.parse_bound_weight, handler.parse_deletion_time, handler.parse_ttl,
      handler.parse_expiry, handler.get_tombstone, handler.finalize_partition_start,
      handler.finalize_static_row, handler.finalize_range_tombstone_change,
      handler.finalize_row_marker, handler.parse_column_value, handler.finalize_column,
      handler.finalize_clustering_row, handler.finalize_partition;
    unfold handler.bind, handler.retired, handler.error, handler.empty_optional,
      handler.emit;
    repeat case_match; simplify_eq; cbn; eauto 6.
Qed.

Lemma pop_pushed h :
  match handler.pop X h with
  | handler.Ok h' =>
      handler._queue h' = handler._queue h
      \/ (exists mf, handler._queue h' = handler._queue h ++ [Some mf])
      \/ (handler.top 0 h = Some handler.before_partition
          /\ handler._queue h' = handler._queue h ++ [None])
  | handler.Failed _ h' => handler._queue h' = handler._queue h
  end.
Proof.
  unfold handler.pop. pose proof (handle_retire_state_pushed h) as Hretire.
  destruct (handler.handle_retire_state X h) as [res|msg h']; cbn [handler.bind];
    [|exact Hretire].
  destruct (handler.next_state res); exact Hretire.
Qed.

(** X4: what one callback of the reader does to the queue of the parser.
    A callback that goes through leaves the queue as it was or pushes one
    item: a fragment, or the end-of-stream marker, which only the end of
    the array of the partitions pushes.  A callback that fails pushes
    nothing. *)
Theorem callback_pushes_at_most_one e h :
  match handler.dispatch X e h with
  | handler.Ok h' =>
      handler._queue h' = handler._queue h
      \/ (exists mf, handler._queue h' = handler._queue h ++ [Some mf])
      \/ (e = json.EndArray /\ handler.top 0 h = Some handler.before_partition
          /\ handler._queue h' = handler._queue h ++ [None])
  | handler.Failed _ h' => handler._queue h' = handler._queue h
  end.
Proof.
  assert (Hweak : forall (P : handler.t -> Prop) r,
    pushed (fun h => h) (handler._queue h) r ->
    match r with
    | handler.Ok h' =>
        handler._queue h' = handler._queue h
        \/ (exists mf, handler._queue h' = handler._queue h ++ [Some mf]) \/ P h'
    | handler.Failed _ h' => handler._queue h' = handler._queue h
    end).
  { intros P [h'|msg h'] Hr; cbn in Hr; [|exact Hr]. destruct Hr; auto. }
  assert (Hpop : forall h0,
    handler._queue h0 = handler._queue h ->
    handler.top 0 h0 <> Some handler.before_partition ->
    pushed (fun h => h) (handler._queue h) (handler.pop X h0)).
  { intros h0 Hq Hne. pose proof (pop_pushed h0) as H0. rewrite Hq in H0.
    destruct (handler.pop X h0); [|exact H0].
    destruct H0 as [H0 | [H0 | [H0 _]]]; [left; exact H0 | right; exact H0 | contradiction]. }
  destruct e as [|b|i|i|i|i|d|str|str| |str| | |]; cbn [handler.dispatch];
    unfold handler.Null, handler.Bool, handler.Int, handler.Uint, handler.Int64, handler.Uint64,
      handler.Double, handler.RawNumber, handler.String, handler.StartObject, handler.EndObject,
      handler.StartArray, handler.unexpected, handler.error, handler.push;
    try (destruct (handler.top 0 h) as [[]|] eqn:Htop;
         solve [ cbn; auto
               | apply (Hweak (fun h' => _ /\ _ /\ handler._queue h' = _)), Hpop;
                 [reflexivity
                 | first [ rewrite Htop; discriminate
                         | change (handler.top 0 h <> Some handler.before_partition);
                           rewrite Htop; discriminate ] ] ]).
  - (* Key *)
    unfold handler.Key, handler.unexpected_key, handler.error, handler.push.
    change (handler.top 0 (handler.set_key str h)) with (handler.top 0 h).
    pose proof (finalize_partition_start_pushed no_tombstone (handler.set_key str h)) as Hstart.
    cbn [handler._queue handler.set_key] in Hstart.
    destruct (handler.top 0 h) as [[]|] eqn:Htop;
      try solve [repeat case_match; simplify_eq; cbn; auto].
    destruct (str =? "key")%string; [cbn; auto|].
    destruct (str =? "tombstone")%string; [cbn; auto|].
    destruct ((str =? "static_row")%string || (str =? "clustering_elements")%string);
      [|cbn; auto].
    destruct (negb (handler._partition_start_emited (handler.set_key str h))).
    + destruct (handler.finalize_partition_start X no_tombstone (handler.set_key str h))
        as [h1|msg h1]; cbn [handler.bind pushed] in *; [|exact Hstart].
      destruct (str =? "static_row")%string; cbn; destruct Hstart; auto.
    + cbn [handler.bind]. destruct (str =? "static_row")%string; cbn; auto.
  - (* EndArray *)
    unfold handler.EndArray, handler.unexpected, handler.error.
    pose proof (pop_pushed h) as Hh.
    destruct (handler.top 0 h) as [[]|] eqn:Htop; try solve [cbn; auto];
      destruct (handler.pop X h); try exact Hh;
      destruct Hh as [Hh | [Hh | [Hh1 Hh2]]]; auto.
Qed.

(** X2: the document has to be an array.  Whatever comes first that is
    not the start of an array is refused there, and nothing is pushed. *)
Theorem document_has_to_be_an_array e rest :
  match e with
  | json.StartArray => True
  | json.Key _ =>
      parsed X (e :: rest) = ([], Some "unexpected json event {}({}) in state {}")
  | _ => parsed X (e :: rest) = ([], Some "unexpected json event {} in state {}")
  end.
Proof. destruct e; reflexivity || exact I. Qed.

(** X3: where the parser ignores a value, which is at the token and at
    the value of a key, a null, a number or a string is skipped: the
    state is popped and nothing else changes.  A boolean, an object or an
    array there is refused, like a key or an end. *)
Theorem ignored_value_is_skipped e h0 st :
  let h := handler.set_state_stack (handler.before_ignored_value :: st) h0 in
  handler.dispatch X e h
  = match e with
    | json.Null | json.Int _ | json.Uint _ | json.Int64 _ | json.Uint64 _ | json.Double _
    | json.String _ =>
        handler.Ok (handler.set_state_stack st h0)
    | json.Key k =>
        handler.Failed "unexpected json event {}({}) in state {}" (handler.set_key k h)
    | _ => handler.Failed "unexpected json event {} in state {}" h
    end.
Proof. destruct e; reflexivity. Qed.

(** X5: a partition object whose partition start was not emitted yet,
    at a static row, at the clustering elements or at a tombstone, here
    an empty one.  The parser emits the partition start there, from the
    partition key that is pending, and when none is pending it fails for
    want of the key, whatever follows, and pushes nothing.  No key is
    pending in the first object of a document before its key, so there a
    static row, clustering elements or a tombstone before the key are
    refused. *)
Theorem partition_key_has_to_come_first h0 st pkey rest :
  let h :=
    handler.set_state_stack (handler.in_partition :: st)
      (handler.set_pkey pkey (handler.set_partition_start_emited false h0)) in
  let refused (events : list json.event) :=
    exists h',
      handler.Parse X (events ++ rest) h
      = (h', Some "failed to finalize partition start: no partition key")
      /\ handler._queue h' = handler._queue h0 in
  let started (events : list json.event) (pk : bytes) :=
    exists h',
      handler.Parse X events h = (h', None)
      /\ handler._queue h'
         = handler._queue h0
           ++ [Some (mf_partition_start
                       (mk_partition_start (mk_decorated_key (token_of X pk) pk)
                          no_tombstone))] in
  match pkey with
  | None =>
      refused [json.Key "static_row"]
      /\ refused [json.Key "clustering_elements"]
      /\ refused [json.Key "tombstone"; json.StartObject; json.EndObject]
  | Some pk =>
      started [json.Key "static_row"] pk
      /\ started [json.Key "clustering_elements"] pk
      /\ started [json.Key "tombstone"; json.StartObject; json.EndObject] pk
  end
  /\ parsed X ([json.StartArray; json.StartObject; json.Key "static_row"] ++ rest)
     = ([], Some "failed to finalize partition start: no partition key")
  /\ parsed X ([json.StartArray; json.StartObject; json.Key "clustering_elements"] ++ rest)
     = ([], Some "failed to finalize partition start: no partition key")
  /\ parsed X ([json.StartArray; json.StartObject; json.Key "tombstone"; json.StartObject;
                json.EndObject] ++ rest)
     = ([], Some "failed to finalize partition start: no partition key").
Proof.
  cbv zeta. split; [|repeat split].
  destruct h0, pkey as [pk|]; repeat split; eexists;
    (split; [cbn [app]; run_parser; reflexivity | reflexivity]).
Qed.

End ParserQueue.
(** ** The buckets and the counters of the histogram *)

(** X17: the bucket of a timestamp is the timestamp rounded toward zero
    to a multiple of the width of the bucket.  It is no further from zero
    than the timestamp and less than one width away from it, so it is an
    [int64_t] when the timestamp is; it is its own bucket; and the
    timestamps less than one width away from zero, before or after, all
    fall in the bucket at zero. *)
Theorem timestamp_bucket_rounds_toward_zero b ts :
  let w := writetime_histogram_collecting_consumer.bucket_width b in
  let t := writetime_histogram_collecting_consumer.timestamp_bucket b ts in
  (t mod w = 0
   /\ Z.abs t <= Z.abs ts
   /\ Z.abs (ts - t) < w
   /\ writetime_histogram_collecting_consumer.timestamp_bucket b t = t
   /\ (Z.abs ts < w -> t = 0))%Z.
Proof.
  cbv zeta. unfold writetime_histogram_collecting_consumer.timestamp_bucket.
  set (w := writetime_histogram_collecting_consumer.bucket_width b).
  assert (Hw : (0 < w)%Z) by (subst w; destruct b; reflexivity).
  assert (Hbetween : (0 <= ts -> 0 <= ts ÷ w * w <= ts /\ ts - ts ÷ w * w < w)%Z).
  { intros Hts. pose proof (Z.quot_pos ts w Hts Hw). pose proof (Z.mul_quot_le ts w Hts ltac:(lia)).
    pose proof (Z.mul_succ_quot_gt ts w Hts Hw). nia. }
  assert (Hboth : (Z.abs (ts ÷ w * w) <= Z.abs ts /\ Z.abs (ts - ts ÷ w * w) < w)%Z).
  { destruct (Z.le_gt_cases 0 ts) as [Hts|Hts].
    - specialize (Hbetween Hts). lia.
    - assert (Hopp : (ts ÷ w = - (- ts ÷ w))%Z).
      { rewrite Z.quot_opp_l by lia. lia. }
      pose proof (Z.quot_pos (- ts) w ltac:(lia) Hw).
      pose proof (Z.mul_quot_le (- ts) w ltac:(lia) ltac:(lia)).
      pose proof (Z.mul_succ_quot_gt (- ts) w ltac:(lia) Hw).
      rewrite Hopp. nia. }
  split; [apply Z.mod_mul; lia|].
  split; [apply Hboth|]. split; [apply Hboth|].
  split; [rewrite Z.quot_mul by lia; reflexivity|].
  intros Hsmall.
  assert (Hq : (ts ÷ w = 0)%Z) by (apply Z.quot_small_iff; lia).
  rewrite Hq. reflexivity.
Qed.
Section HistogramCounters.

Context (X : externals).

Import writetime_histogram_collecting_consumer.

Lemma tallies_refl c : tallies 0 0 0 0 c c.
Proof. repeat split. Qed.

Lemma tallies_trans p1 r1 c1 t1 p2 r2 c2 t2 a b c :
  tallies p1 r1 c1 t1 a b -> tallies p2 r2 c2 t2 b c ->
  tallies (p1 + p2) (r1 + r2) (c1 + c2) (t1 + t2) a c.
Proof.
  intros (Hp1 & Hr1 & Hc1 & Ht1) (Hp2 & Hr2 & Hc2 & Ht2).
  unfold tallies. rewrite Hp2, Hr2, Hc2, Ht2, Hp1, Hr1, Hc1, Ht1.
  rewrite (Nat.add_comm p1), (Nat.add_comm r1), (Nat.add_comm c1), (Nat.add_comm t1).
  rewrite !Nat.iter_add. repeat split.
Qed.

Lemma collect_timestamp_tallies ts c : tallies 0 0 0 1 c (collect_timestamp ts c).
Proof. repeat split. Qed.

Lemma collect_sub_cells_tallies (cells : list (bytes * atomic_cell)) : forall c,
  tallies 0 0 (length cells) (length cells) c
    (fold_left (fun c kv => collect_timestamp (atomic_cell_timestamp (snd kv)) (count_cell c))
       cells c).
Proof.
  induction cells as [|kv cells IH]; intros c; [apply tallies_refl|].
  cbn [fold_left length].
  eapply (tallies_trans 0 0 1 1 0 0 (length cells) (length cells)); [|apply IH].
  repeat split.
Qed.

Lemma collect_column_tallies cell c c' :
  collect_column cell c = returned c' ->
  tallies 0 0 (cell_count cell) (length (cell_timestamps cell)) c c'.
Proof.
  destruct cell as [a|ts v|ts shards|tomb cells|]; cbn [collect_column cell_count cell_timestamps];
    intros Hc; [injection Hc as <-; repeat split ..| |discriminate].
  injection Hc as <-. rewrite length_app, length_map.
  destruct (tombstone_bool tomb); cbn [length].
  - eapply (tallies_trans 0 0 0 1 0 0 (length cells) (length cells));
      [apply collect_timestamp_tallies | apply collect_sub_cells_tallies].
  - apply collect_sub_cells_tallies.
Qed.

Lemma collect_cells_tallies r : forall c c',
  collect_cells r c = returned c' ->
  tallies 0 0 (row_cell_count r) (length (row_timestamps r)) c c'.
Proof.
  induction r as [|[i cell] r IH]; intros c c' Hc.
  - injection Hc as <-. apply tallies_refl.
  - cbn [collect_cells] in Hc.
    destruct (collect_column cell c) as [c1| |] eqn:Hcell; try discriminate.
    cbn [andthen] in Hc.
    unfold row_cell_count, row_timestamps. cbn [map list_sum flat_map snd].
    rewrite length_app.
    apply (tallies_trans 0 0 _ _ 0 0 _ _ c c1 c');
      [apply collect_column_tallies, Hcell | apply IH, Hc].
Qed.

Lemma collect_row_tallies r c c' :
  collect_row r c = returned c' ->
  tallies 0 1 (row_cell_count r) (length (row_timestamps r)) c c'.
Proof.
  unfold collect_row. intros Hc.
  apply (tallies_trans 0 1 0 0 0 0 _ _ c (count_row c) c');
    [repeat split | apply collect_cells_tallies, Hc].
Qed.

Lemma consume_tallies mf c r :
  consume X mf c = returned r ->
  tallies (fragment_partitions mf) (fragment_rows mf) (fragment_cells mf)
    (length (fragment_timestamps X mf)) c (snd r).
Proof.
  destruct mf as [ps|cells|cr|rtc|];
    cbn [consume fragment_partitions fragment_rows fragment_cells fragment_timestamps].
  - intros [= <-]. cbn [snd]. destruct (tombstone_bool (partition_tombstone ps)); repeat split.
  - unfold collect_static_row.
    destruct (collect_row cells c) as [c1| |] eqn:Hrow; try discriminate.
    intros [= <-]. apply collect_row_tallies, Hrow.
  - unfold collect_clustering_row.
    set (c1 := if negb (marker_is_missing (cr_marker cr)) then _ else c).
    set (c2 := if negb (row_tombstone_is_empty (cr_tomb cr)) then _ else c1).
    destruct (collect_row (cr_cells cr) c2) as [c3| |] eqn:Hrow; try discriminate.
    intros [= <-]. cbn [snd]. rewrite !length_app.
    apply (tallies_trans 0 0 0 _ 0 1 _ _ c c1 c3).
    { subst c1. destruct (negb (marker_is_missing (cr_marker cr))); repeat split. }
    apply (tallies_trans 0 0 0 _ 0 1 _ _ c1 c2 c3).
    { subst c2. destruct (negb (row_tombstone_is_empty (cr_tomb cr))); repeat split. }
    apply collect_row_tallies, Hrow.
  - intros [= <-]. repeat split.
  - intros [= <-]. repeat split.
Qed.

Lemma consume_fragments_tallies frags : forall c c',
  consume_fragments X frags c = returned c' ->
  tallies (list_sum (map fragment_partitions frags)) (list_sum (map fragment_rows frags))
    (list_sum (map fragment_cells frags)) (length (flat_map (fragment_timestamps X) frags))
    c c'.
Proof.
  induction frags as [|mf frags IH]; intros c c' Hc.
  - injection Hc as <-. apply tallies_refl.
  - cbn [consume_fragments] in Hc.
    destruct (consume X mf c) as [r| |] eqn:Hmf; try discriminate. cbn [andthen] in Hc.
    cbn [map list_sum flat_map]. rewrite length_app.
    eapply tallies_trans; [apply consume_tallies, Hmf | apply IH, Hc].
Qed.

Lemma iter_incr n : Nat.iter n incr 0%Z = (Z.of_nat n mod 2 ^ 64)%Z.
Proof.
  induction n as [|n IH]; [reflexivity|].
  change (Nat.iter (S n) incr 0%Z) with (incr (Nat.iter n incr 0%Z)).
  rewrite IH. unfold incr. rewrite Zplus_mod_idemp_l.
  f_equal. lia.
Qed.

(** Only a cell of a type that is unknown makes the consumer throw. *)
Lemma consume_fragments_thrown frags : forall c,
  match consume_fragments X frags c with
  | thrown msg => msg = "Cannot collect timestamp of cell (column {} of uknown type {})"
  | out_of_fuel => False
  | returned _ => True
  end.
Proof.
  assert (Hcells : forall r c,
    match collect_cells r c with
    | thrown msg => msg = "Cannot collect timestamp of cell (column {} of uknown type {})"
    | out_of_fuel => False
    | returned _ => True
    end).
  { induction r as [|[i cell] r IH]; intros c; [exact I|].
    cbn [collect_cells]. destruct cell; cbn [collect_column andthen]; try apply IH.
    reflexivity. }
  induction frags as [|mf frags IH]; intros c; [exact I|].
  cbn [consume_fragments].
  destruct mf as [ps|cells|cr|rtc|]; cbn [consume andthen]; try apply IH.
  - unfold collect_static_row, collect_row.
    pose proof (Hcells cells (count_row c)) as Hc.
    destruct (collect_cells cells (count_row c)); cbn [andthen]; [apply IH | exact Hc | exact Hc].
  - unfold collect_clustering_row, collect_row.
    match goal with |- context [collect_cells ?r ?c0] => pose proof (Hcells r c0) as Hc;
      destruct (collect_cells r c0) end; cbn [andthen]; [apply IH | exact Hc | exact Hc].
Qed.

(** X18: the four counters of the histogram consumer.  After a run that
    did not throw they are the numbers of partitions, of rows, static
    ones included, of cells, the elements of a collection counting each,
    and of timestamps collected, each as a [uint64_t].  A run throws only
    at a cell of a type that is unknown. *)
Theorem histogram_counters bk fs frags :
  match consume_fragments X frags (init bk fs) with
  | returned c =>
      (_partitions c = Z.of_nat (list_sum (map fragment_partitions frags)) mod 2 ^ 64
       /\ _rows c = Z.of_nat (list_sum (map fragment_rows frags)) mod 2 ^ 64
       /\ _cells c = Z.of_nat (list_sum (map fragment_cells frags)) mod 2 ^ 64
       /\ _timestamps c
          = Z.of_nat (length (flat_map (fragment_timestamps X) frags)) mod 2 ^ 64)%Z
  | thrown msg => msg = "Cannot collect timestamp of cell (column {} of uknown type {})"
  | out_of_fuel => False
  end.
Proof.
  pose proof (consume_fragments_thrown frags (init bk fs)) as Hthrown.
  pose proof (consume_fragments_tallies frags (init bk fs)) as Htallies.
  destruct (consume_fragments X frags (init bk fs)) as [c| |]; [|exact Hthrown|exact Hthrown].
  destruct (Htallies c eq_refl) as (Hp & Hr & Hc & Ht).
  cbn [init _partitions _rows _cells _timestamps] in *.
  rewrite Hp, Hr, Hc, Ht, !iter_incr. repeat split.
Qed.

End HistogramCounters.
(** ** A consumer behind another *)

Section Wrapped.

Context {S1 S2 : Type} (C1 : sstable_consumer S1) (C2 : sstable_consumer S2).
Context (wrap : S1 -> S2).
Context (make_combined_reader : list flat_mutation_reader_v2 -> flat_mutation_reader_v2).
Context (next_partition : flat_mutation_reader_v2 -> flat_mutation_reader_v2).

Hypothesis wrapped_on_start_of_stream : forall s,
  @on_start_of_stream _ C2 (wrap s) = lift wrap (@on_start_of_stream _ C1 s).
Hypothesis wrapped_on_new_sstable : forall sst s,
  @on_new_sstable _ C2 sst (wrap s) = lift_answer wrap (@on_new_sstable _ C1 sst s).
Hypothesis wrapped_consume : forall mf s,
  @consume _ C2 mf (wrap s) = lift_answer wrap (@consume _ C1 mf s).
Hypothesis wrapped_on_end_of_sstable : forall s,
  @on_end_of_sstable _ C2 (wrap s) = lift_answer wrap (@on_end_of_sstable _ C1 s).
Hypothesis wrapped_on_end_of_stream : forall s,
  @on_end_of_stream _ C2 (wrap s) = lift wrap (@on_end_of_stream _ C1 s).

Lemma consume_pausable_wrapped partitions rd : forall s skip_partition,
  @consume_pausable _ C2 partitions rd (wrap s) skip_partition
  = lift (fun r => (fst (fst r), wrap (snd (fst r)), snd r))
      (@consume_pausable _ C1 partitions rd s skip_partition).
Proof.
  induction rd as [|mf rd IH]; intros s skip_partition; [reflexivity|].
  assert (Hstep : forall skip,
    andthen (@consume _ C2 mf (wrap s))
      (fun r => match fst r with
                | stop_iteration.yes => returned (rd, snd r, skip)
                | stop_iteration.no => @consume_pausable _ C2 partitions rd (snd r) skip
                end)
    = lift (fun r => (fst (fst r), wrap (snd (fst r)), snd r))
        (andthen (@consume _ C1 mf s)
           (fun r => match fst r with
                     | stop_iteration.yes => returned (rd, snd r, skip)
                     | stop_iteration.no => @consume_pausable _ C1 partitions rd (snd r) skip
                     end))).
  { intros skip. rewrite wrapped_consume. unfold lift_answer, lift.
    destruct (@consume _ C1 mf s) as [[[] s']| |]; cbn [andthen fst snd]; [apply IH|..];
      reflexivity. }
  cbn [consume_pausable].
  destruct mf as [ps| | | |], partitions as [|k ks]; try apply Hstep.
  destruct (negb (partitions_find (k :: ks) (ps_key ps))); [reflexivity | apply Hstep].
Qed.

Lemma consume_reader_loop_wrapped partitions no_skips fuel : forall rd s,
  @consume_reader_loop _ C2 next_partition fuel rd (wrap s) partitions no_skips
  = lift wrap (@consume_reader_loop _ C1 next_partition fuel rd s partitions no_skips).
Proof.
  induction fuel as [|fuel IH]; intros rd s; destruct rd as [|mf rd]; try reflexivity.
  cbn [consume_reader_loop]. rewrite consume_pausable_wrapped. unfold lift at 1.
  destruct (@consume_pausable _ C1 partitions (mf :: rd) s false) as [[[rd' s'] skip]| |];
    cbn [andthen fst snd]; [|reflexivity..].
  destruct (negb (bool_decide (rd' = [])) && negb skip).
  - destruct rd' as [|mf' rd']; [reflexivity|].
    destruct (negb (is_partition_start mf')); [reflexivity|].
    rewrite wrapped_consume. unfold lift_answer, lift.
    destruct (@consume _ C1 mf_partition_end s') as [[[] s'']| |]; cbn [andthen fst snd];
      [apply IH|..]; reflexivity.
  - destruct skip; apply IH.
Qed.

Lemma consume_reader_wrapped rd s sst partitions no_skips :
  @consume_reader _ C2 next_partition rd (wrap s) sst partitions no_skips
  = lift_answer wrap (@consume_reader _ C1 next_partition rd s sst partitions no_skips).
Proof.
  unfold consume_reader. rewrite wrapped_on_new_sstable. unfold lift_answer, lift.
  destruct (@on_new_sstable _ C1 sst s) as [[[] s']| |]; cbn [andthen fst snd];
    [|rewrite wrapped_on_end_of_sstable; reflexivity|reflexivity..].
  rewrite consume_reader_loop_wrapped. unfold lift.
  destruct (@consume_reader_loop _ C1 next_partition (Datatypes.S (length rd)) rd s' partitions
              no_skips) as [s''| |]; cbn [andthen]; [|reflexivity..].
  rewrite wrapped_on_end_of_sstable. reflexivity.
Qed.

Lemma consume_each_wrapped partitions no_skips ssts : forall s,
  consume_each
    (fun rd sst consumer =>
       @consume_reader _ C2 next_partition rd consumer sst partitions no_skips)
    ssts (wrap s)
  = lift wrap
      (consume_each
         (fun rd sst consumer =>
            @consume_reader _ C1 next_partition rd consumer sst partitions no_skips)
         ssts s).
Proof.
  induction ssts as [|sst ssts IH]; intros s; [reflexivity|].
  cbn [consume_each]. rewrite consume_reader_wrapped. unfold lift_answer, lift at 1.
  destruct (@consume_reader _ C1 next_partition (fragments sst) s (Some (get_filename sst))
              partitions no_skips) as [[[] s']| |]; cbn [andthen fst snd];
    [apply IH|..]; reflexivity.
Qed.

(** The driver looks at a consumer through its calls only: the operation
    on the wrapped consumer is the operation on the consumer, wrapped. *)
Lemma sstable_consumer_operation_wrapped sstables merge no_skips partitions s :
  @sstable_consumer_operation _ C2 make_combined_reader next_partition sstables merge no_skips
    partitions (wrap s)
  = lift wrap
      (@sstable_consumer_operation _ C1 make_combined_reader next_partition sstables merge
         no_skips partitions s).
Proof.
  unfold sstable_consumer_operation. destruct sstables as [|sst ssts]; [reflexivity|].
  rewrite wrapped_on_start_of_stream. unfold lift at 1 2.
  destruct (@on_start_of_stream _ C1 s) as [s0| |]; cbn [andthen]; [|reflexivity..].
  unfold consume_sstables. destruct merge.
  - rewrite consume_reader_wrapped. unfold lift_answer, lift.
    destruct (@consume_reader _ C1 next_partition
                (make_combined_reader (map fragments (sst :: ssts))) s0 None partitions
                no_skips) as [[a s1]| |]; cbn [andthen fst snd]; [|reflexivity..].
    rewrite wrapped_on_end_of_stream. reflexivity.
  - rewrite consume_each_wrapped. unfold lift.
    destruct (consume_each _ (sst :: ssts) s0) as [s1| |]; cbn [andthen]; [|reflexivity..].
    rewrite wrapped_on_end_of_stream. reflexivity.
Qed.

End Wrapped.

(** ** [dump-data], text output *)

Section DumpDataText.

Context (X : externals).
Context (P : printers).
Context (make_combined_reader : list flat_mutation_reader_v2 -> flat_mutation_reader_v2).
Context (next_partition : flat_mutation_reader_v2 -> flat_mutation_reader_v2).

Lemma fold_left_lines (rd : flat_mutation_reader_v2) : forall d : text_dumper.t,
  fold_left (fun d mf => d ++ [fragment_line P mf]) rd d = d ++ map (fragment_line P) rd.
Proof.
  induction rd as [|mf rd IH]; intros d; cbn [fold_left map].
  - rewrite app_nil_r. reflexivity.
  - rewrite IH, <- app_assoc. reflexivity.
Qed.

Lemma consume_reader_text rd sst no_skips (d : text_dumper.t) :
  @consume_reader _ (text_dumper_consumer P) next_partition rd d sst [] no_skips
  = returned (stop_iteration.no, d ++ sstable_lines P sst rd).
Proof.
  unfold consume_reader.
  cbn [on_new_sstable text_dumper_consumer andthen fst snd text_dumper.on_new_sstable].
  rewrite (@consume_reader_loop_all _ (text_dumper_consumer P) next_partition
             (fun mf d => d ++ [fragment_line P mf])).
  - cbn [andthen on_end_of_sstable text_dumper_consumer]. unfold text_dumper.on_end_of_sstable.
    rewrite fold_left_lines. unfold sstable_lines. rewrite <- !app_assoc. reflexivity.
  - intros mf c. destruct mf; reflexivity.
Qed.

Lemma consume_each_text no_skips ssts : forall d : text_dumper.t,
  consume_each
    (fun rd sst consumer =>
       @consume_reader _ (text_dumper_consumer P) next_partition rd consumer sst [] no_skips)
    ssts d
  = returned
      (d ++ flat_map (fun s => sstable_lines P (Some (get_filename s)) (fragments s)) ssts).
Proof.
  induction ssts as [|s ssts IH]; intros d; cbn [consume_each flat_map].
  - rewrite app_nil_r. reflexivity.
  - rewrite consume_reader_text. cbn [andthen fst snd]. rewrite IH, <- app_assoc. reflexivity.
Qed.

(** X19: [dump-data] with text output and no partition filter, over one
    sstable or more, prints a line for the start of the stream, then the
    lines of each sstable in turn, those of the combined reader with
    [merge], and a line for the end of the stream: every fragment has its
    line, in the order of the reader. *)
Theorem text_dump_prints_a_line_for_each_fragment sst ssts merge no_skips :
  @sstable_consumer_operation _ (text_dumper_consumer P) make_combined_reader next_partition
    (sst :: ssts) merge no_skips [] []
  = returned
      (["{stream_start}" +:+ newline]
       ++ (if merge
           then sstable_lines P None (make_combined_reader (map fragments (sst :: ssts)))
           else flat_map (fun s => sstable_lines P (Some (get_filename s)) (fragments s))
                  (sst :: ssts))
       ++ ["{stream_end}" +:+ newline]).
Proof.
  unfold sstable_consumer_operation, consume_sstables.
  cbn [on_start_of_stream text_dumper_consumer andthen].
  unfold text_dumper.on_start_of_stream. cbn [app].
  destruct merge.
  - rewrite consume_reader_text. cbn [andthen snd on_end_of_stream text_dumper_consumer].
    unfold text_dumper.on_end_of_stream. rewrite <- app_assoc. reflexivity.
  - rewrite consume_each_text. cbn [andthen on_end_of_stream text_dumper_consumer].
    unfold text_dumper.on_end_of_stream. rewrite <- app_assoc. reflexivity.
Qed.

(** X20: the [output-format] option of [dump-data], over one sstable or
    more.  With [json], or with no value on the command line, the default
    being [json], the operation is that of the JSON dumper; with [text]
    it is that of the text dumper; the partition filter and the other
    options mean the same for both.  Any other value makes the operation
    throw before a consumer is called. *)
Theorem output_format_selects_the_dumper output_format sst ssts merge no_skips partitions b :
  dump_data_operation X P make_combined_reader next_partition
    (sst :: ssts) merge no_skips partitions output_format b
  = let as_json_dumper :=
      lift dumping_consumer.as_json
        (@sstable_consumer_operation _ (json_dumper_consumer X) make_combined_reader
           next_partition (sst :: ssts) merge no_skips partitions (json_dumper.init b)) in
    match output_format with
    | None => as_json_dumper
    | Some value =>
        if (value =? "text")%string then
          lift dumping_consumer.as_text
            (@sstable_consumer_operation _ (text_dumper_consumer P) make_combined_reader
               next_partition (sst :: ssts) merge no_skips partitions [])
        else if (value =? "json")%string then as_json_dumper
        else thrown "error: invalid value for dump option output-format: {}"
    end.
Proof.
  assert (Htext :
    @sstable_consumer_operation _ (dumping_consumer_consumer X P) make_combined_reader
      next_partition (sst :: ssts) merge no_skips partitions (dumping_consumer.as_text [])
    = lift dumping_consumer.as_text
        (@sstable_consumer_operation _ (text_dumper_consumer P) make_combined_reader
           next_partition (sst :: ssts) merge no_skips partitions [])).
  { apply (sstable_consumer_operation_wrapped (text_dumper_consumer P)
             (dumping_consumer_consumer X P) dumping_consumer.as_text); reflexivity. }
  assert (Hjson :
    @sstable_consumer_operation _ (dumping_consumer_consumer X P) make_combined_reader
      next_partition (sst :: ssts) merge no_skips partitions
      (dumping_consumer.as_json (json_dumper.init b))
    = lift dumping_consumer.as_json
        (@sstable_consumer_operation _ (json_dumper_consumer X) make_combined_reader
           next_partition (sst :: ssts) merge no_skips partitions (json_dumper.init b))).
  { apply (sstable_consumer_operation_wrapped (json_dumper_consumer X)
             (dumping_consumer_consumer X P) dumping_consumer.as_json); reflexivity. }
  unfold dump_data_operation, dumping_consumer.make, get_output_format_from_options.
  cbv zeta.
  destruct output_format as [value|]; [|exact Hjson].
  change (default output_format_default_value (Some value)) with value.
  destruct (value =? "text")%string; [exact Htext|].
  destruct (value =? "json")%string; [exact Hjson | reflexivity].
Qed.

End DumpDataText.
(** ** The files [decompress] leaves alone *)

Lemma decompress_each_elsewhere path sstables : forall fs,
  ~ In path (decompressed_outputs sstables) ->
  snd (decompress_each sstables fs) !! path = fs !! path.
Proof.
  induction sstables as [|sst rest IH]; intros fs Hpath; [reflexivity|].
  unfold decompressed_outputs in Hpath. cbn [List.filter] in Hpath.
  cbn [decompress_each]. destruct (get_compression sst); cbn [negb]; [|apply IH, Hpath].
  cbn [map In] in Hpath.
  assert (Hne : get_filename sst +:+ ".decompressed" <> path) by tauto.
  assert (Hrest : ~ In path (decompressed_outputs rest)) by (unfold decompressed_outputs; tauto).
  unfold open_file_dma, wo_create, close_output_stream. cbn [create exclusive andb].
  assert (Hput : forall content (fs' : file_system),
    <[get_filename sst +:+ ".decompressed" := content]> fs' !! path = fs' !! path).
  { intros content fs'. apply lookup_insert_ne, Hne. }
  destruct (fs !! (get_filename sst +:+ ".decompressed"));
    (destruct (snd (data_stream sst)); cbn [snd];
     [|rewrite (IH _ Hrest)]; rewrite !Hput; reflexivity).
Qed.

(** X21: [decompress] writes to no file but the outputs of the
    compressed sstables it was given: whether it returns or throws, a
    file under any other path is left as it was, there or not. *)
Theorem decompress_touches_only_its_outputs sstables fs path :
  ~ In path (decompressed_outputs sstables) ->
  snd (decompress_operation sstables fs) !! path = fs !! path.
Proof.
  intros Hpath. unfold decompress_operation.
  destruct sstables as [|sst rest]; [reflexivity|].
  apply decompress_each_elsewhere, Hpath.
Qed.

Lemma decompress_touches_only_its_outputs_witness :
  snd (decompress_operation [compressed_sstable; corrupt_sstable]
         {[ "md-1-big-Data.db" := "compressed" ]})
    !! "md-1-big-Data.db"
  = ({[ "md-1-big-Data.db" := "compressed" ]} : file_system) !! "md-1-big-Data.db".
Proof.
  apply (decompress_touches_only_its_outputs [compressed_sstable; corrupt_sstable]
           {[ "md-1-big-Data.db" := "compressed" ]} "md-1-big-Data.db").
  vm_compute. intros [H|[H|[]]]; discriminate H.
Defined.
